(** * create-relay-app: a shallow embedding of the source-transformation core

    The development follows the TypeScript sources:
    - [helpers.ts]: [normalizePath], [findFileInDirectory],
      [traverseUpToFindFile], [getSpecifiedProperties], [isSubDirectory],
      [getRelativePath], [removeExtension], [getRelayEnvFilepath],
      [getToolchainSettings];
    - [arguments/ArgumentHandler.ts]: [promptForMissing], [validateArgs];
    - [tasks/AddRelayPluginConfigurationTask.ts]: [configureVite],
      [configureNext];
    - [tasks/AddRelayEnvironmentProviderTask.ts]: [configureNext],
      [configureViteOrCra], [wrapJsxInProvider];
    - [tasks/AddRelayEnvironmentTask.ts]: [configureVite];
    - [tasks/GenerateArtifactDirectoryTask.ts]: [isEnabled], [run];
    - [tasks/GenerateRelayEnvironmentTask.ts]: [addRelayEnvironmentFile],
      [CodeBuilder].

    Strings are [string], JavaScript arrays are lists, Babel syntax trees
    are a tagged rose tree, thrown errors are the [Failed] branch of a
    result type, and the file system is a finite map threaded as state. *)

From Stdlib Require Import String Ascii List Bool Arith Lia.
From stdpp Require Import base option strings list gmap.

Import ListNotations.

(** ** JavaScript string and array primitives *)

Module Js.

(** [s.split(c)] for a one-character separator [c]. *)
Fixpoint split (c : ascii) (s : string) : list string :=
  match s with
  | EmptyString => [EmptyString]
  | String a r =>
      if Ascii.eqb a c then EmptyString :: split c r
      else match split c r with
           | h :: t => String a h :: t
           | [] => [String a EmptyString]
           end
  end.

(** [parts.join(glue)]. *)
Definition join (glue : string) (parts : list string) : string :=
  String.concat glue parts.

(** [s.startsWith(p)]. *)
Definition startsWith (s p : string) : bool := String.prefix p s.

(** Truthiness of a string ([!!s]) and of a nullable string. *)
Definition truthy (s : string) : bool := negb (String.eqb s "").

Definition truthy_opt (o : option string) : bool :=
  match o with
  | Some s => truthy s
  | None => false
  end.

(** Character-wise replacement, the closed form of [split] then [join]. *)
Fixpoint replace_char (c d : ascii) (s : string) : string :=
  match s with
  | EmptyString => EmptyString
  | String a r => String (if Ascii.eqb a c then d else a) (replace_char c d r)
  end.

End Js.

(** ** Node's [path] module *)

Module NodePath.

Inductive platform : Set := posix | win32.

(** [path.sep]. *)
Definition sep (p : platform) : ascii :=
  match p with
  | posix => "/"%char
  | win32 => "\"%char
  end.

(** One step of [normalizeString]: the segments kept so far are held
    innermost first. *)
Definition normalize_step (allowAboveRoot : bool) (res : list string)
    (seg : string) : list string :=
  if String.eqb seg "" then res
  else if String.eqb seg "." then res
  else if String.eqb seg ".." then
    match res with
    | last :: rest =>
        if String.eqb last ".." then
          (if allowAboveRoot then ".."%string :: res else res)
        else rest
    | [] => if allowAboveRoot then [".."%string] else []
    end
  else seg :: res.

(** [normalizeString(path, allowAboveRoot, "/")] on the segments of the
    path. *)
Definition normalizeString (segs : list string) (allowAboveRoot : bool)
    : list string :=
  rev (fold_left (normalize_step allowAboveRoot) segs []).

Definition isAbsolute (path : string) : bool := Js.startsWith path "/".

Definition endsWithSlash (path : string) : bool :=
  match rev (Js.split "/" path) with
  | last :: _ :: _ => String.eqb last ""
  | _ => false
  end.

(** [path.posix.normalize]. *)
Definition normalize (path : string) : string :=
  if String.eqb path "" then "."%string
  else
    let absolute := isAbsolute path in
    let trailingSeparator := endsWithSlash path in
    let res := Js.join "/" (normalizeString (Js.split "/" path) (negb absolute)) in
    if String.eqb res "" then
      (if absolute then "/" else if trailingSeparator then "./" else ".")%string
    else
      let res := (if trailingSeparator then res ++ "/" else res)%string in
      (if absolute then "/" ++ res else res)%string.

(** [path.posix.join(a, b)]. *)
Definition join (a b : string) : string :=
  if String.eqb a "" then
    (if String.eqb b "" then "."%string else normalize b)
  else if String.eqb b "" then normalize a
  else normalize (a ++ "/" ++ b)%string.

Fixpoint drop_empty (segs : list string) : list string :=
  match segs with
  | seg :: rest => if String.eqb seg "" then drop_empty rest else segs
  | [] => []
  end.

(** The segments of a path without the empty ones trailing slashes
    leave at the end. *)
Definition strip_trailing (segs : list string) : list string :=
  rev (drop_empty (rev segs)).

(** [path.posix.basename(path)]. *)
Definition basename (path : string) : string :=
  List.last (strip_trailing (Js.split "/" path)) ""%string.

(** [path.posix.dirname(path)]. *)
Definition dirname (path : string) : string :=
  match strip_trailing (Js.split "/" path) with
  | [] => if isAbsolute path then "/"%string else "."%string
  | [_] => if isAbsolute path then "/"%string else "."%string
  | segs =>
      let dir := Js.join "/" (removelast segs) in
      if String.eqb dir "" then "/"%string
      else if String.eqb dir "/" then "//"%string  (* hasRoot && end === 1 *)
      else dir
  end.

(** *** Paths as lists of directory names *)

(** A segment without separator is its own split. *)
Definition whole (seg : string) : Prop := Js.split "/" seg = [seg].

(** A segment [normalizeString] keeps as a directory name. *)
Definition proper (seg : string) : Prop :=
  String.eqb seg "" = false /\ String.eqb seg "." = false
  /\ String.eqb seg ".." = false.

Definition clean (segs : list string) : Prop :=
  Forall (fun seg => proper seg /\ whole seg) segs.

(** The text of an absolute path with the directory names [segs]. *)
Definition render (segs : list string) : string :=
  match segs with
  | [] => "/"%string
  | _ => ("/" ++ Js.join "/" segs)%string
  end.

(** The directory names left of an absolute path by [normalizeString],
    innermost first. *)
Definition names (d : string) : list string :=
  fold_left (normalize_step false) (Js.split "/" d) [].

(** [".."] repeated [S k] times, joined by ["/"]. *)
Definition ups (k : nat) : string := Js.join "/" (repeat ".."%string (S k)).

End NodePath.

(** ** helpers.ts *)

Module Helpers.

Import NodePath.

(** [normalizePath(input)], on the platform [p] that fixes [path.sep]. *)
Definition normalizePath (p : platform) (input : string) : string :=
  let unixPath := Js.join "/" (Js.split (sep p) input) in
  if negb (Js.startsWith unixPath "..") && negb (Js.startsWith unixPath "./")
  then ("./" ++ unixPath)%string
  else unixPath.

(** [findFileInDirectory(directory, filename)].  [readdir] is the
    file-access collaborator: [None] when [fs.readdir] throws, which the
    [catch] turns into [null]. *)
Definition findFileInDirectory (readdir : string -> option (list string))
    (directory filename : string) : option string :=
  match readdir directory with
  | Some filenames =>
      if existsb (fun name => String.eqb name filename) filenames
      then Some (join directory filename)
      else None
  | None => None
  end.

(** [traverseUpToFindFile(directory, filename)]: the [while] loop, one
    iteration per unit of fuel; [None] is fuel exhausted, [Some r] is the
    value returned.  The one-second pause of each iteration is not part of
    the model. *)
Fixpoint traverseUpToFindFile (fuel : nat) (readdir : string -> option (list string))
    (currentDirectory filename : string) : option (option string) :=
  match fuel with
  | O => None
  | S fuel' =>
      if Js.truthy currentDirectory then
        let filepath := findFileInDirectory readdir currentDirectory filename in
        if Js.truthy_opt filepath then Some filepath
        else
          let previousDirectory := currentDirectory in
          let currentDirectory := join currentDirectory ".." in
          if String.eqb previousDirectory currentDirectory
          then Some None (* We reached the root. *)
          else traverseUpToFindFile fuel' readdir currentDirectory filename
      else Some None
  end.

(** The directory reached from [directory] after [k] joins with [".."]. *)
Definition ancestor (k : nat) (directory : string) : string :=
  Nat.iter k (fun d => join d "..") directory.

(** The file [filename] is listed in [directory]. *)
Definition listed (readdir : string -> option (list string))
    (directory filename : string) : bool :=
  match readdir directory with
  | Some filenames => existsb (fun name => String.eqb name filename) filenames
  | None => false
  end.

(** [r] is what a search along the upward path of [directory] finds: the
    path of [filename] in the first directory that lists it, or [null]
    when no directory of the upward path lists it. *)
Definition first_hit (readdir : string -> option (list string))
    (directory filename : string) (r : option string) : Prop :=
  match r with
  | Some filepath =>
      exists k,
        listed readdir (ancestor k directory) filename = true
        /\ filepath = join (ancestor k directory) filename
        /\ forall j, j < k -> listed readdir (ancestor j directory) filename = false
  | None => forall k, listed readdir (ancestor k directory) filename = false
  end.

End Helpers.

(** ** Babel syntax trees ([@babel/types]) *)

Module Babel.

(** The node types the tasks inspect or build.  Scalar fields are carried
    by the tag; child nodes are listed in visiting order:
    - [CallExpression]: callee, then the arguments;
    - [MemberExpression]: object, property;
    - [AssignmentExpression]: left, right;
    - [ObjectProperty]: key, value;
    - [VariableDeclarator]: id, then init when there is one;
    - [FunctionDeclaration]: id, then parameters and body;
    - [JSXElement]: openingElement, closingElement (a [Null] node for a
      self-closing element), then the children;
    - [JSXOpeningElement]: name, then the attributes;
    - [JSXAttribute]: name, value;
    - every other node: its children in the order of its entry in the
      [VISITOR_KEYS] of [@babel/types] 7, the order in which the
      traversal visits them.
    For most nodes this is the order of the source text.  It is not for a
    do-while loop ([OtherType "DoWhileStatement"]), whose test is listed
    and visited before its body, nor for a class, whose body is listed
    and visited before its superclass.  The closing element of a JSX
    element is
    listed before the children of the element; it holds a name and nothing
    a visitor looks at. *)
Inductive ntype : Type :=
  | Program
  | ImportDeclaration (source : string)
  | ImportDefaultSpecifier (local : string)
  | ImportSpecifier (imported local : string)
  | ExportDefaultDeclaration
  | ExpressionStatement
  | VariableDeclaration
  | VariableDeclarator
  | FunctionDeclaration
  | ReturnStatement
  | Identifier (name : string)
  | StringLiteral (value : string)
  | ObjectExpression
  | ObjectProperty
  | ArrayExpression
  | CallExpression
  | MemberExpression
  | AssignmentExpression (operator : string)
  | JSXElement
  | JSXOpeningElement
  | JSXClosingElement
  | JSXIdentifier (name : string)
  | JSXAttribute
  | JSXExpressionContainer
  | Null
  | OtherType (type : string).

#[local] Unset Elimination Schemes.
Inductive node : Type :=
  | Node (type : ntype) (children : list node).
#[local] Set Elimination Schemes.

Definition type_of (n : node) : ntype := let 'Node ty _ := n in ty.
Definition children_of (n : node) : list node := let 'Node _ cs := n in cs.

Definition null : node := Node Null [].

(** The [i]-th child, [null] when the field is absent. *)
Definition child (i : nat) (n : node) : node := nth i (children_of n) null.

(** *** Builders ([t.identifier], [t.objectProperty], ...) *)

Definition identifier (name : string) : node := Node (Identifier name) [].
Definition stringLiteral (value : string) : node := Node (StringLiteral value) [].
Definition objectProperty (key value : node) : node := Node ObjectProperty [key; value].
Definition objectExpression (properties : list node) : node :=
  Node ObjectExpression properties.
Definition arrayExpression (elements : list node) : node :=
  Node ArrayExpression elements.
Definition jsxIdentifier (name : string) : node := Node (JSXIdentifier name) [].
Definition jsxExpressionContainer (expression : node) : node :=
  Node JSXExpressionContainer [expression].
Definition jsxAttribute (name value : node) : node := Node JSXAttribute [name; value].
Definition jsxOpeningElement (name : node) (attributes : list node) : node :=
  Node JSXOpeningElement (name :: attributes).
Definition jsxClosingElement (name : node) : node := Node JSXClosingElement [name].
Definition jsxElement (openingElement closingElement : node)
    (children : list node) : node :=
  Node JSXElement (openingElement :: closingElement :: children).

(** *** Type tests ([t.isIdentifier], ...) *)

Definition isProgram (n : node) : bool :=
  match type_of n with Program => true | _ => false end.
Definition isImportDeclaration (n : node) : bool :=
  match type_of n with ImportDeclaration _ => true | _ => false end.
Definition isExportDefaultDeclaration (n : node) : bool :=
  match type_of n with ExportDefaultDeclaration => true | _ => false end.
Definition isExpressionStatement (n : node) : bool :=
  match type_of n with ExpressionStatement => true | _ => false end.
Definition isVariableDeclaration (n : node) : bool :=
  match type_of n with VariableDeclaration => true | _ => false end.
Definition isVariableDeclarator (n : node) : bool :=
  match type_of n with VariableDeclarator => true | _ => false end.
Definition isReturnStatement (n : node) : bool :=
  match type_of n with ReturnStatement => true | _ => false end.
Definition isIdentifier (n : node) : bool :=
  match type_of n with Identifier _ => true | _ => false end.
Definition isObjectExpression (n : node) : bool :=
  match type_of n with ObjectExpression => true | _ => false end.
Definition isObjectProperty (n : node) : bool :=
  match type_of n with ObjectProperty => true | _ => false end.
Definition isArrayExpression (n : node) : bool :=
  match type_of n with ArrayExpression => true | _ => false end.
Definition isCallExpression (n : node) : bool :=
  match type_of n with CallExpression => true | _ => false end.
Definition isMemberExpression (n : node) : bool :=
  match type_of n with MemberExpression => true | _ => false end.
Definition isAssignmentExpression (n : node) : bool :=
  match type_of n with AssignmentExpression _ => true | _ => false end.
Definition isJSXElement (n : node) : bool :=
  match type_of n with JSXElement => true | _ => false end.
Definition isJSXIdentifier (n : node) : bool :=
  match type_of n with JSXIdentifier _ => true | _ => false end.

(** *** Field access *)

(** [n.name] of an [Identifier] or a [JSXIdentifier]. *)
Definition name_of (n : node) : string :=
  match type_of n with
  | Identifier name | JSXIdentifier name => name
  | _ => ""
  end.

(** [t.isIdentifier(n) && n.name === name]. *)
Definition isIdentifierNamed (name : string) (n : node) : bool :=
  isIdentifier n && String.eqb (name_of n) name.

Definition operator_of (n : node) : string :=
  match type_of n with AssignmentExpression op => op | _ => "" end.

Definition key_of : node -> node := child 0.          (* ObjectProperty *)
Definition value_of : node -> node := child 1.        (* ObjectProperty *)
Definition callee_of : node -> node := child 0.       (* CallExpression *)
Definition arguments_of (n : node) : list node := tl (children_of n).
Definition object_of : node -> node := child 0.       (* MemberExpression *)
Definition property_of : node -> node := child 1.     (* MemberExpression *)
Definition left_of : node -> node := child 0.         (* AssignmentExpression *)
Definition right_of : node -> node := child 1.        (* AssignmentExpression *)
Definition id_of : node -> node := child 0.           (* VariableDeclarator *)
Definition init_of : node -> node := child 1.         (* VariableDeclarator *)
Definition expression_of : node -> node := child 0.   (* ExpressionStatement *)
Definition declaration_of : node -> node := child 0.  (* ExportDefaultDeclaration *)
Definition openingElement_of : node -> node := child 0.   (* JSXElement *)
Definition closingElement_of : node -> node := child 1.   (* JSXElement *)
Definition jsxChildren_of (n : node) : list node := tl (tl (children_of n)).
Definition attributes_of (n : node) : list node := tl (children_of n).

(** [importDeclaration([specifier...], stringLiteral(source))]. *)
Definition importDeclaration (specifiers : list node) (source : node) : node :=
  Node (ImportDeclaration
          (match type_of source with StringLiteral v => v | _ => "" end))
       specifiers.
Definition importDefaultSpecifier (local : node) : node :=
  Node (ImportDefaultSpecifier (name_of local)) [].
Definition importSpecifier (local imported : node) : node :=
  Node (ImportSpecifier (name_of imported) (name_of local)) [].

(** [t.isImportDefaultSpecifier(sp) && sp.local.name === name]. *)
Definition isDefaultSpecifierNamed (name : string) (sp : node) : bool :=
  match type_of sp with
  | ImportDefaultSpecifier local => String.eqb local name
  | _ => false
  end.

(** [n.<list field>.push(x)] for a node whose children are that list
    (the properties of an object literal, the elements of an array
    literal). *)
Definition push (n x : node) : node :=
  let 'Node ty cs := n in Node ty (cs ++ [x]).

(** Assignment to the [i]-th child of a node. *)
Definition set_child (i : nat) (v n : node) : node :=
  let 'Node ty cs := n in Node ty (<[i:=v]> cs).

(** [array.find(pred)] followed by an in-place change of the element
    found: the first element satisfying [pred] is replaced by [f] of it;
    the other elements keep their place. *)
Fixpoint update_first {A} (pred : A -> bool) (f : A -> A) (l : list A) : list A :=
  match l with
  | [] => []
  | x :: r => if pred x then f x :: r else x :: update_first pred f r
  end.

(** *** Positions

    A position is the list of child indices that leads from the root to
    a node.  Visiting order is the order in which the depth-first
    traversal enters the nodes: a node comes before the nodes below it
    and before everything at or below the siblings listed after it. *)

Definition position : Type := list nat.

Fixpoint subtree (p : position) (n : node) : option node :=
  match p with
  | [] => Some n
  | i :: p' =>
      match children_of n !! i with
      | Some c => subtree p' c
      | None => None
      end
  end.

Fixpoint replace_at (p : position) (r n : node) : node :=
  match p with
  | [] => r
  | i :: p' => let 'Node ty cs := n in Node ty (alter (replace_at p' r) i cs)
  end.

(** [p] is [q] or comes before it in visiting order. *)
Fixpoint precedes (p q : position) : Prop :=
  match p, q with
  | [], _ => True
  | _ :: _, [] => False
  | i :: p', j :: q' => i < j \/ (i = j /\ precedes p' q')
  end.

(** [p] is [q] or lies above it. *)
Fixpoint above (p q : position) : Prop :=
  match p, q with
  | [], _ => True
  | _ :: _, [] => False
  | i :: p', j :: q' => i = j /\ above p' q'
  end.

(** *** The order of the source text

    [sourceIndex n i] is the place in the text of the [i]-th child of
    [n] among the children of [n]: the body of a do-while loop is written
    before its test, and the closing element of a JSX element after the
    children of the element.  Other nodes whose fields Babel visits out
    of the order of the text (a class with a superclass, a decorated
    member) have no tag of their own in this development; the order of
    the text is only asked for in trees without them. *)




(** *** Traversal ([traverse.default]) with a [JSXElement] visitor

    The traversal is depth first and enters a node before its children,
    which it visits in the order they are listed in.  A visitor sees the
    node and its parent as they are when the node is entered.  It either
    lets the traversal go on into the children ([Continue]), calls
    [path.skip()]
    ([Skip]), or calls [path.replaceWith(n)] followed by [path.skip()]
    ([ReplaceWith n]); in the last two cases nothing below the node is
    visited.  (Babel may enter a replacement once more.  The visitors of
    the tasks change nothing there: the tag of the replacement is the
    provider's, and where there is a flag it is up.) *)

Inductive action : Type :=
  | Continue
  | Skip
  | ReplaceWith (replacement : node).

Section Traverse.

Context {S : Type}.
Variable visitJSXElement : node -> node -> S -> action * S.

(** The children of a node of type [ty], each handed with the node as it
    is at that time to [enter]: [visited] are the children the traversal
    has been through, as it left them; [remaining] are still to visit. *)
Definition visitEach (enter : node -> node -> S -> node * S) (ty : ntype)
    : list node -> list node -> S -> list node * S :=
  fix visitChildren (visited remaining : list node) (s : S) :=
    match remaining with
    | [] => (visited, s)
    | c :: remaining' =>
        let '(c', s) := enter (Node ty (visited ++ remaining)) c s in
        visitChildren (visited ++ [c']) remaining' s
    end.

Fixpoint traverse (parent n : node) (s : S) {struct n} : node * S :=
  let '(a, s) :=
    if isJSXElement n then visitJSXElement parent n s else (Continue, s) in
  match a with
  | ReplaceWith replacement => (replacement, s)
  | Skip => (n, s)
  | Continue =>
      let 'Node ty cs := n in
      let '(cs', s) := visitEach traverse ty [] cs s in
      (Node ty cs', s)
  end.

Definition visitChildren : ntype -> list node -> list node -> S -> list node * S :=
  visitEach traverse.

End Traverse.

End Babel.

(** ** utils: import-ensure *)

Module Utils.

Import Babel.

(** Modelled from the spec: the scan of import-ensure, whose code is not
    among the sources.  The local name under which the declaration [s]
    imports [importName] from [packageName], if it does. *)
Definition importedAs (importName packageName : string) (s : node)
    : option string :=
  match type_of s with
  | ImportDeclaration source =>
      if String.eqb source packageName then
        match
          find (fun sp => match type_of sp with
                          | ImportSpecifier imported _ => String.eqb imported importName
                          | _ => false
                          end)
               (children_of s)
        with
        | Some (Node (ImportSpecifier _ local) _) => Some local
        | _ => None
        end
      else None
  | _ => None
  end.

(** Modelled from the spec: the scan goes through the import declarations
    in the order of the file, and the first that imports [importName]
    from [packageName] decides the local name. *)
Fixpoint getNamedImport (importName packageName : string) (body : list node)
    : option string :=
  match body with
  | [] => None
  | s :: rest =>
      match importedAs importName packageName s with
      | Some local => Some local
      | None => getNamedImport importName packageName rest
      end
  end.

(** Modelled from the spec: [insertNamedImport] is not among the sources.
    Import-ensure "scans existing import declarations for one already
    importing that binding from that module; if found, reuses the existing
    local name; otherwise inserts a new import declaration at the top of
    the file and returns the newly bound local name".  The result is the
    identifier to use and the module body after the call. *)
Definition insertNamedImport (body : list node)
    (importName packageName : string) : node * list node :=
  match getNamedImport importName packageName body with
  | Some local => (identifier local, body)
  | None =>
      let importIdentifier := identifier importName in
      (importIdentifier,
       importDeclaration [importSpecifier importIdentifier importIdentifier]
         (stringLiteral packageName)
       :: body)
  end.

(** The declaration [s] imports [importName] from [packageName] under
    the local name [local]. *)
Definition importsUnder (importName packageName local : string) (s : node)
    : Prop :=
  type_of s = ImportDeclaration packageName
  /\ exists cs, In (Node (ImportSpecifier importName local) cs) (children_of s).

End Utils.

(** ** Tasks, outcomes and the file-access collaborator *)

Module Task.

(** The errors the tasks throw, one constructor per message. *)
Inductive error : Type :=
  | FileNotFound (filename : string)      (* `${filename} not found` *)
  | IOError (path : string)               (* a failed read or copy *)
  | ParseError                            (* parseAst rejects the text *)
  | UnsupportedToolchain
  | ExpectedModuleExports                 (* "Expected to find a module.exports assignment ..." *)
  | InvalidObjectDefinition               (* "... references a variable, which is not a valid object definition." *)
  | NoCompilerProperty                    (* "Could not create or get a "compiler" property ..." *)
  | ExpectedDefineConfig                  (* "Expected a export default defineConfig({}) ..." *)
  | NoPluginsProperty                     (* "Could not create or get a "plugins" property ..." *)
  | CouldNotFindJsx                       (* "Could not find JSX in ..." *)
  | CouldNotFindJsxInRender.              (* "Could not find JSX being passed to ReactDOM.render in ..." *)

Inductive result (A : Type) : Type :=
  | Ok (a : A)
  | Throw (e : error).
Arguments Ok {A} a.
Arguments Throw {A} e.

Definition bind {A B} (r : result A) (k : A -> result B) : result B :=
  match r with
  | Ok a => k a
  | Throw e => Throw e
  end.

(** [mapM]: apply a step that may throw to each element, in order. *)
Fixpoint mapM {A B} (f : A -> result B) (l : list A) : result (list B) :=
  match l with
  | [] => Ok []
  | x :: r =>
      bind (f x) (fun y => bind (mapM f r) (fun ys => Ok (y :: ys)))
  end.

(** Calls that change the file system, in the order they were made. *)
Inductive call : Type :=
  | WriteFile (path text : string)
  | CreateDirectory (path : string)
  | CopyFile (source destination : string).

(** What a task can observe and change: the file-access collaborator and
    the task's own message and skip reason. *)
Record world : Type := World {
  readdir : string -> option (list string);
  files : gmap string string;
  directories : gset string;
  calls : list call;
  message : string;
  skipped : option string;
}.

Definition task (A : Type) : Type := world -> result A * world.

Definition ret {A} (a : A) : task A := fun w => (Ok a, w).
Definition throw {A} (e : error) : task A := fun w => (Throw e, w).
Definition seq {A B} (m : task A) (k : A -> task B) : task B :=
  fun w =>
    match m w with
    | (Ok a, w') => k a w'
    | (Throw e, w') => (Throw e, w')
    end.
Definition lift {A} (r : result A) : task A := fun w => (r, w).

Declare Scope task_scope.
Delimit Scope task_scope with task.
Notation "'let*' x := m 'in' k" := (seq m (fun x => k))
  (at level 10, x name, m at level 100, k at level 200) : task_scope.
Notation "'let*' '_' := m 'in' k" := (seq m (fun _ => k))
  (at level 10, m at level 100, k at level 200) : task_scope.

(** [fs.readFile(path, "utf-8")] / [readFromFile(path)]. *)
Definition readFile (path : string) : task string :=
  fun w =>
    match files w !! path with
    | Some text => (Ok text, w)
    | None => (Throw (IOError path), w)
    end.

(** [fs.writeFile(path, text, "utf-8")] / [writeToFile(path, text)]. *)
Definition writeFile (path text : string) : task unit :=
  fun w =>
    (Ok tt,
     {| readdir := readdir w;
        files := <[path:=text]> (files w);
        directories := directories w;
        calls := calls w ++ [WriteFile path text];
        message := message w;
        skipped := skipped w |}).

(** [path] names a directory of the world. *)
Definition isDirectory (w : world) (path : string) : bool :=
  bool_decide (path ∈ directories w).

(** [fs.copyFile(source, destination)]: it throws (ENOENT) when there
    is no file [source], and when the directory [destination] is to lie
    in does not exist. *)
Definition copyFile (source destination : string) : task unit :=
  fun w =>
    match files w !! source with
    | Some text =>
        if isDirectory w (NodePath.dirname destination) then
          (Ok tt,
           {| readdir := readdir w;
              files := <[destination:=text]> (files w);
              directories := directories w;
              calls := calls w ++ [CopyFile source destination];
              message := message w;
              skipped := skipped w |})
        else (Throw (IOError destination), w)
    | None => (Throw (IOError source), w)
    end.

(** [path] names a directory or a file of the world. *)
Definition present (w : world) (path : string) : bool :=
  bool_decide (path ∈ directories w) || bool_decide (is_Some (files w !! path)).

(** [context.fs.exists(path)]. *)
Definition exists_ (path : string) : task bool :=
  fun w => (Ok (present w path), w).

(** [context.fs.createDirectory(path)]. *)
Definition createDirectory (path : string) : task unit :=
  fun w =>
    (Ok tt,
     {| readdir := readdir w;
        files := files w;
        directories := {[path]} ∪ directories w;
        calls := calls w ++ [CreateDirectory path];
        message := message w;
        skipped := skipped w |}).

(** [findFileInDirectory] against the collaborator of the world. *)
Definition findFileInDirectory (directory filename : string)
    : task (option string) :=
  fun w => (Ok (Helpers.findFileInDirectory (readdir w) directory filename), w).

(** Modelled from the spec: [TaskBase] is not among the sources.  The
    spec's task outcome is one of Succeeded, Skipped(reason) and
    Failed(error); [updateMessage] amends the task's label and [skip]
    records the reason for which the task counts as skipped. *)
Definition updateMessage (m : string) : task unit :=
  fun w =>
    (Ok tt,
     {| readdir := readdir w;
        files := files w;
        directories := directories w;
        calls := calls w;
        message := m;
        skipped := skipped w |}).

Definition skip (reason : string) : task unit :=
  fun w =>
    (Ok tt,
     {| readdir := readdir w;
        files := files w;
        directories := directories w;
        calls := calls w;
        message := message w;
        skipped := Some reason |}).

Inductive outcome : Type :=
  | Succeeded
  | Skipped (reason : string)
  | Failed (e : error).

(** The outcome the runner records for a finished task. *)
Definition outcome_of {A} (r : result A * world) : outcome :=
  match r with
  | (Throw e, _) => Failed e
  | (Ok _, w) =>
      match skipped w with
      | Some reason => Skipped reason
      | None => Succeeded
      end
  end.

(** Modelled from the spec: [h] ([highlight]) only colours its argument on
    the terminal; the text is kept. *)
Definition h (text : string) : string := text.

End Task.

(** ** tasks/AddRelayPluginConfigurationTask.ts *)

Module AddRelayPluginConfigurationTask.

Import Babel Task.

Inductive Toolchain : Set := vite | next | cra.

Record ProjectSettings : Type := {
  toolchain : Toolchain;
  projectRootDirectory : string;
  useTypescript : bool;
  srcDirectoryPath : string;
  artifactDirectoryPath : option string;
}.

(** consts.ts, with the values helpers.ts spells out. *)
Definition NEXTJS_CONFIG_FILE : string := "next.config.js".
Definition VITE_CONFIG_FILE_NO_EXT : string := "vite.config".

(** helpers.ts: [getRelayCompilerLanguage]. *)
Definition getRelayCompilerLanguage (useTypescript : bool) : string :=
  if useTypescript then "typescript" else "javascript".

(** [t.isObjectProperty(p) && t.isIdentifier(p.key) && p.key.name === key]:
    the test both [find] calls of each visitor use. *)
Definition isPropertyNamed (key : string) (p : node) : bool :=
  isObjectProperty p && isIdentifier (key_of p)
  && String.eqb (name_of (key_of p)) key.

Section WithSettings.

Variable settings : ProjectSettings.

(** *** configureNext *)

(** The value of the [relay] property: [src], [language] and, when an
    artifact directory is configured, [artifactDirectory]. *)
Definition objProperties : list node :=
  [ objectProperty (identifier "src")
      (stringLiteral (srcDirectoryPath settings));
    objectProperty (identifier "language")
      (stringLiteral (getRelayCompilerLanguage (useTypescript settings))) ]
  ++ match artifactDirectoryPath settings with
     | Some dir =>
         if Js.truthy dir
         then [objectProperty (identifier "artifactDirectory") (stringLiteral dir)]
         else []
     | None => []
     end.

Definition relayProperty : node :=
  objectProperty (identifier "relay") (objectExpression objProperties).

(** Lines 89-152 of the visitor, on the properties of [objExp]: create or
    get [compiler], require its value to be an object literal, and add
    [relay] to it unless a [relay] property is there.  The result is the
    property list of [objExp] after the visitor's in-place changes. *)
Definition upsertRelay (properties : list node) : result (list node) :=
  let '(compilerProperty, properties) :=
    match find (isPropertyNamed "compiler") properties with
    | Some compilerProperty => (compilerProperty, properties)
    | None =>
        let compilerProperty :=
          objectProperty (identifier "compiler") (objectExpression []) in
        (compilerProperty, properties ++ [compilerProperty])
    end in
  if negb (isObjectExpression (value_of compilerProperty)) then
    Throw NoCompilerProperty
  else
    match find (isPropertyNamed "relay")
            (children_of (value_of compilerProperty)) with
    | Some _ =>
        (* A "relay" property already exists. *)
        Ok properties
    | None =>
        (* Add the "relay" property to the "compiler" property object. *)
        Ok (update_first (isPropertyNamed "compiler")
              (fun c => set_child 1 (push (value_of c) relayProperty) c)
              properties)
    end.

(** [left] is [module.exports]. *)
Definition isModuleExports (left : node) : bool :=
  isMemberExpression left
  && isIdentifier (object_of left)
  && isIdentifier (property_of left)
  && String.eqb (name_of (object_of left)) "module"
  && String.eqb (name_of (property_of left)) "exports".

(** The [AssignmentExpression] visitor, called on the assignment [node]
    found at position [pos] of the tree.  [scope pos name] stands for
    [path.scope.getBinding(name)]: the position of the node the binding
    points to ([binding.path.node]), [None] when the scope has no binding
    of [name]; a position that leads out of the tree names no declarator.
    [objExp] is either the right-hand side itself or the initialiser of
    the declarator the right-hand side is bound to; the tree returned has
    the change at the place the object lives at. *)
Definition visitAssignmentExpression
    (scope : position -> string -> option position) (pos : position)
    (node ast : node) : result Babel.node :=
  (* We are looking for module.exports = ???. *)
  if negb (String.eqb (operator_of node) "=")
     || negb (isModuleExports (left_of node))
  then Throw ExpectedModuleExports
  else if isIdentifier (right_of node) then
    (* The export is linked to a variable,
       so we need to resolve the variable declaration. *)
    match scope pos (name_of (right_of node)) with
    | Some bindingPath =>
        let binding := default null (subtree bindingPath ast) in
        if negb (isVariableDeclarator binding)
           || negb (isObjectExpression (init_of binding))
        then Throw InvalidObjectDefinition
        else
          bind (upsertRelay (children_of (init_of binding))) (fun properties =>
          Ok (replace_at bindingPath
                (set_child 1 (Node ObjectExpression properties) binding)
                ast))
    | None => Throw InvalidObjectDefinition
    end
  else if isObjectExpression (right_of node) then
    bind (upsertRelay (children_of (right_of node))) (fun properties =>
    Ok (replace_at pos (set_child 1 (Node ObjectExpression properties) node) ast))
  else Throw ExpectedModuleExports.

(** The positions [search] finds below the children [cs], the first of
    which has index [i]. *)
Definition positionsAmong (search : node -> list position)
    : nat -> list node -> list position :=
  fix among (i : nat) (cs : list node) :=
    match cs with
    | [] => []
    | c :: rest => map (cons i) (search c) ++ among (S i) rest
    end.

(** The positions of the assignment expressions of a tree, in visiting
    order. *)
Fixpoint assignmentPositions (n : node) : list position :=
  (if isAssignmentExpression n then [[]] else [])
  ++ let 'Node _ cs := n in positionsAmong assignmentPositions 0 cs.

(** Two trees with their assignment expressions at the same positions. *)
Definition keeps (n n' : node) : Prop :=
  assignmentPositions n = assignmentPositions n'.

Definition visitAt (scope : position -> string -> option position)
    (pos : position) (ast : node) : result node :=
  match subtree pos ast with
  | Some node => visitAssignmentExpression scope pos node ast
  | None => Ok ast
  end.

Fixpoint visitAll (scope : position -> string -> option position)
    (positions : list position) (ast : node) : result node :=
  match positions with
  | [] => Ok ast
  | pos :: rest => bind (visitAt scope pos ast) (visitAll scope rest)
  end.

(** [@babel/traverse] is not among the sources: the scopes it keeps are
    a parameter of the task.  [getBinding ast pos name] stands for
    [path.scope.getBinding(name)] at the path found at [pos] in the file
    [ast]: the position in the file of the node the binding of [name]
    points to, [None] when Babel has no binding of [name] there. *)
Variable getBinding : node -> position -> string -> option position.

(** [traverse.default(ast, { AssignmentExpression })], the change
    [configureNext] makes to the syntax tree.  The visitor only appends
    properties, built from identifiers and string literals, to object
    literals: the nodes of the tree keep their positions, no assignment
    expression and no declaration is added.  So the traversal calls the
    visitor at the assignment expressions of the tree as parsed, in
    visiting order, each time on the tree as the earlier calls left it,
    and names resolve as they do in the file as parsed. *)
Definition configureNextAst (ast : node) : result node :=
  visitAll (getBinding ast) (assignmentPositions ast) ast.

(** A statement that is an assignment expression. *)
Definition isAssignmentStatement (s : node) : bool :=
  isExpressionStatement s && isAssignmentExpression (expression_of s).

(** *** configureVite *)

Definition relayImportName : string := "relay".

(** The [Program] visitor. *)
Definition hasRelayImport (body : list node) : bool :=
  existsb
    (fun s =>
       isImportDeclaration s
       && existsb (isDefaultSpecifierNamed relayImportName) (children_of s))
    body.

Definition visitProgram (body : list node) : list node :=
  if hasRelayImport body then
    (* Import already exists. *)
    body
  else
    let importDeclaration :=
      importDeclaration
        [importDefaultSpecifier (identifier relayImportName)]
        (stringLiteral "vite-plugin-relay") in
    (* Insert import at start of file. *)
    importDeclaration :: body.

(** Lines 233-270 of the [ExportDefaultDeclaration] visitor, on the
    properties of the first argument of [defineConfig]. *)
Definition upsertRelayPlugin (properties : list node) : result (list node) :=
  let '(pluginsProperty, properties) :=
    match find (isPropertyNamed "plugins") properties with
    | Some pluginsProperty => (pluginsProperty, properties)
    | None =>
        let pluginsProperty :=
          objectProperty (identifier "plugins") (arrayExpression []) in
        (pluginsProperty, properties ++ [pluginsProperty])
    end in
  if negb (isArrayExpression (value_of pluginsProperty)) then
    Throw NoPluginsProperty
  else
    let vitePlugins := children_of (value_of pluginsProperty) in
    if existsb (isIdentifierNamed relayImportName) vitePlugins then
      (* A "relay" entry already exists. *)
      Ok properties
    else
      let relayPlugin := identifier relayImportName in
      (* Add the "relay" import to the "plugins". *)
      Ok (update_first (isPropertyNamed "plugins")
            (fun p => set_child 1 (push (value_of p) relayPlugin) p)
            properties).

(** The [plugins] property of an object literal is an array literal with
    an identifier element [relay]. *)
Definition hasRelayPlugin (properties : list node) : bool :=
  match find (isPropertyNamed "plugins") properties with
  | Some pluginsProperty =>
      isArrayExpression (value_of pluginsProperty)
      && existsb (isIdentifierNamed relayImportName)
           (children_of (value_of pluginsProperty))
  | None => false
  end.

(** The [ExportDefaultDeclaration] visitor. *)
Definition visitExportDefaultDeclaration (node : node) : result Babel.node :=
  let declaration := declaration_of node in
  (* Find export default defineConfig(???) *)
  if negb (isCallExpression declaration)
     || (length (arguments_of declaration) <? 1)
     || negb (isIdentifier (callee_of declaration))
     || negb (String.eqb (name_of (callee_of declaration)) "defineConfig")
  then Throw ExpectedDefineConfig
  else
    let arg := nth 0 (arguments_of declaration) null in
    if negb (isObjectExpression arg) then Throw ExpectedDefineConfig
    else
      bind (upsertRelayPlugin (children_of arg)) (fun properties =>
      Ok (set_child 0
            (set_child 1 (Node ObjectExpression properties) declaration)
            node)).

(** [traverse.default(ast, { Program, ExportDefaultDeclaration })]: the
    [Program] visitor runs on entering the root, then the statements of
    the module are visited in order.  An export declaration is a statement
    of the module, so the second visitor is called there. *)
Definition visitStatement (s : node) : result node :=
  if isExportDefaultDeclaration s then visitExportDefaultDeclaration s else Ok s.

Definition configureViteAst (ast : node) : result node :=
  let body := if isProgram ast then visitProgram (children_of ast)
              else children_of ast in
  bind (mapM visitStatement body) (fun body' => Ok (Node (type_of ast) body')).



(** *** The tasks on files *)

(** ast.ts is not among the sources: [parseAst] and [printAst] are
    parameters of the tasks.  [parseAst] returns [None] when it throws. *)
Variable parseAst : string -> option node.
Variable printAst : node -> string -> string.

Local Open Scope task_scope.

Definition configureNext : task unit :=
  let* configFilepath :=
    findFileInDirectory (projectRootDirectory settings) NEXTJS_CONFIG_FILE in
  match configFilepath with
  | None => throw (FileNotFound NEXTJS_CONFIG_FILE)
  | Some configFilepath =>
      if negb (Js.truthy configFilepath)
      then throw (FileNotFound NEXTJS_CONFIG_FILE)
      else
        let* configCode := readFile configFilepath in
        match parseAst configCode with
        | None => throw ParseError
        | Some ast =>
            let* ast := lift (configureNextAst ast) in
            let updatedConfigCode := printAst ast configCode in
            writeFile configFilepath updatedConfigCode
        end
  end.

Definition configFilename : string :=
  (VITE_CONFIG_FILE_NO_EXT
   ++ (if useTypescript settings then ".ts" else ".js"))%string.

Definition configureVite : task unit :=
  let* configFilepath :=
    findFileInDirectory (projectRootDirectory settings) configFilename in
  match configFilepath with
  | None => throw (FileNotFound configFilename)
  | Some configFilepath =>
      if negb (Js.truthy configFilepath)
      then throw (FileNotFound configFilename)
      else
        let* configCode := readFile configFilepath in
        match parseAst configCode with
        | None => throw ParseError
        | Some ast =>
            let* ast := lift (configureViteAst ast) in
            let updatedConfigCode := printAst ast configCode in
            writeFile configFilepath updatedConfigCode
        end
  end.

Definition run : task unit :=
  match toolchain settings with
  | vite => configureVite
  | next => configureNext
  | _ => throw UnsupportedToolchain
  end.

End WithSettings.

End AddRelayPluginConfigurationTask.

(** ** misc/ProjectContext.ts: the part the tasks read *)

Module ProjectContext.

Record RelativePath : Type := {
  abs : string;
  rel : string;
}.

Inductive Toolchain : Set := vite | cra | next.

Record ProjectContext : Type := {
  toolchain : Toolchain;
  mainFile : RelativePath;
  artifactPath : option RelativePath;
}.

End ProjectContext.

(** ** tasks/AddRelayEnvironmentProviderTask.ts *)

Module AddRelayEnvironmentProviderTask.

Import Babel Task Utils ProjectContext.

Definition RELAY_ENV_PROVIDER : string := "RelayEnvironmentProvider".
Definition RELAY_ENV : string := "RelayEnvironment".

(** consts.ts, with the value AddRelayEnvironmentTask.ts spells out. *)
Definition REACT_RELAY_PACKAGE : string := "react-relay".

Definition message : string := "Add RelayEnvironmentProvider".

(** What the visitors of this task read and write while the tree is
    traversed: the flag of the enclosing method, the body of the module as
    the import helper sees it, and the reason passed to [this.skip]. *)
Record state : Type := {
  providerWrapped : bool;
  program : list node;
  skipReason : option string;
}.

(** [jsxPath.node.openingElement.name]. *)
Definition tagName_of (jsx : node) : node := child 0 (openingElement_of jsx).

(** [wrapJsxInProvider(jsxPath)]: [Some n] when the element is replaced by
    [n], [None] when the method returns after [this.skip]. *)
Definition wrapJsxInProvider (jsxPath : node) (st : state)
    : option node * state :=
  (* todo: correctly export *)
  let relativeImportPath : string := "" in
  let '(envId, program) :=
    insertNamedImport (program st) RELAY_ENV relativeImportPath in
  let '(envProvider, program) :=
    insertNamedImport program RELAY_ENV_PROVIDER REACT_RELAY_PACKAGE in
  let envProviderId := jsxIdentifier (name_of envProvider) in
  if isJSXIdentifier (tagName_of jsxPath)
     && String.eqb (name_of (tagName_of jsxPath)) (name_of envProviderId)
  then
    (None,
     {| providerWrapped := providerWrapped st;
        program := program;
        skipReason :=
          Some ("JSX already wrapped with " ++ h RELAY_ENV_PROVIDER)%string |})
  else
    let test := jsxExpressionContainer envId in
    (* Wrap JSX into RelayEnvironmentProvider. *)
    (Some
       (jsxElement
          (jsxOpeningElement envProviderId
             [jsxAttribute (jsxIdentifier "environment") test])
          (jsxClosingElement envProviderId)
          [jsxPath]),
     {| providerWrapped := providerWrapped st;
        program := program;
        skipReason := skipReason st |}).

(** The tail both visitors share: wrap, raise the flag, skip the
    subtree. *)
Definition wrapAndSkip (jsxPath : node) (st : state) : action * state :=
  let '(replacement, st) := wrapJsxInProvider jsxPath st in
  (match replacement with
   | Some n => ReplaceWith n
   | None => Skip
   end,
   {| providerWrapped := true;
      program := program st;
      skipReason := skipReason st |}).

(** The parent test of [configureNext]. *)
Definition isReturned (parent : node) : bool := isReturnStatement parent.

(** The parent test of [configureViteOrCra]: [ReactDOM.render(...)]. *)
Definition isRenderCall (parent : node) : bool :=
  isCallExpression parent
  && isMemberExpression (callee_of parent)
  && isIdentifier (property_of (callee_of parent))
  && String.eqb (name_of (property_of (callee_of parent))) "render".

(** The [JSXElement] visitor of [configureNext] ([accepts := isReturned])
    and of [configureViteOrCra] ([accepts := isRenderCall]). *)
Definition visitJSXElement (accepts : node -> bool) (parent jsxPath : node)
    (st : state) : action * state :=
  if providerWrapped st || negb (accepts parent) then (Continue, st)
  else wrapAndSkip jsxPath st.

Definition initial (ast : node) : state :=
  {| providerWrapped := false;
     program := children_of ast;
     skipReason := None |}.

(** The tree after the traversal: the declarations the import helper put
    at the start of the module, then the statements as traversed. *)
Definition unshifted (ast : node) (st : state) : list node :=
  take (length (program st) - length (children_of ast)) (program st).

Definition transform (accepts : node -> bool) (ast : node) : node * state :=
  let '(ast', st) := traverse (visitJSXElement accepts) null ast (initial ast) in
  (Node (type_of ast') (unshifted ast st ++ children_of ast'), st).

(** *** Anchors

    The node at position [p] of [n] is an anchor of the matcher: a JSX
    element whose parent the mode accepts.  [parent] is the parent of [n]
    itself. *)
Fixpoint anchorAt (accepts : node -> bool) (parent n : node) (p : position)
    : bool :=
  match p with
  | [] => isJSXElement n && accepts parent
  | i :: p' =>
      match children_of n !! i with
      | Some c => anchorAt accepts n c p'
      | None => false
      end
  end.

(** The first position [search] finds among the children [cs], the first
    of which has index [i]. *)
Definition firstAmong (search : node -> option position)
    : nat -> list node -> option position :=
  fix among (i : nat) (cs : list node) :=
    match cs with
    | [] => None
    | c :: rest =>
        match search c with
        | Some p => Some (i :: p)
        | None => among (S i) rest
        end
    end.

(** The first anchor in visiting order, found by a search that enters a
    node before its children. *)
Fixpoint firstAnchor (accepts : node -> bool) (parent n : node)
    : option position :=
  if isJSXElement n && accepts parent then Some []
  else let 'Node _ cs := n in firstAmong (firstAnchor accepts n) 0 cs.

(** The visitor's tail applied to the node at position [p], and nothing
    else changed. *)
Definition wrapAt (p : position) (n : node) (st : state) : node * state :=
  match subtree p n with
  | Some jsx =>
      let '(a, st') := wrapAndSkip jsx st in
      (match a with
       | ReplaceWith replacement => replace_at p replacement n
       | _ => n
       end,
       st')
  | None => (n, st)
  end.

Section WithContext.

Variable context : ProjectContext.
Variable parseAst : string -> option node.
Variable printAst : node -> string -> string.

Local Open Scope task_scope.

Definition configure (accepts : node -> bool) (notFound : error) : task unit :=
  let* code := readFile (abs (mainFile context)) in
  match parseAst code with
  | None => throw ParseError
  | Some ast =>
      let '(ast', st) := transform accepts ast in
      let* _ := match skipReason st with
                | Some reason => skip reason
                | None => ret tt
                end in
      if negb (providerWrapped st) then throw notFound
      else
        let updatedCode := printAst ast' code in
        writeFile (abs (mainFile context)) updatedCode
  end.

Definition configureNext : task unit := configure isReturned CouldNotFindJsx.

Definition configureViteOrCra : task unit :=
  configure isRenderCall CouldNotFindJsxInRender.

Definition isEnabled : bool := true.

Definition run : task unit :=
  let* _ :=
    updateMessage (message ++ " to " ++ h (rel (mainFile context)))%string in
  match toolchain context with
  | vite | cra => configureViteOrCra
  | next => configureNext
  end.

End WithContext.

End AddRelayEnvironmentProviderTask.

(** ** tasks/AddRelayEnvironmentTask.ts *)

Module AddRelayEnvironmentTask.

Import Babel Task Utils.

Inductive ToolChain : Set := vite | cra | next.

Record ProjectSettings : Type := {
  toolChain : ToolChain;
  useTypescript : bool;
  projectRootDirectory : string;
  ownPackageDirectory : string;
}.

Definition RELAY_ENV_PROVIDER : string := "RelayEnvironmentProvider".

(** The [JSXElement] visitor of [configureVite]; the state is the body of
    the module as the import helper sees it. *)
Definition visitJSXElement (parent path : node) (program : list node)
    : action * list node :=
  (* Find ReactDOM.render(...) *)
  if negb (AddRelayEnvironmentProviderTask.isRenderCall parent)
  then (Continue, program)
  else
    let '(envId, program) :=
      insertNamedImport program "RelayEnvironment" "./RelayEnvironment" in
    let '(envProvider, program) :=
      insertNamedImport program RELAY_ENV_PROVIDER "react-relay" in
    let envProviderId := jsxIdentifier (name_of envProvider) in
    if isJSXIdentifier (AddRelayEnvironmentProviderTask.tagName_of path)
       && String.eqb (name_of (AddRelayEnvironmentProviderTask.tagName_of path))
                     (name_of envProviderId)
    then
      (* JSX has already been wrapped. *)
      (Continue, program)
    else
      let test := jsxExpressionContainer envId in
      (* Wrap JSX inside render() into RelayEnvironmentProvider. *)
      (ReplaceWith
         (jsxElement
            (jsxOpeningElement envProviderId
               [jsxAttribute (jsxIdentifier "environment") test])
            (jsxClosingElement envProviderId)
            [path]),
       program).

Definition transform (ast : node) : node :=
  let '(ast', program) := traverse visitJSXElement null ast (children_of ast) in
  Node (type_of ast')
       (take (length program - length (children_of ast)) program
        ++ children_of ast').

Section WithSettings.

Variable settings : ProjectSettings.

(** consts.ts is not among the sources: the two file names are
    parameters. *)
Variable VITE_MAIN_FILE_NO_EXT : string.
Variable VITE_RELAY_ENV_FILE_NO_EXT : string.

Variable parseAst : string -> option node.
Variable printAst : node -> string -> string.

Local Open Scope task_scope.

Definition addRelayEnvironmentFile (filepathNoExt : string) : task unit :=
  let relativeRelayEnvFilepath :=
    (filepathNoExt ++ (if useTypescript settings then ".ts" else ".js"))%string in
  let relayEnvFilepath :=
    NodePath.join (projectRootDirectory settings) relativeRelayEnvFilepath in
  let srcFile : string :=
    if useTypescript settings then "./assets/env_ts" else "./assets/env" in
  let srcFilepath := NodePath.join (ownPackageDirectory settings) srcFile in
  copyFile srcFilepath relayEnvFilepath.

Definition configureVite : task unit :=
  let* _ := addRelayEnvironmentFile VITE_RELAY_ENV_FILE_NO_EXT in
  let relativeMainFilepath :=
    (VITE_MAIN_FILE_NO_EXT
     ++ (if useTypescript settings then ".tsx" else ".jsx"))%string in
  let searchDirectory :=
    NodePath.dirname
      (NodePath.join (projectRootDirectory settings) relativeMainFilepath) in
  let mainFilename := NodePath.basename relativeMainFilepath in
  let* mainFilePath := findFileInDirectory searchDirectory mainFilename in
  match mainFilePath with
  | None => throw (FileNotFound relativeMainFilepath)
  | Some mainFilePath =>
      if negb (Js.truthy mainFilePath)
      then throw (FileNotFound relativeMainFilepath)
      else
        let* mainCode := readFile mainFilePath in
        match parseAst mainCode with
        | None => throw ParseError
        | Some ast =>
            let updatedCode := printAst (transform ast) mainCode in
            writeFile mainFilePath updatedCode
        end
  end.

Definition run : task unit :=
  match toolChain settings with
  | vite => configureVite
  | _ => throw UnsupportedToolchain
  end.

End WithSettings.

End AddRelayEnvironmentTask.

(** ** tasks/GenerateArtifactDirectoryTask.ts *)

Module GenerateArtifactDirectoryTask.

Import Task ProjectContext.

Definition message : string := "Generate artifact directory".

Section WithContext.

Variable context : ProjectContext.

Local Open Scope task_scope.

(** [!!this.context.artifactPath]: the path is an object or absent. *)
Definition isEnabled : bool :=
  match artifactPath context with
  | Some _ => true
  | None => false
  end.

Definition run : task unit :=
  match artifactPath context with
  | None => ret tt
  | Some artifactPath =>
      let* _ := updateMessage (message ++ " " ++ h (rel artifactPath))%string in
      let* directoryExists := exists_ (abs artifactPath) in
      if directoryExists then skip "Directory exists"
      else
        (* todo: handle error *)
        createDirectory (abs artifactPath)
  end.

End WithContext.

(** The [createDirectory] calls among the calls a task made. *)
Definition createdDirectories (cs : list call) : list string :=
  flat_map (fun c => match c with CreateDirectory p => [p] | _ => [] end) cs.

End GenerateArtifactDirectoryTask.

(** ** Sample inputs *)

Module Examples.

Import Babel Task.

Definition call (callee : node) (arguments : list node) : node :=
  Node CallExpression (callee :: arguments).

Definition member (object property : string) : node :=
  Node MemberExpression [identifier object; identifier property].

Definition element (tag : string) (children : list node) : node :=
  jsxElement (jsxOpeningElement (jsxIdentifier tag) [])
    (jsxClosingElement (jsxIdentifier tag)) children.


(** A file system with one project directory [/app]. *)
Definition world_with (filename text : string) : world :=
  {| readdir := fun d => if String.eqb d "/app" then Some [filename] else None;
     files := {[ ("/app/" ++ filename)%string := text ]};
     directories := {[ "/app"%string ]};
     calls := [];
     message := "";
     skipped := None |}.

(** [const nextConfig = { reactStrictMode: true };
     module.exports = nextConfig;] *)
Definition nextConfig : node :=
  Node Program
    [ Node VariableDeclaration
        [ Node VariableDeclarator
            [ identifier "nextConfig";
              objectExpression
                [objectProperty (identifier "reactStrictMode") (identifier "true")] ] ];
      Node ExpressionStatement
        [ Node (AssignmentExpression "=")
            [member "module" "exports"; identifier "nextConfig"] ] ].

Definition nextSettings : AddRelayPluginConfigurationTask.ProjectSettings :=
  {| AddRelayPluginConfigurationTask.toolchain := AddRelayPluginConfigurationTask.next;
     AddRelayPluginConfigurationTask.projectRootDirectory := "/app";
     AddRelayPluginConfigurationTask.useTypescript := true;
     AddRelayPluginConfigurationTask.srcDirectoryPath := "./src";
     AddRelayPluginConfigurationTask.artifactDirectoryPath := None |}.

(** [import { defineConfig } from "vite";
     export default defineConfig({ plugins: [react()] });] *)
Definition viteConfig : node :=
  Node Program
    [ Node (ImportDeclaration "vite")
        [Node (ImportSpecifier "defineConfig" "defineConfig") []];
      Node ExportDefaultDeclaration
        [ call (identifier "defineConfig")
            [ objectExpression
                [ objectProperty (identifier "plugins")
                    (arrayExpression [call (identifier "react") []]) ] ] ] ].


(** [import React from "react";
     import { graphql as gql } from "react-relay";] *)
Definition importsGql : list node :=
  [ Node (ImportDeclaration "react") [Node (ImportDefaultSpecifier "React") []];
    Node (ImportDeclaration "react-relay") [Node (ImportSpecifier "graphql" "gql") []] ].

(** [import relay from "vite-plugin-relay";] *)
Definition importsRelay : list node :=
  [ Node (ImportDeclaration "vite-plugin-relay")
      [Node (ImportDefaultSpecifier "relay") []] ].



(** [ReactDOM.hydrate(<App />, root);]: JSX, but no [return] and no call
    of [render]. *)
Definition hydrateMain : node :=
  Node Program
    [ Node ExpressionStatement
        [ call (member "ReactDOM" "hydrate") [element "App" []; identifier "root"] ] ].

(** A Vite project in [/app], the package of the tool in [/pkg]. *)
Definition viteProject : world :=
  {| readdir := fun d => if String.eqb d "/app/src" then Some ["main.jsx"%string]
                         else None;
     files := {[ "/app/src/main.jsx"%string := "main"%string;
                 "/pkg/assets/env"%string := "env"%string ]};
     directories := {[ "/app"%string; "/app/src"%string ]};
     calls := [];
     message := "";
     skipped := None |}.

Definition viteMainContext : ProjectContext.ProjectContext :=
  {| ProjectContext.toolchain := ProjectContext.vite;
     ProjectContext.mainFile :=
       {| ProjectContext.abs := "/app/src/main.jsx";
          ProjectContext.rel := "./src/main.jsx" |};
     ProjectContext.artifactPath := None |}.

Definition viteMainSettings : AddRelayEnvironmentTask.ProjectSettings :=
  {| AddRelayEnvironmentTask.toolChain := AddRelayEnvironmentTask.vite;
     AddRelayEnvironmentTask.useTypescript := false;
     AddRelayEnvironmentTask.projectRootDirectory := "/app";
     AddRelayEnvironmentTask.ownPackageDirectory := "/pkg" |}.

End Examples.

(** ** tasks/GenerateRelayEnvironmentTask.ts *)

Module GenerateRelayEnvironmentTask.

Import Task.

Definition HTTP_ENDPOINT : string := "HTTP_ENDPOINT".
Definition WEBSOCKET_ENDPOINT : string := "WEBSOCKET_ENDPOINT".

Definition message : string := "Generate Relay environment".

(** The double quote and the line feed, and a template literal given by
    its lines. *)
Definition q : string := String "034"%char EmptyString.
Definition nl : string := String "010"%char EmptyString.
Definition lines (l : list string) : string := String.concat nl l.

(** [os.EOL]. *)
Definition EOL (p : NodePath.platform) : string :=
  match p with
  | NodePath.posix => nl
  | NodePath.win32 => String "013"%char nl
  end.

(** [s.replace(pattern, replacement)] for a string pattern and a
    replacement without [$]: the first occurrence is replaced. *)
Fixpoint replace (pattern replacement s : string) : string :=
  if String.prefix pattern s
  then (replacement ++ String.substring (String.length pattern) (String.length s) s)%string
  else match s with
       | EmptyString => EmptyString
       | String a r => String a (replace pattern replacement r)
       end.

(** [haystack.includes(needle)]. *)
Fixpoint includes (needle haystack : string) : bool :=
  String.prefix needle haystack
  || match haystack with
     | EmptyString => false
     | String _ r => includes needle r
     end.

(** The template of [fetchFn], lines 80-95. *)
Definition fetchFnSource : string :=
  lines
    [ "const fetchFn: FetchFunction = async (request, variables) => {";
      "      const resp = await fetch(" ++ HTTP_ENDPOINT ++ ", {";
      "        method: " ++ q ++ "POST" ++ q ++ ",";
      "        headers: {";
      "          Accept: " ++ q ++ "application/json" ++ q ++ ",";
      "          " ++ q ++ "Content-Type" ++ q ++ ": " ++ q ++ "application/json" ++ q ++ ",";
      "          // <-- Additional headers like 'Authorization' would go here";
      "        },";
      "        body: JSON.stringify({";
      "          query: request.text, // <-- The GraphQL document composed by Relay";
      "          variables,";
      "        }),";
      "      });";
      "";
      "      return await resp.json();";
      "    };" ]%string.

(** Lines 108-110. *)
Definition subscriptionsClientSource : string :=
  lines
    [ "const subscriptionsClient = createClient({";
      "        url: " ++ WEBSOCKET_ENDPOINT ++ ",";
      "      });" ]%string.

(** The template of [subscribeFn] with types, lines 115-132. *)
Definition subscribeFnTypescript : string :=
  lines
    [ "const subscribeFn: SubscribeFunction = (request, variables) => {";
      "          // To understand why we return Observable<any>,";
      "          // please see: https://github.com/enisdenjo/graphql-ws/issues/316#issuecomment-1047605774";
      "          return Observable.create<any>((sink) => {";
      "            if (!request.text) {";
      "              return sink.error(new Error(" ++ q ++ "Operation text cannot be empty" ++ q ++ "));";
      "            }";
      "";
      "            return subscriptionsClient.subscribe(";
      "              {";
      "                operationName: request.name,";
      "                query: request.text,";
      "                variables,";
      "              },";
      "              sink";
      "            );";
      "          });";
      "        };" ]%string.

(** The template of [subscribeFn] without types, lines 134-149. *)
Definition subscribeFnJavascript : string :=
  lines
    [ "const subscribeFn = (request, variables) => {";
      "          return Observable.create((sink) => {";
      "            if (!request.text) {";
      "              return sink.error(new Error(" ++ q ++ "Operation text cannot be empty" ++ q ++ "));";
      "            }";
      "";
      "            return subscriptionsClient.subscribe(";
      "              {";
      "                operationName: request.name,";
      "                query: request.text,";
      "                variables,";
      "              },";
      "              sink";
      "            );";
      "          });";
      "        };" ]%string.

(** The template of [createEnv], lines 156-161. *)
Definition createEnvSource : string :=
  lines
    [ "function createRelayEnvironment() {";
      "      return new Environment({";
      "        network: Network.create(fetchFn),";
      "        store: new Store(new RecordSource()),";
      "      });";
      "    }" ]%string.

(** The template of [initEnv], lines 173-196. *)
Definition initEnvSource : string :=
  lines
    [ "let relayEnvironment: Environment | undefined;";
      "";
      "        export function initRelayEnvironment(initialRecords?: RecordMap) {";
      "          const environment = relayEnvironment ?? createRelayEnvironment();";
      "";
      "          // If your page has Next.js data fetching methods that use Relay,";
      "          // the initial records will get hydrated here.";
      "          if (initialRecords) {";
      "            environment.getStore().publish(new RecordSource(initialRecords));";
      "          }";
      "";
      "          // For SSG and SSR always create a new Relay environment.";
      "          if (typeof window === " ++ q ++ "undefined" ++ q ++ ") {";
      "            return environment;";
      "          }";
      "";
      "          // Create the Relay environment once in the client";
      "          // and then reuse it.";
      "          if (!relayEnvironment) {";
      "            relayEnvironment = environment;";
      "          }";
      "";
      "          return relayEnvironment;";
      "        }" ]%string.

(** The part of [ProjectContext] this task reads.  [parentDirectory] is
    a field of the path object. *)
Record RelativePath : Type := {
  abs : string;
  rel : string;
  parentDirectory : string;
}.

Record ProjectContext : Type := {
  toolchain : ProjectContext.Toolchain;
  typescript : bool;
  subscriptions : bool;
  relayEnvFile : RelativePath;
}.

(** [context.is(toolchain)]. *)
Definition is_ (context : ProjectContext) (t : ProjectContext.Toolchain) : bool :=
  match toolchain context, t with
  | ProjectContext.vite, ProjectContext.vite
  | ProjectContext.cra, ProjectContext.cra
  | ProjectContext.next, ProjectContext.next => true
  | _, _ => false
  end.

Section WithContext.

Variable context : ProjectContext.
Variable platform : NodePath.platform.

(** utils is not among the sources: [prettifyCode] is a parameter. *)
Variable prettifyCode : string -> string.

(** [CodeBuilder.addLine(line?)], on the code built so far. *)
Definition addLine (line : option string) (_code : string) : string :=
  (_code
   ++ (match line with
       | Some line => if Js.truthy line then line else ""
       | None => ""
       end)
   ++ EOL platform)%string.

(** The names imported from [relay-runtime]. *)
Definition relayRuntimeImports : list string :=
  let relayRuntimeImports := ["Environment"; "Network"; "RecordSource"; "Store"]%string in
  let relayRuntimeImports :=
    if subscriptions context then relayRuntimeImports ++ ["Observable"%string]
    else relayRuntimeImports in
  if typescript context then
    let relayRuntimeImports := relayRuntimeImports ++ ["FetchFunction"%string] in
    if subscriptions context then relayRuntimeImports ++ ["SubscribeFunction"%string]
    else relayRuntimeImports
  else relayRuntimeImports.

(** [b.code] after the calls of [addLine], lines 34-211. *)
Definition code : string :=
  let b := ""%string in
  (* Add imports *)
  let b :=
    if typescript context && is_ context ProjectContext.next
    then addLine
           (Some ("import type { RecordMap } from " ++ q
                  ++ "relay-runtime/lib/store/RelayStoreTypes" ++ q ++ ";")%string)
           b
    else b in
  let b :=
    addLine
      (Some ("import { " ++ Js.join ", " relayRuntimeImports ++ " } from " ++ q
             ++ "relay-runtime" ++ q ++ ";")%string)
      b in
  let b :=
    if subscriptions context
    then addLine
           (Some ("import { createClient } from " ++ q ++ "graphql-ws" ++ q ++ ";")%string)
           b
    else b in
  let b := addLine None b in
  (* Add configurations *)
  let b :=
    addLine
      (Some ("const " ++ HTTP_ENDPOINT ++ " = " ++ q
             ++ "http://localhost:5000/graphql" ++ q ++ ";")%string)
      b in
  let b :=
    if subscriptions context
    then addLine
           (Some ("const " ++ WEBSOCKET_ENDPOINT ++ " = " ++ q
                  ++ "ws://localhost:5000/graphql" ++ q ++ ";")%string)
           b
    else b in
  let b := addLine None b in
  (* Add fetchFn *)
  let fetchFn := fetchFnSource in
  let fetchFn :=
    if negb (typescript context)
    then (* Remove Typescript type *)
      replace "fetchFn: FetchFunction" "fetchFn" fetchFn
    else fetchFn in
  let b := addLine (Some fetchFn) b in
  let b := addLine None b in
  (* Add subscribeFn *)
  let b :=
    if subscriptions context then
      let b := addLine (Some subscriptionsClientSource) b in
      let b := addLine None b in
      if typescript context then addLine (Some subscribeFnTypescript) b
      else addLine (Some subscribeFnJavascript) b
    else b in
  let b := addLine None b in
  (* Create environment *)
  let createEnv := createEnvSource in
  let createEnv :=
    if subscriptions context
    then replace "fetchFn" "fetchFn, subscribeFn" createEnv
    else createEnv in
  let b := addLine (Some createEnv) b in
  let b := addLine None b in
  (* Export environment *)
  if is_ context ProjectContext.next then
    let initEnv := initEnvSource in
    let initEnv :=
      if negb (typescript context) then
        (* Remove Typescript type *)
        let initEnv := replace "initialRecords?: RecordMap" "initialRecords" initEnv in
        replace ": Environment | undefined" "" initEnv
      else initEnv in
    addLine (Some initEnv) b
  else
    addLine (Some "export const RelayEnvironment = createRelayEnvironment();"%string) b.

Local Open Scope task_scope.

(** [addRelayEnvironmentFile()]; the two [console.log] calls are not
    part of the model. *)
Definition addRelayEnvironmentFile : task unit :=
  let* _ :=
    updateMessage (message ++ " " ++ h (rel (relayEnvFile context)))%string in
  let* fileExists := exists_ (abs (relayEnvFile context)) in
  if fileExists then skip "File exists"
  else
    let prettifiedCode := prettifyCode code in
    (* todo: handle error *)
    let* _ := createDirectory (parentDirectory (relayEnvFile context)) in
    (* todo: handle error *)
    writeFile (abs (relayEnvFile context)) prettifiedCode.

Definition isEnabled : bool := true.

Definition run : task unit := addRelayEnvironmentFile.

End WithContext.

End GenerateRelayEnvironmentTask.

(** ** More of JavaScript's strings and of Node's [path] *)

Module JsString.

(** [s.lastIndexOf(c)] for a one-character search string: the index of
    the last occurrence, [-1] when there is none. *)
Fixpoint lastIndexOf (c : ascii) (s : string) : Z :=
  match s with
  | EmptyString => (-1)%Z
  | String a r =>
      let k := lastIndexOf c r in
      if (0 <=? k)%Z then (k + 1)%Z
      else if Ascii.eqb a c then 0%Z else (-1)%Z
  end.

(** [s.substring(indexStart, indexEnd)]: both indices are clamped to
    the string, and swapped when the first is the larger. *)
Definition substring (indexStart indexEnd : Z) (s : string) : string :=
  let len := Z.of_nat (String.length s) in
  let clamp := fun i => Z.max 0 (Z.min i len) in
  let first := Z.min (clamp indexStart) (clamp indexEnd) in
  let last := Z.max (clamp indexStart) (clamp indexEnd) in
  String.substring (Z.to_nat first) (Z.to_nat (last - first)) s.

(** The character [c] occurs in [s]. *)
Fixpoint occurs (c : ascii) (s : string) : bool :=
  match s with
  | EmptyString => false
  | String a r => Ascii.eqb a c || occurs c r
  end.

End JsString.

Module NodePathMore.

Import NodePath.

(** [path.posix.resolve(path)] in a process whose working directory is
    [cwd]: whether the result is absolute, and its directory names.
    Arguments are taken from the right, the working directory last,
    until the path is absolute; empty arguments are passed over. *)
Definition resolved (cwd path : string) : bool * list string :=
  let '(resolvedPath, resolvedAbsolute) :=
    if String.eqb path "" then (""%string, false)
    else ((path ++ "/")%string, isAbsolute path) in
  let '(resolvedPath, resolvedAbsolute) :=
    if resolvedAbsolute then (resolvedPath, resolvedAbsolute)
    else if String.eqb cwd "" then (resolvedPath, resolvedAbsolute)
    else ((cwd ++ "/" ++ resolvedPath)%string, isAbsolute cwd) in
  (resolvedAbsolute,
   normalizeString (Js.split "/" resolvedPath) (negb resolvedAbsolute)).

Definition resolve (cwd path : string) : string :=
  let '(resolvedAbsolute, segs) := resolved cwd path in
  let resolvedPath := Js.join "/" segs in
  if resolvedAbsolute then ("/" ++ resolvedPath)%string
  else if Js.truthy resolvedPath then resolvedPath else "."%string.

(** What is left of two paths after their common leading directory
    names. *)
Fixpoint drop_common (from to : list string) : list string * list string :=
  match from, to with
  | x :: from', y :: to' =>
      if String.eqb x y then drop_common from' to' else (from, to)
  | _, _ => (from, to)
  end.

(** [path.posix.relative(from, to)]: both paths are resolved; past their
    common directory names the result goes up once for each name left
    of [from] and then down the names left of [to]. *)
Definition relative (cwd from to : string) : string :=
  if String.eqb from to then ""%string
  else
    let from' := resolve cwd from in
    let to' := resolve cwd to in
    if String.eqb from' to' then ""%string
    else
      let '(up, down) :=
        drop_common (snd (resolved cwd from)) (snd (resolved cwd to)) in
      Js.join "/" (repeat ".."%string (length up) ++ down).

End NodePathMore.

(** ** helpers.ts, the later version *)

Module HelpersMore.

Import NodePath NodePathMore.

(** [removeExtension(filename)]. *)
Definition removeExtension (filename : string) : string :=
  let stem :=
    JsString.substring 0 (JsString.lastIndexOf "."%char filename) filename in
  if Js.truthy stem then stem else filename.

(** The values of an argument object: [null], [undefined], or a value
    that was given. *)
Inductive jsvalue : Type :=
  | VNull
  | VUndefined
  | VBool (b : bool)
  | VString (s : string).

(** [getSpecifiedProperties(obj)]: the loop over [Object.keys(obj)]. *)
Definition getSpecifiedProperties (obj : gmap string jsvalue)
    : gmap string jsvalue :=
  let keys := (map_to_list obj).*1 in
  fold_left
    (fun newObj key =>
       match obj !! key with
       | Some VNull => newObj
       | Some v => <[key := v]> newObj
       | None => <[key := VUndefined]> newObj
       end)
    keys ∅.

(** [isSubDirectory(parent, dir)] in a process whose working directory
    is [cwd]. *)
Definition isSubDirectory (cwd parent dir : string) : bool :=
  let relative := relative cwd parent dir in
  Js.truthy relative
  && negb (Js.startsWith relative "..")
  && negb (isAbsolute relative).

(** [getRelativePath(root, leave)] on a POSIX platform, in a process
    whose working directory is [cwd]. *)
Definition getRelativePath (cwd root leave : string) : string :=
  Helpers.normalizePath posix (relative cwd root leave).

Inductive Toolchain : Set := cra | vite | next.

Record EnvArguments : Type := {
  ownPackageDirectory : string;
  projectRootDirectory : string;
}.

Record CliArguments : Type := {
  toolchain : Toolchain;
  typescript : bool;
}.

(** [getRelayEnvFilepath(env, args)]. *)
Definition getRelayEnvFilepath (env : EnvArguments) (args : CliArguments)
    : string :=
  let filename :=
    ("RelayEnvironment" ++ (if typescript args then ".ts" else ".js"))%string in
  let directory := join (projectRootDirectory env) "src" in
  join directory filename.

(** The errors of [getToolchainSettings], one constructor per message. *)
Inductive settingsError : Type :=
  | NotFound (filename : string)              (* `${filename} not found` *)
  | Unsupported (toolchain : Toolchain).      (* `Unsupported toolchain: ${toolchain}` *)

Record ToolchainSettings : Type := {
  configFilepath : string;
  mainFilepath : string;
}.

(** [findFileInDirectory] followed by the [if (!filepath) throw]. *)
Definition findOrThrow (readdir : string -> option (list string))
    (directory filename : string) : settingsError + string :=
  let filepath := Helpers.findFileInDirectory readdir directory filename in
  match filepath with
  | Some filepath =>
      if negb (Js.truthy filepath) then inl (NotFound filename) else inr filepath
  | None => inl (NotFound filename)
  end.

(** [getToolchainSettings(env, args)]. *)
Definition getToolchainSettings (readdir : string -> option (list string))
    (env : EnvArguments) (args : CliArguments)
    : settingsError + ToolchainSettings :=
  match toolchain args with
  | vite =>
      let configFilename :=
        ("vite.config" ++ (if typescript args then ".ts" else ".js"))%string in
      match findOrThrow readdir (projectRootDirectory env) configFilename with
      | inl e => inl e
      | inr configFilepath =>
          let mainFilename :=
            ("main" ++ (if typescript args then ".tsx" else ".jsx"))%string in
          let searchDirectory := join (projectRootDirectory env) "src" in
          match findOrThrow readdir searchDirectory mainFilename with
          | inl e => inl e
          | inr mainFilepath =>
              inr {| configFilepath := configFilepath;
                     mainFilepath := mainFilepath |}
          end
      end
  | next =>
      let configFilename := "next.config.js"%string in
      match findOrThrow readdir (projectRootDirectory env) configFilename with
      | inl e => inl e
      | inr configFilepath =>
          let appFilename :=
            ("_app" ++ (if typescript args then ".tsx" else ".jsx"))%string in
          let searchDirectory := join (projectRootDirectory env) "pages" in
          match findOrThrow readdir searchDirectory appFilename with
          | inl e => inl e
          | inr appFilepath =>
              inr {| configFilepath := configFilepath;
                     mainFilepath := appFilepath |}
          end
      end
  | cra => inl (Unsupported (toolchain args))
  end.

End HelpersMore.

(** ** arguments/ArgumentHandler.ts *)

Module ArgumentHandler.

Import HelpersMore.

(** [Partial<CliArguments>]: a key that is absent reads as
    [undefined]. *)
Abbreviation arguments := (gmap string jsvalue).

Definition get (args : arguments) (key : string) : jsvalue :=
  default VUndefined (args !! key).

Definition isUndefined (v : jsvalue) : bool :=
  match v with VUndefined => true | _ => false end.

(** [!!v]. *)
Definition truthy (v : jsvalue) : bool :=
  match v with
  | VBool b => b
  | VString s => Js.truthy s
  | VNull | VUndefined => false
  end.

(** ArgumentBase.ts is not among the sources: what the handler calls of
    an argument definition.  [promptForValue] is the answer the user
    gives at the prompt; [isValid] returns [None] for [true] and the
    message otherwise.  [registerCliOption] and [submitWithValue] only
    drive the command-line parser and the terminal. *)
Record ArgumentBase : Type := {
  name : string;
  promptForValue : arguments -> jsvalue;
  getDefaultValue : arguments -> jsvalue;
  isValid : jsvalue -> arguments -> option string;
}.

(** [getInvalidArgError(value, undefined, valid)]. *)
Inductive InvalidArgError : Type :=
  | InvalidArg (name : string) (value : jsvalue) (validationMsg : string).

(** [validateArgs(args)]: [inr tt] when the loop ends, [inl e] when it
    throws. *)
Fixpoint validateArgs (argumentDefinitions : list ArgumentBase)
    (args : arguments) : InvalidArgError + unit :=
  match argumentDefinitions with
  | [] => inr tt
  | argumentDefinition :: rest =>
      let value := get args (name argumentDefinition) in
      if isUndefined value then validateArgs rest args
      else
        match isValid argumentDefinition value args with
        | None => validateArgs rest args
        | Some valid => inl (InvalidArg (name argumentDefinition) value valid)
        end
  end.

(** The loop of [promptForMissing] over the definitions still to go,
    on [allArgs] as filled so far. *)
Fixpoint fillMissing (parsedArgs : arguments)
    (argumentDefinitions : list ArgumentBase) (allArgs : arguments)
    : arguments :=
  match argumentDefinitions with
  | [] => allArgs
  | argumentDefinition :: rest =>
      let existingValue := get parsedArgs (name argumentDefinition) in
      if negb (isUndefined existingValue) then
        (* Value was supplied as CLI argument, we don't need to prompt for it. *)
        fillMissing parsedArgs rest allArgs
      else if negb (truthy (get parsedArgs "yes")) then
        let answer := promptForValue argumentDefinition allArgs in
        fillMissing parsedArgs rest
          (<[name argumentDefinition := answer]> allArgs)
      else
        (* The user does not want to be prompted, so we choose default values. *)
        let defaultValue := getDefaultValue argumentDefinition allArgs in
        fillMissing parsedArgs rest
          (<[name argumentDefinition := defaultValue]> allArgs)
  end.

(** [promptForMissing(parsedArgs)]. *)
Definition promptForMissing (argumentDefinitions : list ArgumentBase)
    (parsedArgs : arguments) : InvalidArgError + arguments :=
  let allArgs := fillMissing parsedArgs argumentDefinitions parsedArgs in
  match validateArgs argumentDefinitions allArgs with
  | inl e => inl e
  | inr _ => inr allArgs
  end.

End ArgumentHandler.

(** ** Shapes the visitors tell apart *)

Module Shapes.

Import Babel AddRelayPluginConfigurationTask.

(** The assignment [e] is one the visitor of [configureNext] goes on
    with: [module.exports = <name>] or [module.exports = { ... }]. *)
Definition handled (e : node) : bool :=
  String.eqb (operator_of e) "="
  && isModuleExports (left_of e)
  && (isIdentifier (right_of e) || isObjectExpression (right_of e)).

(** The name a property of an object literal is written under, as an
    identifier or as a string literal. *)
Definition keyName (p : node) : option string :=
  if isObjectProperty p then
    match type_of (key_of p) with
    | Identifier name => Some name
    | StringLiteral value => Some value
    | _ => None
    end
  else None.

(** The object literal with the properties [properties] has a property
    written under the name [key]. *)
Definition hasKey (key : string) (properties : list node) : bool :=
  existsb
    (fun p => match keyName p with
              | Some name => String.eqb name key
              | None => false
              end)
    properties.

(** The files [getToolchainSettings] looks for: the config file in the
    project root, and the main file in a directory of the project. *)
Definition configName (args : HelpersMore.CliArguments) : string :=
  match HelpersMore.toolchain args with
  | HelpersMore.vite =>
      ("vite.config" ++ (if HelpersMore.typescript args then ".ts" else ".js"))%string
  | _ => "next.config.js"%string
  end.

Definition mainDirectory (args : HelpersMore.CliArguments) : string :=
  match HelpersMore.toolchain args with
  | HelpersMore.vite => "src"%string
  | _ => "pages"%string
  end.

Definition mainName (args : HelpersMore.CliArguments) : string :=
  ((match HelpersMore.toolchain args with
    | HelpersMore.vite => "main"
    | _ => "_app"
    end)
   ++ (if HelpersMore.typescript args then ".tsx" else ".jsx"))%string.

(** A definition's value in [args] passes [validateArgs]: it is
    [undefined] or valid. *)
Definition accepted (args : ArgumentHandler.arguments)
    (d : ArgumentHandler.ArgumentBase) : Prop :=
  ArgumentHandler.isUndefined (ArgumentHandler.get args (ArgumentHandler.name d))
  = true
  \/ ArgumentHandler.isValid d
       (ArgumentHandler.get args (ArgumentHandler.name d)) args = None.

(** The definition [d] with the answer [answer] at its prompt. *)
Definition answering (answer : ArgumentHandler.arguments -> HelpersMore.jsvalue)
    (d : ArgumentHandler.ArgumentBase) : ArgumentHandler.ArgumentBase :=
  {| ArgumentHandler.name := ArgumentHandler.name d;
     ArgumentHandler.promptForValue := answer;
     ArgumentHandler.getDefaultValue := ArgumentHandler.getDefaultValue d;
     ArgumentHandler.isValid := ArgumentHandler.isValid d |}.

End Shapes.

(** ** More sample inputs *)

Module Scenarios.

Import Babel Task.

(** [ReactDOM.render(<App />, root);
     ReactDOM.render(<Other />, other);] *)
Definition twoRenders : node :=
  Node Program
    [ Node ExpressionStatement
        [ Examples.call (Examples.member "ReactDOM" "render")
            [Examples.element "App" []; identifier "root"] ];
      Node ExpressionStatement
        [ Examples.call (Examples.member "ReactDOM" "render")
            [Examples.element "Other" []; identifier "other"] ] ].

(** [{ reactStrictMode: true }] *)
Definition strictOnly : list node :=
  [objectProperty (identifier "reactStrictMode") (identifier "true")].

(** [strictOnly] with the [compiler] property [configureNext] adds. *)
Definition strictWithRelay : list node :=
  strictOnly
  ++ [ objectProperty (identifier "compiler")
         (objectExpression
            [AddRelayPluginConfigurationTask.relayProperty Examples.nextSettings]) ].

Definition exportsAssignment (right : node) : node :=
  Node ExpressionStatement
    [ Node (AssignmentExpression "=") [Examples.member "module" "exports"; right] ].

(** [Examples.nextConfig] after [configureNext]. *)
Definition nextConfigDone : node :=
  Node Program
    [ Node VariableDeclaration
        [ Node VariableDeclarator
            [identifier "nextConfig"; objectExpression strictWithRelay] ];
      exportsAssignment (identifier "nextConfig") ].

(** What Babel records for [Examples.nextConfig] and for
    [nextConfigDone]: one name is declared, [nextConfig], by the
    declarator at position [[0; 0]]. *)
Definition nextConfigScope (_ : node) (_ : position) (name : string)
    : option position :=
  if String.eqb name "nextConfig" then Some [0; 0] else None.






(** [{ compiler: { "relay": "custom" } }]: the key of the [relay]
    property is written as a string literal. *)
Definition quotedRelay : list node :=
  [ objectProperty (identifier "compiler")
      (objectExpression
         [objectProperty (stringLiteral "relay") (stringLiteral "custom")]) ].



(** The package of the tool in [/pkg], and a project [/app] without a
    [src] directory. *)
Definition withoutSrc : world :=
  {| readdir := fun d => if String.eqb d "/app" then Some [] else None;
     files := {[ "/pkg/assets/env"%string := "env"%string ]};
     directories := {[ "/app"%string ]};
     calls := [];
     message := "";
     skipped := None |}.

(** [module.exports = { reactStrictMode: true };] *)
Definition nextLiteral : node :=
  Node Program [exportsAssignment (objectExpression strictOnly)].

(** [module.exports = withPlugins({ reactStrictMode: true });] *)
Definition nextWrapped : node :=
  Node Program
    [ exportsAssignment
        (Examples.call (identifier "withPlugins") [objectExpression strictOnly]) ].


(** [Examples.viteConfig] after [configureVite]. *)
Definition viteConfigDone : node :=
  Node Program
    [ Node (ImportDeclaration "vite-plugin-relay")
        [Node (ImportDefaultSpecifier "relay") []];
      Node (ImportDeclaration "vite")
        [Node (ImportSpecifier "defineConfig" "defineConfig") []];
      Node ExportDefaultDeclaration
        [ Examples.call (identifier "defineConfig")
            [ objectExpression
                [ objectProperty (identifier "plugins")
                    (arrayExpression
                       [Examples.call (identifier "react") []; identifier "relay"]) ] ] ] ].

(** The package of the tool in [/pkg], and a project whose [src]
    directory is empty. *)
Definition assetOnly : world :=
  {| readdir := fun _ => Some [];
     files := {[ "/pkg/assets/env"%string := "env"%string ]};
     directories := {[ "/app"%string; "/app/src"%string ]};
     calls := [];
     message := "";
     skipped := None |}.

(** A Vite project with TypeScript in [/app]. *)
Definition viteListing (directory : string) : option (list string) :=
  if String.eqb directory "/app"
  then Some ["package.json"; "vite.config.ts"]%string
  else if String.eqb directory "/app/src" then Some ["main.tsx"%string]
  else None.

Definition appEnv : HelpersMore.EnvArguments :=
  {| HelpersMore.ownPackageDirectory := "/pkg";
     HelpersMore.projectRootDirectory := "/app" |}.

Definition viteTypescript : HelpersMore.CliArguments :=
  {| HelpersMore.toolchain := HelpersMore.vite;
     HelpersMore.typescript := true |}.

(** An argument definition for [toolchain]: the user answers [vite] at
    the prompt, the default is [cra]. *)
Definition toolchainArgument : ArgumentHandler.ArgumentBase :=
  {| ArgumentHandler.name := "toolchain";
     ArgumentHandler.promptForValue := fun _ => HelpersMore.VString "vite";
     ArgumentHandler.getDefaultValue := fun _ => HelpersMore.VString "cra";
     ArgumentHandler.isValid := fun value _ =>
       match value with
       | HelpersMore.VString s =>
           if String.eqb s "cra" || String.eqb s "vite" || String.eqb s "next"
           then None
           else Some "Expected one of cra, vite, next"%string
       | _ => Some "Required"%string
       end |}.

(** [--typescript] and [--typescript --yes]. *)
Definition typescriptOnly : ArgumentHandler.arguments :=
  {[ "typescript"%string := HelpersMore.VBool true ]}.

Definition typescriptYes : ArgumentHandler.arguments :=
  <[ "yes"%string := HelpersMore.VBool true ]> typescriptOnly.

End Scenarios.

(** * Properties *)

(** ** Strings *)

Module JsFacts.

Import Js.

Lemma split_not_nil (c : ascii) (s : string) : split c s <> [].
Proof.
  destruct s as [|a r]; simpl; [discriminate|].
  destruct (Ascii.eqb a c); [discriminate|].
  destruct (split c r); discriminate.
Qed.

Lemma join_cons (glue x : string) (l : list string) :
  l <> [] -> join glue (x :: l) = (x ++ glue ++ join glue l)%string.
Proof. destruct l; [congruence | reflexivity]. Qed.

(** Splitting at [c] and joining with [d] replaces each [c] by [d]. *)
Lemma join_split (c d : ascii) (s : string) :
  join (String d EmptyString) (split c s) = replace_char c d s.
Proof.
  induction s as [|a r IH]; simpl; [reflexivity|].
  destruct (Ascii.eqb a c).
  - rewrite join_cons by apply split_not_nil. simpl. now rewrite IH.
  - rewrite <- IH. pose proof (split_not_nil c r) as Hn.
    destruct (split c r) as [|h t]; [congruence|].
    destruct t; reflexivity.
Qed.

Lemma replace_char_idem (c d : ascii) (s : string) :
  replace_char c d (replace_char c d s) = replace_char c d s.
Proof.
  induction s as [|a r IH]; simpl; [reflexivity|].
  rewrite IH. f_equal.
  destruct (Ascii.eqb a c) eqn:E; [|now rewrite E].
  destruct (Ascii.eqb d c); reflexivity.
Qed.

Lemma prefix_nil (s : string) : String.prefix "" s = true.
Proof. destruct s; reflexivity. Qed.

End JsFacts.

(** ** helpers.ts: normalizePath *)

Module NormalizePathFacts.

Import Js NodePath Helpers JsFacts.

Lemma normalizePath_unfold (p : platform) (input : string) :
  normalizePath p input =
  let unixPath := replace_char (sep p) "/" input in
  if negb (startsWith unixPath "..") && negb (startsWith unixPath "./")
  then ("./" ++ unixPath)%string
  else unixPath.
Proof.
  unfold normalizePath.
  change "/"%string with (String "/"%char EmptyString).
  now rewrite join_split.
Qed.

Lemma replace_dot_slash (p : platform) (u : string) :
  replace_char (sep p) "/" ("./" ++ u) = ("./" ++ replace_char (sep p) "/" u)%string.
Proof. destruct p; reflexivity. Qed.

Lemma startsWith_dot_slash (u : string) : startsWith ("./" ++ u) "./" = true.
Proof. unfold startsWith; simpl. apply prefix_nil. Qed.

(** C10: [normalizePath] is idempotent, and each of its results starts
    with [".."] or with ["./"], on either platform. *)
Theorem normalizePath_idempotent (p : platform) (s : string) :
  normalizePath p (normalizePath p s) = normalizePath p s
  /\ (startsWith (normalizePath p s) ".." = true
      \/ startsWith (normalizePath p s) "./" = true).
Proof.
  rewrite (normalizePath_unfold p (normalizePath p s)).
  rewrite (normalizePath_unfold p s). cbv zeta.
  set (u := replace_char (sep p) "/" s).
  assert (Hu : replace_char (sep p) "/" u = u) by apply replace_char_idem.
  destruct (startsWith u "..") eqn:E1; cbn [negb andb].
  - rewrite Hu, E1. cbn [negb andb]. auto.
  - destruct (startsWith u "./") eqn:E2; cbn [negb andb].
    + rewrite Hu, E1, E2. cbn [negb andb]. auto.
    + rewrite replace_dot_slash, Hu.
      rewrite startsWith_dot_slash, andb_false_r. auto.
Qed.

End NormalizePathFacts.

(** ** Node's path module: joining with [".."] *)

Module PathFacts.

Import Js NodePath JsFacts.

Lemma split_app_sep (c : ascii) (a b : string) :
  Js.split c (a ++ String c b) = Js.split c a ++ Js.split c b.
Proof.
  induction a as [|x a IH]; simpl.
  - now rewrite Ascii.eqb_refl.
  - destruct (Ascii.eqb x c); rewrite IH; [reflexivity|].
    pose proof (split_not_nil c a) as Hn.
    destruct (Js.split c a); [congruence | reflexivity].
Qed.

Lemma split_whole (c : ascii) (s : string) :
  Forall (fun seg => Js.split c seg = [seg]) (Js.split c s).
Proof.
  induction s as [|a r IH]; simpl.
  - constructor; [reflexivity | constructor].
  - destruct (Ascii.eqb a c) eqn:E.
    + constructor; [reflexivity | exact IH].
    + destruct (Js.split c r) as [|h t]; [repeat constructor; simpl; now rewrite E|].
      inversion IH as [|? ? Hh Ht]; subst.
      constructor; [|exact Ht]. simpl. now rewrite E, Hh.
Qed.

Lemma split_join (segs : list string) :
  segs <> [] -> Forall whole segs -> Js.split "/" (Js.join "/" segs) = segs.
Proof.
  induction segs as [|x l IH]; [congruence|]. intros _ Hw.
  inversion Hw as [|? ? Hx Hl]; subst.
  destruct l as [|y l]; [exact Hx|].
  rewrite join_cons by discriminate.
  change ("/" ++ Js.join "/" (y :: l))%string with (String "/"%char (Js.join "/" (y :: l))).
  rewrite split_app_sep, Hx, IH; [reflexivity | discriminate | exact Hl].
Qed.

Lemma step_proper (allow : bool) (res : list string) (seg : string) :
  proper seg -> normalize_step allow res seg = seg :: res.
Proof.
  intros (H1 & H2 & H3). unfold normalize_step. now rewrite H1, H2, H3.
Qed.

Lemma fold_clean (allow : bool) (segs res : list string) :
  clean segs ->
  fold_left (normalize_step allow) segs res = rev segs ++ res.
Proof.
  revert res. induction segs as [|x l IH]; intros res Hc; [reflexivity|].
  inversion Hc as [|? ? [Hp _] Hl]; subst. simpl.
  rewrite step_proper by exact Hp. rewrite IH by exact Hl.
  now rewrite <- app_assoc.
Qed.

(** Below the root nothing but directory names is kept. *)
Lemma step_clean (res : list string) (seg : string) :
  whole seg -> clean res -> clean (normalize_step false res seg).
Proof.
  intros Hw Hc. unfold normalize_step.
  destruct (String.eqb seg "") eqn:E1; [exact Hc|].
  destruct (String.eqb seg ".") eqn:E2; [exact Hc|].
  destruct (String.eqb seg "..") eqn:E3.
  - destruct res as [|last rest]; [exact Hc|].
    inversion Hc; subst. destruct (String.eqb last ".."); assumption.
  - constructor; [|exact Hc]. repeat split; assumption.
Qed.

Lemma fold_step_clean (segs res : list string) :
  Forall whole segs -> clean res ->
  clean (fold_left (normalize_step false) segs res).
Proof.
  revert res. induction segs as [|x l IH]; intros res Hw Hc; [exact Hc|].
  inversion Hw; subst. simpl. apply IH; [assumption|].
  now apply step_clean.
Qed.

Lemma fold_step_length (allow : bool) (segs res : list string) :
  length (fold_left (normalize_step allow) segs res) <= length segs + length res.
Proof.
  revert res. induction segs as [|x l IH]; intros res; simpl; [lia|].
  etransitivity; [apply IH|].
  assert (length (normalize_step allow res x) <= S (length res)); [|lia].
  unfold normalize_step.
  repeat match goal with
         | |- context [if ?b then _ else _] => destruct b
         | |- context [match ?r with [] => _ | _ :: _ => _ end] => destruct r
         end; simpl; lia.
Qed.

Lemma step_up_clean (res : list string) :
  clean res -> normalize_step false res ".." = tl res.
Proof.
  intros Hc. unfold normalize_step; simpl.
  destruct res as [|last rest]; [reflexivity|].
  inversion Hc as [|? ? [(_ & _ & H3) _] _]; subst. now rewrite H3.
Qed.

Lemma join_clean_empty (segs : list string) :
  clean segs -> String.eqb (Js.join "/" segs) "" = (match segs with [] => true | _ => false end).
Proof.
  intros Hc. destruct segs as [|x l]; [reflexivity|].
  inversion Hc as [|? ? [(H1 & _) _] _]; subst.
  destruct x as [|a x]; [discriminate|].
  destruct l; reflexivity.
Qed.

Lemma append_empty (a b : string) :
  String.eqb a "" = false -> String.eqb (a ++ b) "" = false.
Proof. destruct a; [discriminate | reflexivity]. Qed.

Lemma normalize_nonempty (path : string) : String.eqb (normalize path) "" = false.
Proof.
  unfold normalize.
  destruct (String.eqb path ""); [reflexivity|]. cbv zeta.
  destruct (String.eqb (Js.join "/" _) "") eqn:E.
  - destruct (isAbsolute path); [reflexivity|].
    destruct (endsWithSlash path); reflexivity.
  - destruct (isAbsolute path); [reflexivity|].
    destruct (endsWithSlash path); [|exact E]. now apply append_empty.
Qed.

Lemma join_truthy (a b : string) : truthy (NodePath.join a b) = true.
Proof.
  unfold truthy, NodePath.join.
  destruct (String.eqb a ""), (String.eqb b "");
    rewrite ?normalize_nonempty; reflexivity.
Qed.

Lemma absolute_inv (d : string) :
  isAbsolute d = true -> exists d', d = String "/"%char d'.
Proof.
  unfold isAbsolute, startsWith. destruct d as [|a d']; [discriminate|].
  change (String.prefix "/" (String a d'))
    with (if Ascii.ascii_dec "/" a then String.prefix "" d' else false).
  destruct (Ascii.ascii_dec "/" a) as [<-|]; [eauto | discriminate].
Qed.

Lemma isAbsolute_slash (d : string) : isAbsolute (String "/"%char d) = true.
Proof.
  unfold isAbsolute, startsWith.
  change (String.prefix "/" (String "/" d))
    with (if Ascii.ascii_dec "/" "/" then String.prefix "" d else false).
  destruct (Ascii.ascii_dec "/" "/"); [apply prefix_nil | congruence].
Qed.

Lemma rev_tl_rev {A} (l : list A) : rev (tl (rev l)) = removelast l.
Proof.
  induction l as [|x l _] using rev_ind; [reflexivity|].
  rewrite rev_app_distr; simpl. now rewrite rev_involutive, removelast_last.
Qed.

Lemma clean_tl (l : list string) : clean l -> clean (tl l).
Proof. destruct l; [trivial|]. now inversion 1. Qed.

Lemma clean_rev (l : list string) : clean l -> clean (rev l).
Proof. apply Forall_rev. Qed.

Lemma clean_removelast (l : list string) : clean l -> clean (removelast l).
Proof.
  intros Hc. rewrite <- rev_tl_rev. now apply clean_rev, clean_tl, clean_rev.
Qed.

Lemma names_clean (d : string) : clean (names d).
Proof. apply fold_step_clean; [apply split_whole | constructor]. Qed.

Lemma names_length (d : string) : length (names d) <= length (Js.split "/" d).
Proof. unfold names. pose proof (fold_step_length false (Js.split "/" d) []). simpl in *. lia. Qed.

Lemma endsWithSlash_up (d : string) : endsWithSlash (d ++ "/..") = false.
Proof.
  unfold endsWithSlash.
  change (d ++ "/..")%string with (d ++ String "/"%char "..")%string.
  rewrite split_app_sep. simpl (Js.split "/" "..").
  rewrite rev_app_distr. simpl.
  destruct (rev (Js.split "/" d)); reflexivity.
Qed.

(** Joining an absolute path with [".."] drops its innermost directory
    name. *)
Lemma join_up_absolute (d : string) :
  isAbsolute d = true ->
  NodePath.join d ".." = render (rev (tl (names d))).
Proof.
  intros Ha.
  assert (Hne : String.eqb d "" = false).
  { destruct (absolute_inv d Ha) as [d' ->]. reflexivity. }
  assert (Hup : isAbsolute (d ++ "/..") = true).
  { destruct (absolute_inv d Ha) as [d' ->]. apply isAbsolute_slash. }
  unfold NodePath.join. rewrite Hne.
  change (String.eqb ".." "") with false. cbv iota.
  change (d ++ "/" ++ "..")%string with (d ++ "/..")%string.
  unfold normalize.
  rewrite (append_empty d "/.." Hne), Hup, endsWithSlash_up.
  cbv zeta iota. simpl negb. unfold normalizeString.
  change (d ++ "/..")%string with (d ++ String "/"%char "..")%string.
  rewrite split_app_sep.
  change (Js.split "/" "..") with [".."%string].
  rewrite fold_left_app. fold (names d).
  change (fold_left (normalize_step false) [".."%string] (names d))
    with (normalize_step false (names d) "..").
  rewrite step_up_clean by apply names_clean.
  assert (Hc : clean (rev (tl (names d)))).
  { apply clean_rev, clean_tl, names_clean. }
  rewrite (join_clean_empty _ Hc).
  destruct (rev (tl (names d))); reflexivity.
Qed.

Lemma render_absolute (segs : list string) : isAbsolute (render segs) = true.
Proof. destruct segs; apply isAbsolute_slash. Qed.

Lemma split_slash (x : string) :
  Js.split "/" (String "/"%char x) = ""%string :: Js.split "/" x.
Proof. reflexivity. Qed.

Lemma names_render (segs : list string) :
  clean segs -> names (render segs) = rev segs.
Proof.
  intros Hc. unfold names. destruct segs as [|x l]; [reflexivity|].
  unfold render.
  change ("/" ++ Js.join "/" (x :: l))%string
    with (String "/"%char (Js.join "/" (x :: l))).
  rewrite split_slash, split_join; [|discriminate|].
  - change (fold_left (normalize_step false) (""%string :: x :: l) [])
      with (fold_left (normalize_step false) (x :: l) []).
    rewrite fold_clean by exact Hc. now rewrite app_nil_r.
  - eapply Forall_impl; [exact Hc|]. now intros ? [_ ?].
Qed.

Lemma join_up_render (segs : list string) :
  clean segs -> NodePath.join (render segs) ".." = render (removelast segs).
Proof.
  intros Hc. rewrite join_up_absolute by apply render_absolute.
  now rewrite names_render, rev_tl_rev.
Qed.

End PathFacts.

(** ** helpers.ts: traverseUpToFindFile *)

Module TraverseUpFacts.

Import Js NodePath Helpers JsFacts PathFacts.

Section Search.

Variable readdir : string -> option (list string).
Variable filename : string.

Lemma findFile_truthy (d : string) :
  truthy_opt (findFileInDirectory readdir d filename) = listed readdir d filename.
Proof.
  unfold findFileInDirectory, listed.
  destruct (readdir d) as [names|]; [|reflexivity].
  destruct (existsb _ names); [|reflexivity].
  apply join_truthy.
Qed.

Lemma findFile_listed (d : string) :
  listed readdir d filename = true ->
  findFileInDirectory readdir d filename = Some (NodePath.join d filename).
Proof.
  unfold findFileInDirectory, listed.
  destruct (readdir d) as [names|]; [|discriminate].
  now intros ->.
Qed.

Lemma ancestor_S (k : nat) (d : string) :
  ancestor (S k) d = ancestor k (NodePath.join d "..").
Proof.
  induction k as [|k IH]; [reflexivity|].
  change (ancestor (S (S k)) d) with (NodePath.join (ancestor (S k) d) "..").
  now rewrite IH.
Qed.

Lemma ancestor_fixed (k : nat) (d : string) :
  NodePath.join d ".." = d -> ancestor k d = d.
Proof.
  intros Hd. induction k as [|k IH]; [reflexivity|].
  rewrite ancestor_S, Hd. exact IH.
Qed.

(** Whatever the loop returns is the first hit on the upward path. *)
Lemma loop_sound (fuel : nat) (d : string) (r : option string) :
  truthy d = true ->
  traverseUpToFindFile fuel readdir d filename = Some r ->
  first_hit readdir d filename r.
Proof.
  revert d. induction fuel as [|fuel IH]; intros d Hd; [discriminate|].
  simpl. rewrite Hd, findFile_truthy.
  destruct (listed readdir d filename) eqn:Hl.
  - intros [= <-]. rewrite findFile_listed by exact Hl.
    exists 0. repeat split; [exact Hl|]. intros j Hj. lia.
  - destruct (String.eqb d (NodePath.join d "..")) eqn:E.
    + intros [= <-]. apply String.eqb_eq in E. intros k.
      rewrite ancestor_fixed by congruence. exact Hl.
    + intros Hr. apply IH in Hr; [|apply join_truthy].
      destruct r as [filepath|].
      * destruct Hr as (k & Hk & -> & Hj). exists (S k).
        rewrite ancestor_S. repeat split; [exact Hk|].
        intros [|j] Hlt; [exact Hl|]. rewrite ancestor_S. apply Hj. lia.
      * intros [|k]; [exact Hl|]. rewrite ancestor_S. apply Hr.
Qed.

Lemma render_truthy (segs : list string) : truthy (render segs) = true.
Proof. destruct segs; reflexivity. Qed.

Lemma removelast_length {A} (l : list A) :
  l <> [] -> length (removelast l) < length l.
Proof.
  induction l as [|x l _] using rev_ind; [congruence|]. intros _.
  rewrite removelast_last, length_app. simpl. lia.
Qed.

(** From a normalised absolute path the loop ends within one iteration
    per directory name, and one more at the root. *)
Lemma loop_terminates_render (fuel : nat) (segs : list string) :
  clean segs -> length segs < fuel ->
  exists r, traverseUpToFindFile fuel readdir (render segs) filename = Some r.
Proof.
  revert segs. induction fuel as [|fuel IH]; intros segs Hc Hn; [lia|].
  simpl. rewrite render_truthy, findFile_truthy.
  destruct (listed readdir (render segs) filename); [eauto|].
  rewrite join_up_render by exact Hc.
  destruct (String.eqb (render segs) (render (removelast segs))) eqn:E; [eauto|].
  apply IH; [now apply clean_removelast|].
  destruct segs as [|x l]; [discriminate|].
  pose proof (removelast_length (x :: l)) as Hlt.
  assert (length (removelast (x :: l)) < length (x :: l)) by (apply Hlt; discriminate).
  lia.
Qed.

Lemma absolute_truthy (d : string) : isAbsolute d = true -> truthy d = true.
Proof. intros Ha. destruct (absolute_inv d Ha) as [d' ->]. reflexivity. Qed.

Lemma loop_terminates_absolute (fuel : nat) (d : string) :
  isAbsolute d = true -> 2 + length (split "/" d) <= fuel ->
  exists r, traverseUpToFindFile fuel readdir d filename = Some r.
Proof.
  intros Ha Hn. destruct fuel as [|fuel]; [lia|].
  simpl. rewrite (absolute_truthy d Ha), findFile_truthy.
  destruct (listed readdir d filename); [eauto|].
  rewrite join_up_absolute by exact Ha.
  destruct (String.eqb d _); [eauto|].
  apply loop_terminates_render.
  - apply clean_rev, clean_tl, names_clean.
  - rewrite length_rev. pose proof (names_length d).
    destruct (names d); simpl in *; lia.
Qed.

Lemma ancestor_absolute (k : nat) (d : string) :
  isAbsolute d = true -> isAbsolute (ancestor k d) = true.
Proof.
  intros Ha. induction k as [|k IH]; [exact Ha|].
  change (ancestor (S k) d) with (NodePath.join (ancestor k d) "..").
  rewrite join_up_absolute by exact IH. apply render_absolute.
Qed.

Lemma ancestor_names (k : nat) (d : string) :
  isAbsolute d = true ->
  names (ancestor (S k) d) = tl (names (ancestor k d)).
Proof.
  intros Ha.
  change (ancestor (S k) d) with (NodePath.join (ancestor k d) "..").
  rewrite join_up_absolute by now apply ancestor_absolute.
  rewrite names_render by apply clean_rev, clean_tl, names_clean.
  apply rev_involutive.
Qed.

(** C9, as amended: from an absolute starting directory the loop returns
    within one iteration per segment of the path and two more; each join
    with [".."] drops the innermost directory name; the value returned is
    the path of the file in the first directory of the upward path that
    lists it, or [null] when none does. *)
Theorem traverseUpToFindFile_absolute (directory : string) (fuel : nat) :
  isAbsolute directory = true ->
  2 + length (split "/" directory) <= fuel ->
  (exists r,
     traverseUpToFindFile fuel readdir directory filename = Some r
     /\ first_hit readdir directory filename r)
  /\ (forall k, names (ancestor (S k) directory) = tl (names (ancestor k directory))).
Proof.
  intros Ha Hn. split; [|intros k; now apply ancestor_names].
  destruct (loop_terminates_absolute fuel directory Ha Hn) as [r Hr].
  exists r. split; [exact Hr|].
  eapply loop_sound; [now apply absolute_truthy | exact Hr].
Qed.

End Search.

(** *** A relative starting directory *)

Lemma fold_ups (n m : nat) :
  fold_left (normalize_step true) (repeat ".."%string n) (repeat ".."%string m)
  = repeat ".."%string (n + m).
Proof.
  revert m. induction n as [|n IH]; intros m; [reflexivity|].
  change (fold_left (normalize_step true) (repeat ".."%string (S n)) (repeat ".."%string m))
    with (fold_left (normalize_step true) (repeat ".."%string n)
            (normalize_step true (repeat ".."%string m) "..")).
  replace (normalize_step true (repeat ".."%string m) "..")
    with (repeat ".."%string (S m)) by (destruct m; reflexivity).
  rewrite IH. f_equal. lia.
Qed.

Lemma fold_ups_nil (n : nat) :
  fold_left (normalize_step true) (repeat ".."%string n) [] = repeat ".."%string n.
Proof.
  change (@nil string) with (repeat ".."%string 0).
  rewrite fold_ups. f_equal. lia.
Qed.

Lemma rev_repeat {A} (x : A) (n : nat) : rev (repeat x n) = repeat x n.
Proof.
  induction n as [|n IH]; [reflexivity|]. simpl. rewrite IH.
  clear IH. induction n as [|n IH]; [reflexivity|]. simpl. now rewrite IH.
Qed.

Lemma ups_dot (k : nat) : exists rest, ups k = String "."%char rest.
Proof. destruct k; [now exists "."%string|]. unfold ups. simpl. eauto. Qed.

Lemma ups_relative (k : nat) (x : string) : isAbsolute (ups k ++ x) = false.
Proof.
  destruct (ups_dot k) as [rest ->]. unfold isAbsolute, startsWith.
  change (String.prefix "/" (String "." rest ++ x))
    with (if Ascii.ascii_dec "/" "." then String.prefix "" (rest ++ x) else false).
  destruct (Ascii.ascii_dec "/" "."); [discriminate | reflexivity].
Qed.

Lemma ups_nonempty (k : nat) : String.eqb (ups k) "" = false.
Proof. destruct (ups_dot k) as [rest ->]. reflexivity. Qed.

Lemma split_ups (k : nat) : split "/" (ups k) = repeat ".."%string (S k).
Proof.
  unfold ups. apply split_join; [discriminate|].
  apply List.Forall_forall. intros x Hx. apply repeat_spec in Hx. now subst.
Qed.

Lemma join_up_ups (k : nat) : NodePath.join (ups k) ".." = ups (S k).
Proof.
  unfold NodePath.join. rewrite ups_nonempty.
  change (String.eqb ".." "") with false. cbv iota.
  change (ups k ++ "/" ++ "..")%string with (ups k ++ "/..")%string.
  unfold normalize.
  rewrite (append_empty _ "/.." (ups_nonempty k)), ups_relative, endsWithSlash_up.
  cbv zeta iota. simpl negb. unfold normalizeString.
  change (ups k ++ "/..")%string with (ups k ++ String "/"%char "..")%string.
  rewrite split_app_sep, split_ups.
  change (split "/" "..") with (repeat ".."%string 1).
  rewrite <- repeat_app.
  rewrite fold_ups_nil, rev_repeat.
  replace (S k + 1) with (S (S k)) by lia.
  fold (ups (S k)). now rewrite ups_nonempty.
Qed.

Lemma length_append (a b : string) :
  String.length (a ++ b) = String.length a + String.length b.
Proof. induction a as [|x a IH]; simpl; [reflexivity | now rewrite IH]. Qed.

Lemma ups_length (k : nat) : String.length (ups k) = 3 * k + 2.
Proof.
  induction k as [|k IH]; [reflexivity|].
  unfold ups in *. change (repeat ".."%string (S (S k))) with (".."%string :: repeat ".."%string (S k)).
  rewrite join_cons by discriminate.
  rewrite !length_append, IH. simpl. lia.
Qed.

Lemma ups_grows (k : nat) : String.eqb (ups k) (ups (S k)) = false.
Proof.
  apply String.eqb_neq. intros E. apply (f_equal String.length) in E.
  rewrite !ups_length in E. lia.
Qed.

Lemma loop_ups (fuel k : nat) (filename : string) :
  traverseUpToFindFile fuel (fun _ => Some []) (ups k) filename = None.
Proof.
  revert k. induction fuel as [|fuel IH]; intros k; [reflexivity|].
  simpl. unfold truthy. rewrite ups_nonempty. simpl.
  rewrite join_up_ups, ups_grows. apply IH.
Qed.

(** C9, as stated, fails: from the relative directory ["."] the joins
    with [".."] give [".."], ["../.."], ... and never repeat, so that
    with no [package.json] in any directory the loop does not return,
    however many iterations it is given. *)
Lemma traverseUpToFindFile_relative_diverges :
  ~ exists fuel r,
      traverseUpToFindFile fuel (fun _ => Some []) "." "package.json" = Some r.
Proof.
  intros (fuel & r & H). destruct fuel as [|fuel]; [discriminate|].
  change (traverseUpToFindFile (S fuel) (fun _ => Some []) "." "package.json")
    with (traverseUpToFindFile fuel (fun _ => Some []) (ups 0) "package.json") in H.
  now rewrite loop_ups in H.
Qed.

(** An instance of [traverseUpToFindFile_absolute]: [/a/b/c], with
    [package.json] listed in [/a]. *)
Lemma traverseUpToFindFile_absolute_witness :
  (exists r,
     traverseUpToFindFile 6
       (fun d => if String.eqb d "/a" then Some ["package.json"%string] else Some [])
       "/a/b/c" "package.json" = Some r
     /\ first_hit
          (fun d => if String.eqb d "/a" then Some ["package.json"%string] else Some [])
          "/a/b/c" "package.json" r)
  /\ (forall k, names (ancestor (S k) "/a/b/c") = tl (names (ancestor k "/a/b/c"))).
Proof.
  apply (traverseUpToFindFile_absolute
           (fun d => if String.eqb d "/a" then Some ["package.json"%string] else Some [])
           "package.json" "/a/b/c" 6); [reflexivity | simpl; lia].
Defined.

End TraverseUpFacts.

(** ** tasks/GenerateArtifactDirectoryTask.ts *)

Module GenerateArtifactDirectoryFacts.

Import Task ProjectContext GenerateArtifactDirectoryTask.

(** C8: [isEnabled] holds exactly when the context has an artifact path;
    a run that finds the directory ends as Skipped and makes no call;
    a run that does not find it calls [createDirectory] once, with the
    absolute form of the artifact path, and nothing else. *)
Theorem artifact_directory_task (context : ProjectContext) (w : world) :
  (isEnabled context = true <-> is_Some (artifactPath context))
  /\ match artifactPath context with
     | Some artifactPath =>
         if present w (abs artifactPath) then
           outcome_of (run context w) = Skipped "Directory exists"
           /\ calls (snd (run context w)) = calls w
         else
           fst (run context w) = Ok tt
           /\ skipped (snd (run context w)) = skipped w
           /\ calls (snd (run context w)) = calls w ++ [CreateDirectory (abs artifactPath)]
           /\ createdDirectories (calls (snd (run context w)))
              = createdDirectories (calls w) ++ [abs artifactPath]
     | None => run context w = (Ok tt, w)
     end.
Proof.
  unfold isEnabled, run. split.
  - destruct (artifactPath context); split; intros H;
      try reflexivity; try discriminate; eauto.
    destruct H as [? H]; discriminate.
  - destruct (artifactPath context) as [p|]; [|reflexivity].
    unfold seq, updateMessage, exists_, present; simpl.
    destruct (bool_decide (abs p ∈ directories w) || _); simpl.
    + split; reflexivity.
    + repeat split. unfold createdDirectories.
      now rewrite flat_map_app.
Qed.

End GenerateArtifactDirectoryFacts.

(** ** Lists: [find] and the in-place change of the element found *)

Module ListFacts.

Import Babel.

Section Lists.

Context {A : Type}.
Variable pred : A -> bool.
Variable f : A -> A.

Lemma find_app_none (l r : list A) :
  find pred l = None -> find pred (l ++ r) = find pred r.
Proof.
  induction l as [|x l IH]; simpl; [reflexivity|].
  destruct (pred x); [discriminate | exact IH].
Qed.

Lemma find_app_some (l r : list A) (x : A) :
  find pred l = Some x -> find pred (l ++ r) = Some x.
Proof.
  induction l as [|y l IH]; simpl; [discriminate|].
  destruct (pred y); [trivial | exact IH].
Qed.

Lemma find_here (l r : list A) (x : A) :
  find pred l = None -> pred x = true -> find pred (l ++ x :: r) = Some x.
Proof. intros Hl Hx. rewrite find_app_none by exact Hl. simpl. now rewrite Hx. Qed.

Lemma find_split (l : list A) (x : A) :
  find pred l = Some x ->
  exists before after,
    l = before ++ x :: after /\ find pred before = None /\ pred x = true.
Proof.
  induction l as [|y l IH]; simpl; [discriminate|].
  destruct (pred y) eqn:E.
  - intros [= ->]. exists [], l. auto.
  - intros H. destruct (IH H) as (b & a & -> & Hb & Hx).
    exists (y :: b), a. simpl. rewrite E. auto.
Qed.

Lemma update_first_here (l r : list A) (x : A) :
  find pred l = None -> pred x = true ->
  update_first pred f (l ++ x :: r) = l ++ f x :: r.
Proof.
  intros Hl Hx. induction l as [|y l IH]; simpl in *; [now rewrite Hx|].
  destruct (pred y); [discriminate|]. now rewrite IH.
Qed.

Lemma update_first_none (l : list A) :
  find pred l = None -> update_first pred f l = l.
Proof.
  induction l as [|y l IH]; simpl; [reflexivity|].
  destruct (pred y); [discriminate|]. intros H. now rewrite IH.
Qed.

Lemma update_first_length (l : list A) :
  length (update_first pred f l) = length l.
Proof.
  induction l as [|y l IH]; simpl; [reflexivity|].
  destruct (pred y); simpl; [reflexivity | now rewrite IH].
Qed.

Lemma update_first_lookup (l : list A) (j : nat) (y : A) :
  update_first pred f l !! j = Some y ->
  exists x, l !! j = Some x /\ (y = x \/ (pred x = true /\ y = f x)).
Proof.
  revert j. induction l as [|x l IH]; intros j; simpl; [discriminate|].
  destruct (pred x) eqn:E.
  - destruct j as [|j]; simpl; [intros [= <-]; eauto | eauto].
  - destruct j as [|j]; simpl; [intros [= <-]; eauto | apply IH].
Qed.

End Lists.

Lemma alter_middle {A} (f : A -> A) (l1 l2 : list A) (x : A) :
  alter f (length l1) (l1 ++ x :: l2) = l1 ++ f x :: l2.
Proof.
  induction l1 as [|y l1 IH]; [reflexivity|].
  change (y :: alter f (length l1) (l1 ++ x :: l2) = y :: (l1 ++ f x :: l2)).
  now rewrite IH.
Qed.

Lemma lookup_middle {A} (l1 l2 : list A) (x : A) :
  (l1 ++ x :: l2) !! length l1 = Some x.
Proof. induction l1 as [|y l1 IH]; simpl; [reflexivity | exact IH]. Qed.

End ListFacts.

(** ** tasks/AddRelayPluginConfigurationTask.ts: configureNext *)

Module ConfigureNextFacts.

Import Babel Task AddRelayPluginConfigurationTask ListFacts.

Lemma push_object (v x : node) :
  isObjectExpression v = true ->
  push v x = Node ObjectExpression (children_of v ++ [x]).
Proof.
  destruct v as [ty cs]. unfold isObjectExpression; simpl.
  destruct ty; try discriminate. reflexivity.
Qed.

Section WithSettings.

Variable settings : ProjectSettings.

Lemma upsertRelay_present (properties : list node) (compiler : node) :
  find (isPropertyNamed "compiler") properties = Some compiler ->
  upsertRelay settings properties =
  if negb (isObjectExpression (value_of compiler)) then Throw NoCompilerProperty
  else
    match find (isPropertyNamed "relay") (children_of (value_of compiler)) with
    | Some _ => Ok properties
    | None =>
        Ok (update_first (isPropertyNamed "compiler")
              (fun c => set_child 1 (push (value_of c) (relayProperty settings)) c)
              properties)
    end.
Proof. intros H. unfold upsertRelay. now rewrite H. Qed.

Lemma upsertRelay_absent (properties : list node) :
  find (isPropertyNamed "compiler") properties = None ->
  upsertRelay settings properties =
  Ok (properties
      ++ [objectProperty (identifier "compiler")
            (objectExpression [relayProperty settings])]).
Proof.
  intros H. unfold upsertRelay. rewrite H. simpl.
  now rewrite update_first_here.
Qed.

(** C7: a property counts as there by the test of the source, an
    [ObjectProperty] whose key is an identifier of that name.  When the
    [compiler] object has such a [relay] property, whatever its value,
    the property list is left as it is; when [compiler] is an object
    literal without one, the new property comes after the properties of
    [compiler], which keep their order, and nothing else moves; when
    there is no such [compiler] property, it is added after the existing
    properties. *)
Theorem upsertRelay_by_presence (properties : list node) :
  (forall compiler relay,
     find (isPropertyNamed "compiler") properties = Some compiler ->
     isObjectExpression (value_of compiler) = true ->
     find (isPropertyNamed "relay") (children_of (value_of compiler)) = Some relay ->
     upsertRelay settings properties = Ok properties)
  /\ (forall before compiler after,
        properties = before ++ compiler :: after ->
        find (isPropertyNamed "compiler") before = None ->
        isPropertyNamed "compiler" compiler = true ->
        isObjectExpression (value_of compiler) = true ->
        find (isPropertyNamed "relay") (children_of (value_of compiler)) = None ->
        upsertRelay settings properties =
        Ok (before
            ++ set_child 1
                 (Node ObjectExpression
                    (children_of (value_of compiler) ++ [relayProperty settings]))
                 compiler
            :: after))
  /\ (find (isPropertyNamed "compiler") properties = None ->
      upsertRelay settings properties =
      Ok (properties
          ++ [objectProperty (identifier "compiler")
                (objectExpression [relayProperty settings])])).
Proof.
  repeat split.
  - intros compiler relay Hc Ho Hr.
    rewrite (upsertRelay_present _ _ Hc), Ho, Hr. reflexivity.
  - intros before compiler after -> Hb Hc Ho Hr.
    rewrite (upsertRelay_present _ compiler) by now apply find_here.
    rewrite Ho, Hr. simpl.
    rewrite update_first_here by assumption.
    now rewrite push_object.
  - apply upsertRelay_absent.
Qed.

(** *** The resolution of [module.exports = name] *)

Lemma expression_lookup (s : node) :
  isAssignmentExpression (expression_of s) = true ->
  children_of s !! 0 = Some (expression_of s).
Proof. destruct s as [ty [|e rest]]; [discriminate | reflexivity]. Qed.

(** *** The visitor keeps the assignment expressions where they are *)

Lemma positionsAmong_app (f : node -> list position) (i : nat)
    (l1 l2 : list node) :
  positionsAmong f i (l1 ++ l2)
  = positionsAmong f i l1 ++ positionsAmong f (i + length l1) l2.
Proof.
  revert i. induction l1 as [|x l1 IH]; intros i; simpl.
  - now rewrite Nat.add_0_r.
  - rewrite IH, <- app_assoc.
    now replace (S i + length l1) with (i + S (length l1)) by lia.
Qed.

Lemma positionsAmong_ext (f : node -> list position) (i : nat)
    (l l' : list node) :
  Forall2 (fun a b => f a = f b) l l' ->
  positionsAmong f i l = positionsAmong f i l'.
Proof.
  intros H. revert i. induction H as [|a b l l' Hab _ IH]; intros i; simpl;
    [reflexivity|]. now rewrite Hab, IH.
Qed.

Lemma keeps_children (ty : ntype) (cs cs' : list node) :
  Forall2 keeps cs cs' -> keeps (Node ty cs) (Node ty cs').
Proof.
  intros H. unfold keeps. simpl. f_equal. now apply positionsAmong_ext.
Qed.

Lemma Forall2_keeps_refl (l : list node) : Forall2 keeps l l.
Proof. induction l; constructor; [reflexivity | assumption]. Qed.

Lemma Forall2_keeps_middle (l1 l2 : list node) (x x' : node) :
  keeps x x' -> Forall2 keeps (l1 ++ x :: l2) (l1 ++ x' :: l2).
Proof.
  intros H. apply Forall2_app; [apply Forall2_keeps_refl|].
  constructor; [exact H | apply Forall2_keeps_refl].
Qed.

Lemma keeps_push (n x : node) : assignmentPositions x = [] -> keeps n (push n x).
Proof.
  intros Hx. destruct n as [ty cs]. unfold keeps. simpl. f_equal.
  rewrite positionsAmong_app. simpl. rewrite Hx. simpl. now rewrite app_nil_r.
Qed.

Lemma keeps_set_child (i : nat) (v n : node) :
  (forall c, children_of n !! i = Some c -> keeps c v) ->
  keeps n (set_child i v n).
Proof.
  destruct n as [ty cs]. simpl. intros H. apply keeps_children.
  revert i H. induction cs as [|c cs IH]; intros i H; [constructor|].
  destruct i as [|i]; simpl.
  - constructor; [now apply H | apply Forall2_keeps_refl].
  - constructor; [reflexivity | apply IH; exact H].
Qed.

Lemma keeps_replace_at (pos : position) (r n node : node) :
  subtree pos n = Some node -> keeps node r -> keeps n (replace_at pos r n).
Proof.
  revert n. induction pos as [|i pos IH]; intros [ty cs]; simpl.
  - now intros [= ->].
  - destruct (cs !! i) as [c|] eqn:E; [|discriminate]. intros Hs Hk.
    apply keeps_children.
    apply list_elem_of_split_length in E as (l1 & l2 & -> & ->).
    rewrite alter_middle. apply Forall2_keeps_middle. now apply IH.
Qed.

Lemma relayProperty_plain : assignmentPositions (relayProperty settings) = [].
Proof.
  unfold relayProperty, objProperties.
  destruct (artifactDirectoryPath settings) as [dir|]; [|reflexivity].
  destruct (Js.truthy dir); reflexivity.
Qed.

Lemma upsertRelay_keeps (ty : ntype) (properties properties' : list node) :
  upsertRelay settings properties = Ok properties' ->
  keeps (Node ty properties) (Node ty properties').
Proof.
  destruct (find (isPropertyNamed "compiler") properties) as [c|] eqn:E.
  - rewrite (upsertRelay_present _ _ E).
    destruct (negb _); [discriminate|].
    destruct (find (isPropertyNamed "relay") _).
    + now intros [= <-].
    + intros [= <-].
      destruct (find_split _ _ _ E) as (before & after & -> & Hb & Hc).
      rewrite update_first_here by assumption.
      apply keeps_children, Forall2_keeps_middle, keeps_set_child.
      intros v Hv. replace (value_of c) with v.
      * apply keeps_push, relayProperty_plain.
      * unfold value_of, child. destruct c as [cty [|k [|x r]]]; try discriminate.
        now injection Hv as <-.
  - rewrite (upsertRelay_absent _ E). intros [= <-].
    apply (keeps_push (Node ty properties)).
    pose proof relayProperty_plain as Hr.
    remember (relayProperty settings) as r. simpl. now rewrite Hr.
Qed.

Lemma declarator_found (p : position) (ast : node) :
  isVariableDeclarator (default null (subtree p ast)) = true ->
  subtree p ast = Some (default null (subtree p ast)).
Proof. destruct (subtree p ast); [reflexivity | discriminate]. Qed.

Lemma keeps_set_object (i : nat) (n : node) (properties : list node) :
  isObjectExpression (child i n) = true ->
  upsertRelay settings (children_of (child i n)) = Ok properties ->
  keeps n (set_child i (Node ObjectExpression properties) n).
Proof.
  intros Eo Eu. apply keeps_set_child. intros v Hv.
  replace v with (child i n).
  - destruct (child i n) as [ty cs] eqn:E.
    unfold isObjectExpression in Eo. simpl in Eo.
    destruct ty; try discriminate. now apply upsertRelay_keeps.
  - unfold child. rewrite nth_lookup, Hv. reflexivity.
Qed.

(** A call of the visitor leaves each assignment expression of the tree
    at its position and adds none. *)
Lemma visitAt_keeps (scope : position -> string -> option position)
    (pos : position) (ast ast' : node) :
  visitAt settings scope pos ast = Ok ast' -> keeps ast ast'.
Proof.
  unfold visitAt. destruct (subtree pos ast) as [node|] eqn:Es;
    [|now intros [= <-]].
  unfold visitAssignmentExpression.
  destruct (negb _ || negb _); [discriminate|].
  destruct (isIdentifier (right_of node)).
  - destruct (scope pos _) as [b|]; [|discriminate]. cbv zeta.
    set (binding := default null (subtree b ast)).
    destruct (isVariableDeclarator binding) eqn:Ev; [|discriminate].
    destruct (isObjectExpression (init_of binding)) eqn:Eo; [|discriminate].
    cbn [negb orb].
    destruct (upsertRelay settings _) as [properties|] eqn:Eu; [|discriminate].
    unfold bind. intros H. assert (Hast : ast' = replace_at b
      (set_child 1 (Node ObjectExpression properties) binding) ast) by congruence.
    rewrite Hast. eapply keeps_replace_at; [now apply declarator_found|].
    now apply keeps_set_object.
  - destruct (isObjectExpression (right_of node)) eqn:Eo; [|discriminate].
    destruct (upsertRelay settings _) as [properties|] eqn:Eu; [|discriminate].
    unfold bind. intros H. assert (Hast : ast' = replace_at pos
      (set_child 1 (Node ObjectExpression properties) node) ast) by congruence.
    rewrite Hast. eapply keeps_replace_at; [exact Es|].
    now apply keeps_set_object.
Qed.


Section OnFiles.

Variable getBinding : node -> position -> string -> option position.
Variable parseAst : string -> option node.
Variable printAst : node -> string -> string.

Lemma found_truthy (readdir : string -> option (list string))
    (directory filename path : string) :
  Helpers.findFileInDirectory readdir directory filename = Some path ->
  Js.truthy path = true.
Proof.
  unfold Helpers.findFileInDirectory.
  destruct (readdir directory) as [names|]; [|discriminate].
  destruct (existsb _ names); [|discriminate].
  intros [= <-]. apply PathFacts.join_truthy.
Qed.


End OnFiles.

End WithSettings.

(** An instance of [upsertRelay_by_presence]: a [compiler] object whose
    [relay] property holds something else than what the task would
    write. *)
Lemma upsertRelay_by_presence_witness :
  upsertRelay
    {| toolchain := next; projectRootDirectory := "/app";
       useTypescript := true; srcDirectoryPath := "./src";
       artifactDirectoryPath := None |}
    [objectProperty (identifier "reactStrictMode") (identifier "true");
     objectProperty (identifier "compiler")
       (objectExpression
          [objectProperty (identifier "relay") (stringLiteral "custom")])]
  = Ok
    [objectProperty (identifier "reactStrictMode") (identifier "true");
     objectProperty (identifier "compiler")
       (objectExpression
          [objectProperty (identifier "relay") (stringLiteral "custom")])].
Proof.
  eapply (proj1 (upsertRelay_by_presence _ _)); reflexivity.
Defined.

(** C7, as stated, fails where the key of the existing property is
    written as a string literal: the [compiler] object of
    [{ compiler: { "relay": "custom" } }] has a property named [relay],
    the test of the source does not see it, and a second [relay]
    property is added after it. *)
Lemma upsertRelay_quoted_key :
  Shapes.hasKey "relay"
    [objectProperty (stringLiteral "relay") (stringLiteral "custom")] = true
  /\ upsertRelay Examples.nextSettings Scenarios.quotedRelay
     = Ok [ objectProperty (identifier "compiler")
              (objectExpression
                 [ objectProperty (stringLiteral "relay") (stringLiteral "custom");
                   relayProperty Examples.nextSettings ]) ].
Proof. split; reflexivity. Qed.


End ConfigureNextFacts.

(** ** tasks/AddRelayPluginConfigurationTask.ts: configureVite *)

Module ConfigureViteFacts.

Import Babel Task AddRelayPluginConfigurationTask ListFacts.


Lemma visitProgram_idle (body : list node) :
  hasRelayImport body = true -> visitProgram body = body.
Proof. unfold visitProgram. now intros ->. Qed.

Lemma set_value_named (key : string) (p v : node) :
  isPropertyNamed key (set_child 1 v p) = isPropertyNamed key p.
Proof.
  destruct p as [ty [|k [|x r]]]; reflexivity.
Qed.

Lemma set_value_get (p v : node) :
  isArrayExpression (value_of p) = true -> value_of (set_child 1 v p) = v.
Proof.
  destruct p as [ty [|k [|x r]]]; try discriminate. reflexivity.
Qed.

Lemma push_array (v x : node) :
  isArrayExpression (push v x) = isArrayExpression v
  /\ children_of (push v x) = children_of v ++ [x].
Proof. destruct v; split; reflexivity. Qed.

(** After the visitor the [plugins] array holds [relay]. *)
Lemma upsertRelayPlugin_has (properties properties' : list node) :
  upsertRelayPlugin properties = Ok properties' ->
  hasRelayPlugin properties' = true.
Proof.
  unfold upsertRelayPlugin, hasRelayPlugin.
  destruct (find (isPropertyNamed "plugins") properties) as [p|] eqn:E.
  - destruct (isArrayExpression (value_of p)) eqn:Ea; [|discriminate]. simpl.
    destruct (existsb _ (children_of (value_of p))) eqn:Ex.
    + intros [= <-]. now rewrite E, Ea, Ex.
    + intros [= <-].
      destruct (find_split _ _ _ E) as (before & after & -> & Hb & Hp).
      rewrite update_first_here by assumption.
      rewrite find_here; [|assumption | now rewrite set_value_named].
      rewrite set_value_get by exact Ea.
      destruct (push_array (value_of p) (identifier relayImportName)) as [-> ->].
      rewrite Ea, existsb_app. simpl. now rewrite orb_true_r.
  - simpl. intros [= <-].
    rewrite update_first_here by (trivial; reflexivity).
    rewrite find_here by (trivial; reflexivity). reflexivity.
Qed.

(** On an object whose [plugins] array holds [relay] the visitor changes
    nothing. *)
Lemma upsertRelayPlugin_idle (properties : list node) :
  hasRelayPlugin properties = true ->
  upsertRelayPlugin properties = Ok properties.
Proof.
  unfold upsertRelayPlugin, hasRelayPlugin.
  destruct (find (isPropertyNamed "plugins") properties) as [p|]; [|discriminate].
  intros H. destruct (andb_prop _ _ H) as [H1 H2]. now rewrite H1, H2.
Qed.

Lemma visitExportDefaultDeclaration_inv (node node' : node) :
  visitExportDefaultDeclaration node = Ok node' ->
  exists ty callee arg args rest properties',
    node = Node ty (Node CallExpression (callee :: arg :: args) :: rest)
    /\ isIdentifierNamed "defineConfig" callee = true
    /\ isObjectExpression arg = true
    /\ upsertRelayPlugin (children_of arg) = Ok properties'
    /\ node' = Node ty (Node CallExpression
                          (callee :: Node ObjectExpression properties' :: args)
                        :: rest).
Proof.
  destruct node as [ty [|[dty dcs] rest]]; [discriminate|].
  unfold visitExportDefaultDeclaration.
  change (declaration_of (Node ty (Node dty dcs :: rest))) with (Node dty dcs).
  destruct dty; try discriminate.
  destruct dcs as [|callee [|arg args]]; try discriminate.
  unfold isCallExpression, arguments_of, callee_of, child. simpl.
  destruct (isIdentifier callee) eqn:Ei; [|discriminate]. simpl.
  destruct (String.eqb (name_of callee) "defineConfig") eqn:En; [|discriminate].
  simpl. destruct (isObjectExpression arg) eqn:Eo; [|discriminate]. simpl.
  destruct (upsertRelayPlugin (children_of arg)) as [properties'|] eqn:Eu;
    [|discriminate].
  simpl. intros [= <-].
  exists ty, callee, arg, args, rest, properties'.
  unfold isIdentifierNamed. rewrite Ei, En. auto.
Qed.

Lemma visitExportDefaultDeclaration_idem (node node' : node) :
  visitExportDefaultDeclaration node = Ok node' ->
  visitExportDefaultDeclaration node' = Ok node'
  /\ type_of node' = type_of node
  /\ hasRelayPlugin
       (children_of (nth 0 (arguments_of (declaration_of node')) null)) = true.
Proof.
  intros H.
  destruct (visitExportDefaultDeclaration_inv _ _ H)
    as (ty & callee & arg & args & rest & properties' & -> & Hc & Ho & Hu & ->).
  apply upsertRelayPlugin_has in Hu as Hh.
  repeat split; [|exact Hh].
  unfold visitExportDefaultDeclaration.
  unfold isIdentifierNamed in Hc. destruct (andb_prop _ _ Hc) as [Hi Hn].
  unfold declaration_of, isCallExpression, arguments_of, callee_of, child. simpl.
  rewrite Hi, Hn. simpl.
  now rewrite (upsertRelayPlugin_idle _ Hh).
Qed.




(** *** On the recognised shape the visitors do not throw *)






Section OnFiles.

Variable settings : ProjectSettings.
Variable parseAst : string -> option node.
Variable printAst : node -> string -> string.



End OnFiles.


End ConfigureViteFacts.

(** ** Import-ensure *)

Module ImportFacts.

Import Babel Utils AddRelayPluginConfigurationTask.

Lemma importedAs_sound (importName packageName local : string) (s : node) :
  importedAs importName packageName s = Some local ->
  importsUnder importName packageName local s.
Proof.
  unfold importedAs, importsUnder.
  destruct (type_of s) as [| source | | | | | | | | | | | | | | | | | | | | | | | |];
    try discriminate.
  destruct (String.eqb source packageName) eqn:E; [|discriminate].
  apply String.eqb_eq in E as ->.
  destruct (find _ (children_of s)) as [[ty cs]|] eqn:F; [|discriminate].
  apply find_some in F as [Hin Hp].
  destruct ty; try discriminate. simpl in Hp.
  apply String.eqb_eq in Hp as ->. intros [= <-]. eauto.
Qed.

Lemma importedAs_complete (importName packageName local : string) (s : node) :
  importsUnder importName packageName local s ->
  exists local', importedAs importName packageName s = Some local'.
Proof.
  intros [Ht [cs Hin]]. unfold importedAs. rewrite Ht, String.eqb_refl.
  destruct (find _ (children_of s)) as [[ty cs']|] eqn:F.
  - apply find_some in F as [_ Hp].
    destruct ty; try discriminate. eauto.
  - eapply find_none in F; [|exact Hin]. simpl in F.
    now rewrite String.eqb_refl in F.
Qed.

Lemma getNamedImport_sound (importName packageName local : string)
    (body : list node) :
  getNamedImport importName packageName body = Some local ->
  exists s, In s body /\ importsUnder importName packageName local s.
Proof.
  induction body as [|s body IH]; simpl; [discriminate|].
  destruct (importedAs importName packageName s) as [l|] eqn:E.
  - intros [= ->]. exists s. split; [now left | now apply importedAs_sound].
  - intros H. destruct (IH H) as (s' & Hin & Hs'). exists s'. split; [now right | exact Hs'].
Qed.

Lemma getNamedImport_complete (importName packageName local : string)
    (body : list node) (s : node) :
  In s body -> importsUnder importName packageName local s ->
  exists local', getNamedImport importName packageName body = Some local'.
Proof.
  induction body as [|s0 body IH]; simpl; [tauto|].
  intros Hin Hs. destruct (importedAs importName packageName s0) eqn:E; [eauto|].
  destruct Hin as [->|Hin]; [|now apply IH].
  destruct (importedAs_complete _ _ _ _ Hs) as [l Hl]. congruence.
Qed.

(** C4: when the module imports [X] from [M], import-ensure for [(M, X)]
    returns a local name under which the module imports it and leaves the
    module body as it is; the name is [Y] when [Y] is the one alias.  And
    the [Program] visitor of [configureVite] prepends no import to a body
    that has the default import [relay] from the plugin module. *)
Theorem import_reuse :
  (forall (body : list node) (X M Y : string),
      (exists s, In s body /\ importsUnder X M Y s) ->
      exists Y',
        insertNamedImport body X M = (identifier Y', body)
        /\ (exists s', In s' body /\ importsUnder X M Y' s')
        /\ ((forall s'' Y'', In s'' body -> importsUnder X M Y'' s'' -> Y'' = Y) ->
            Y' = Y))
  /\ (forall body : list node,
        (exists s cs,
            In s body
            /\ type_of s = ImportDeclaration "vite-plugin-relay"
            /\ In (Node (ImportDefaultSpecifier "relay") cs) (children_of s)) ->
        visitProgram body = body).
Proof.
  split.
  - intros body X M Y (s & Hin & Hs).
    destruct (getNamedImport_complete _ _ _ _ _ Hin Hs) as [Y' HY'].
    exists Y'. unfold insertNamedImport. rewrite HY'.
    destruct (getNamedImport_sound _ _ _ _ HY') as (s' & Hin' & Hs').
    repeat split; eauto.
  - intros body (s & cs & Hin & Ht & Hsp).
    apply ConfigureViteFacts.visitProgram_idle.
    unfold hasRelayImport. apply existsb_exists. exists s. split; [exact Hin|].
    unfold isImportDeclaration. rewrite Ht. simpl.
    apply existsb_exists. eexists. split; [exact Hsp|].
    reflexivity.
Qed.

(** An instance of [import_reuse]: [graphql] is imported from
    [react-relay] as [gql]. *)
Lemma import_reuse_witness :
  (exists Y',
      insertNamedImport Examples.importsGql "graphql" "react-relay"
      = (identifier Y', Examples.importsGql)
      /\ (exists s', In s' Examples.importsGql
                     /\ importsUnder "graphql" "react-relay" Y' s')
      /\ ((forall s'' Y'',
             In s'' Examples.importsGql ->
             importsUnder "graphql" "react-relay" Y'' s'' -> Y'' = "gql"%string) ->
          Y' = "gql"%string))
  /\ visitProgram Examples.importsRelay = Examples.importsRelay.
Proof.
  split.
  - apply (proj1 import_reuse Examples.importsGql "graphql" "react-relay" "gql")%string.
    eexists. split; [right; left; reflexivity|].
    split; [reflexivity|]. eexists. left. reflexivity.
  - apply (proj2 import_reuse Examples.importsRelay).
    eexists. eexists. split; [left; reflexivity|].
    split; [reflexivity|]. left. reflexivity.
Defined.

End ImportFacts.

(** ** Trees, positions and the traversal *)

Module TreeFacts.

Import Babel ListFacts.

(** Induction on a tree, with the property available for each child. *)
Lemma node_ind (P : node -> Prop) :
  (forall ty cs, Forall P cs -> P (Node ty cs)) -> forall n, P n.
Proof.
  intros H. fix IH 1. intros [ty cs]. apply H.
  induction cs as [|c cs IHcs]; constructor; [apply IH | exact IHcs].
Qed.

Lemma precedes_refl (p : position) : precedes p p.
Proof. induction p as [|i p IH]; simpl; auto. Qed.

Lemma precedes_antisym (p q : position) :
  precedes p q -> precedes q p -> p = q.
Proof.
  revert q. induction p as [|i p IH]; intros [|j q]; simpl; try tauto.
  intros [H1|[-> H1]] [H2|[H2 H3]]; try lia.
  f_equal. now apply IH.
Qed.

(** A replacement leaves alone what comes after it in visiting order
    and does not lie below it. *)
Lemma subtree_replace_at (p q : position) (r n : node) :
  precedes p q -> ~ above p q ->
  subtree q (replace_at p r n) = subtree q n.
Proof.
  revert q n. induction p as [|i p IH]; intros q n Hpq Hab; simpl in *; [tauto|].
  destruct q as [|j q]; [tauto|]. destruct n as [ty cs]. simpl.
  destruct Hpq as [Hlt|[-> Hpq]].
  - rewrite list_lookup_alter_ne by lia. reflexivity.
  - rewrite list_lookup_alter_eq. destruct (cs !! j) as [c|]; [|reflexivity].
    simpl. apply IH; [exact Hpq | tauto].
Qed.

Section Traversal.

Context {S : Type}.
Variable visit : node -> node -> S -> action * S.

Lemma traverse_unfold (parent : node) (ty : ntype) (cs : list node) (s : S) :
  traverse visit parent (Node ty cs) s =
  let '(a, s) :=
    if isJSXElement (Node ty cs) then visit parent (Node ty cs) s
    else (Continue, s) in
  match a with
  | ReplaceWith replacement => (replacement, s)
  | Skip => (Node ty cs, s)
  | Continue =>
      let '(cs', s) := visitChildren visit ty [] cs s in (Node ty cs', s)
  end.
Proof. reflexivity. Qed.

Lemma visitChildren_cons (ty : ntype) (visited rest : list node) (c : node)
    (s : S) :
  visitChildren visit ty visited (c :: rest) s =
  let '(c', s) := traverse visit (Node ty (visited ++ c :: rest)) c s in
  visitChildren visit ty (visited ++ [c']) rest s.
Proof. reflexivity. Qed.

End Traversal.

End TreeFacts.

(** ** tasks/AddRelayEnvironmentProviderTask.ts: the JSX-host matcher *)

Module JsxHostFacts.

Import Babel Task Utils ProjectContext AddRelayEnvironmentProviderTask.
Import ListFacts TreeFacts.

Section Matcher.

Variable accepts : node -> bool.

Abbreviation visit := (visitJSXElement accepts).

Lemma firstAnchor_unfold (parent : node) (ty : ntype) (cs : list node) :
  firstAnchor accepts parent (Node ty cs) =
  if isJSXElement (Node ty cs) && accepts parent then Some []
  else firstAmong (firstAnchor accepts (Node ty cs)) 0 cs.
Proof. reflexivity. Qed.

(** *** Once the flag is up nothing is touched *)

Lemma visitChildren_wrapped (ty : ntype) (visited remaining : list node)
    (st : state) :
  Forall (fun c => forall parent st,
            providerWrapped st = true -> traverse visit parent c st = (c, st))
         remaining ->
  providerWrapped st = true ->
  visitChildren visit ty visited remaining st = (visited ++ remaining, st).
Proof.
  intros Hall Hw. revert visited.
  induction Hall as [|c rest Hc _ IH]; intros visited.
  - now rewrite app_nil_r.
  - rewrite visitChildren_cons, Hc by exact Hw.
    rewrite IH. now rewrite <- app_assoc.
Qed.

Lemma traverse_wrapped (n parent : node) (st : state) :
  providerWrapped st = true -> traverse visit parent n st = (n, st).
Proof.
  revert parent st. induction n as [ty cs IH] using node_ind.
  intros parent st Hw. rewrite traverse_unfold.
  unfold visitJSXElement. rewrite Hw. simpl.
  destruct (isJSXElement (Node ty cs));
    now rewrite visitChildren_wrapped.
Qed.

(** *** The first anchor *)

Lemma wrapAndSkip_wrapped (jsx : node) (st : state) :
  providerWrapped (snd (wrapAndSkip jsx st)) = true
  /\ fst (wrapAndSkip jsx st) <> Continue.
Proof.
  unfold wrapAndSkip. destruct (wrapJsxInProvider jsx st) as [[r|] st']; simpl;
    split; congruence.
Qed.

Lemma firstAmong_spec (search : node -> option position) (i : nat)
    (cs : list node) :
  match firstAmong search i cs with
  | Some pos =>
      exists before c after p,
        cs = before ++ c :: after
        /\ pos = (i + length before) :: p
        /\ search c = Some p
        /\ Forall (fun c' => search c' = None) before
  | None => Forall (fun c' => search c' = None) cs
  end.
Proof.
  revert i. induction cs as [|c cs IH]; intros i; simpl; [constructor|].
  destruct (search c) as [p|] eqn:E.
  - exists [], c, cs, p. simpl. rewrite Nat.add_0_r. auto.
  - specialize (IH (S i)).
    destruct (firstAmong search (S i) cs) as [pos|].
    + destruct IH as (before & c' & after & p & -> & -> & Hp & Hb).
      exists (c :: before), c', after, p. simpl.
      replace (i + S (length before)) with (S i + length before) by lia.
      auto.
    + now constructor.
Qed.

(** The position found holds an anchor, the first in visiting order;
    when none is found there is no anchor. *)
Lemma firstAnchor_spec (n parent : node) :
  match firstAnchor accepts parent n with
  | Some p =>
      anchorAt accepts parent n p = true
      /\ is_Some (subtree p n)
      /\ forall q, anchorAt accepts parent n q = true -> precedes p q
  | None => forall q, anchorAt accepts parent n q = false
  end.
Proof.
  revert parent. induction n as [ty cs IH] using node_ind.
  intros parent. rewrite firstAnchor_unfold.
  destruct (isJSXElement (Node ty cs) && accepts parent) eqn:E.
  - simpl. rewrite E. repeat split; eauto.
  - pose proof (firstAmong_spec (firstAnchor accepts (Node ty cs)) 0 cs) as Hs.
    destruct (firstAmong _ 0 cs) as [pos|].
    + destruct Hs as (before & c & after & p' & -> & -> & Hp & Hb). simpl.
      rewrite lookup_middle.
      apply Forall_app in IH as [IHb IHc].
      inversion IHc as [|? ? IHc' _]; subst.
      specialize (IHc' (Node ty (before ++ c :: after))). rewrite Hp in IHc'.
      destruct IHc' as (Ha & Hsub & Hleast).
      repeat split; trivial.
      intros [|j q]; simpl; [congruence|].
      destruct (Nat.lt_trichotomy j (length before)) as [Hlt|[->|Hgt]]; [|auto|auto].
      * rewrite lookup_app_l by exact Hlt.
        destruct (before !! j) as [c'|] eqn:Ec; [|discriminate].
        intros Hq. exfalso.
        pose proof (proj1 (Forall_lookup _ _) Hb j c' Ec) as Hnone.
        pose proof (proj1 (Forall_lookup _ _) IHb j c' Ec
                      (Node ty (before ++ c :: after))) as IHj.
        simpl in Hnone. rewrite Hnone in IHj. congruence.
      * rewrite lookup_middle. intros Hq. right. split; [reflexivity|]. auto.
    + intros [|j q]; simpl; [exact E|].
      destruct (cs !! j) as [c'|] eqn:Ec; [|reflexivity].
      pose proof (proj1 (Forall_lookup _ _) Hs j c' Ec) as Hnone.
      pose proof (proj1 (Forall_lookup _ _) IH j c' Ec (Node ty cs)) as IHj.
      simpl in Hnone. rewrite Hnone in IHj. apply IHj.
Qed.

(** *** The traversal wraps the first anchor and nothing else *)

Lemma wrapAt_cons (ty : ntype) (before after : list node) (c : node)
    (p : position) (st : state) :
  is_Some (subtree p c) ->
  wrapAt (length before :: p) (Node ty (before ++ c :: after)) st
  = (Node ty (before ++ fst (wrapAt p c st) :: after), snd (wrapAt p c st)).
Proof.
  intros [jsx Hj]. unfold wrapAt. simpl. rewrite lookup_middle, Hj.
  destruct (wrapAndSkip jsx st) as [[| |r] st']; simpl; try reflexivity.
  now rewrite alter_middle.
Qed.

Lemma wrapAt_wrapped (p : position) (n : node) (st : state) :
  is_Some (subtree p n) -> providerWrapped (snd (wrapAt p n st)) = true.
Proof.
  intros [jsx Hj]. unfold wrapAt. rewrite Hj.
  pose proof (wrapAndSkip_wrapped jsx st) as [Hw _].
  now destruct (wrapAndSkip jsx st).
Qed.

Lemma visitChildren_first (ty : ntype) (remaining visited : list node)
    (st : state) :
  Forall (fun c => forall parent st,
            providerWrapped st = false ->
            traverse visit parent c st =
            match firstAnchor accepts parent c with
            | Some p => wrapAt p c st
            | None => (c, st)
            end)
         remaining ->
  providerWrapped st = false ->
  visitChildren visit ty visited remaining st =
  match firstAmong (firstAnchor accepts (Node ty (visited ++ remaining)))
          (length visited) remaining with
  | Some pos =>
      (children_of (fst (wrapAt pos (Node ty (visited ++ remaining)) st)),
       snd (wrapAt pos (Node ty (visited ++ remaining)) st))
  | None => (visited ++ remaining, st)
  end.
Proof.
  intros Hall Hw. revert visited.
  induction Hall as [|c rest Hc _ IH]; intros visited.
  - simpl. now rewrite app_nil_r.
  - rewrite visitChildren_cons, Hc by exact Hw. simpl firstAmong.
    pose proof (firstAnchor_spec c (Node ty (visited ++ c :: rest))) as Hs.
    destruct (firstAnchor accepts (Node ty (visited ++ c :: rest)) c) as [p|].
    + destruct Hs as (_ & Hsub & _).
      rewrite (wrapAt_cons ty visited rest c p st Hsub). simpl.
      destruct (wrapAt p c st) as [c' st'] eqn:E. simpl.
      rewrite visitChildren_wrapped.
      * now rewrite <- app_assoc.
      * apply Forall_forall. intros x _ parent st0. apply traverse_wrapped.
      * change st' with (snd (c', st')). rewrite <- E. now apply wrapAt_wrapped.
    + rewrite IH. rewrite <- !app_assoc. simpl.
      rewrite length_app. simpl.
      now replace (length visited + 1) with (S (length visited)) by lia.
Qed.

Lemma wrapAt_type (p : position) (n : node) (st : state) :
  p <> [] -> type_of (fst (wrapAt p n st)) = type_of n.
Proof.
  intros Hp. unfold wrapAt. destruct (subtree p n) as [jsx|]; [|reflexivity].
  destruct (wrapAndSkip jsx st) as [[| |r] st']; simpl; try reflexivity.
  destruct p; [congruence|]. now destruct n.
Qed.

(** With the flag down, the traversal of a tree is the wrap at its first
    anchor, or nothing when it has none. *)
Lemma traverse_first (n parent : node) (st : state) :
  providerWrapped st = false ->
  traverse visit parent n st =
  match firstAnchor accepts parent n with
  | Some p => wrapAt p n st
  | None => (n, st)
  end.
Proof.
  revert parent st. induction n as [ty cs IH] using node_ind.
  intros parent st Hw. rewrite traverse_unfold, firstAnchor_unfold.
  unfold visitJSXElement at 1. rewrite Hw. simpl orb.
  destruct (isJSXElement (Node ty cs)) eqn:Ej; simpl andb.
  - destruct (accepts parent); simpl negb; cbv iota.
    + unfold wrapAt. simpl subtree.
      pose proof (wrapAndSkip_wrapped (Node ty cs) st) as [_ Hne].
      destruct (wrapAndSkip (Node ty cs) st) as [[| |r] st']; simpl in *;
        congruence.
    + rewrite (visitChildren_first ty cs [] st IH Hw). simpl.
      destruct (firstAmong _ 0 cs) as [pos|] eqn:E; [|reflexivity].
      pose proof (firstAmong_spec (firstAnchor accepts (Node ty cs)) 0 cs) as Hs.
      rewrite E in Hs. destruct Hs as (before & c & after & p & _ & -> & _).
      pose proof (wrapAt_type (0 + length before :: p) (Node ty cs) st) as Ht.
      destruct (wrapAt _ (Node ty cs) st) as [[ty' cs'] st']. simpl in *.
      rewrite Ht by discriminate. reflexivity.
  - rewrite (visitChildren_first ty cs [] st IH Hw). simpl.
    destruct (firstAmong _ 0 cs) as [pos|] eqn:E; [|reflexivity].
    pose proof (firstAmong_spec (firstAnchor accepts (Node ty cs)) 0 cs) as Hs.
    rewrite E in Hs. destruct Hs as (before & c & after & p & _ & -> & _).
    pose proof (wrapAt_type (0 + length before :: p) (Node ty cs) st) as Ht.
    destruct (wrapAt _ (Node ty cs) st) as [[ty' cs'] st']. simpl in *.
    rewrite Ht by discriminate. reflexivity.
Qed.

Lemma subtree_replace_at_self (p : position) (r n : node) :
  is_Some (subtree p n) -> subtree p (replace_at p r n) = Some r.
Proof.
  revert n. induction p as [|i p IH]; intros [ty cs]; simpl; [reflexivity|].
  rewrite list_lookup_alter_eq.
  destruct (cs !! i) as [c|]; simpl; [apply IH | now intros [? ?]].
Qed.

(** Without an anchor the task throws and leaves the world as it was. *)
Lemma configure_without_anchor (context : ProjectContext)
    (parseAst : string -> option node) (printAst : node -> string -> string)
    (notFound : error) (w : world) (code : string) (ast : node) :
  files w !! abs (mainFile context) = Some code ->
  parseAst code = Some ast ->
  (forall q, anchorAt accepts null ast q = false) ->
  configure context parseAst printAst accepts notFound w = (Throw notFound, w).
Proof.
  intros Hc Hp Hnone. unfold configure, seq, readFile. rewrite Hc, Hp.
  unfold transform. rewrite traverse_first by reflexivity.
  pose proof (firstAnchor_spec ast null) as Hs.
  destruct (firstAnchor accepts null ast) as [p|].
  - destruct Hs as (Ha & _). rewrite Hnone in Ha. discriminate.
  - reflexivity.
Qed.

(** With an anchor, what the task hands to [printAst] is the tree with
    the wrap at the first anchor in visiting order. *)
Lemma transform_first (ast : node) (p : position) :
  anchorAt accepts null ast p = true ->
  (forall q, anchorAt accepts null ast q = true -> precedes p q) ->
  traverse visit null ast (initial ast) = wrapAt p ast (initial ast).
Proof.
  intros Ha Hleast. rewrite traverse_first by reflexivity.
  pose proof (firstAnchor_spec ast null) as Hs.
  destruct (firstAnchor accepts null ast) as [p'|].
  - destruct Hs as (Ha' & _ & Hleast').
    now rewrite (precedes_antisym p p' (Hleast _ Ha') (Hleast' _ Ha)).
  - rewrite Hs in Ha. discriminate.
Qed.

(** The traversal seen from the first anchor it visits: the flag is up,
    the imports are ensured, and the tree is as it was when the anchor
    bears the provider's tag, or has the provider, with the anchor as its
    one child, in the place of the anchor. *)
Lemma traverse_first_exact (ast : node) (p : position) :
  anchorAt accepts null ast p = true ->
  (forall q, anchorAt accepts null ast q = true -> precedes p q) ->
  let traversed := traverse visit null ast (initial ast) in
  let ensuredEnv := insertNamedImport (children_of ast) RELAY_ENV "" in
  let ensuredProvider :=
    insertNamedImport (snd ensuredEnv) RELAY_ENV_PROVIDER REACT_RELAY_PACKAGE in
  let envProviderId := jsxIdentifier (name_of (fst ensuredProvider)) in
  exists jsx,
    subtree p ast = Some jsx
    /\ providerWrapped (snd traversed) = true
    /\ program (snd traversed) = snd ensuredProvider
    /\ fst traversed
       = (if isJSXIdentifier (tagName_of jsx)
             && String.eqb (name_of (tagName_of jsx)) (name_of envProviderId)
          then ast
          else replace_at p
                 (Node JSXElement
                    [ Node JSXOpeningElement
                        [ envProviderId;
                          Node JSXAttribute
                            [ jsxIdentifier "environment";
                              Node JSXExpressionContainer [fst ensuredEnv] ] ];
                      Node JSXClosingElement [envProviderId];
                      jsx ])
                 ast).
Proof.
  intros Ha Hleast. cbv zeta. rewrite (transform_first ast p Ha Hleast).
  pose proof (firstAnchor_spec ast null) as Hs.
  assert (Hsub : is_Some (subtree p ast)).
  { destruct (firstAnchor accepts null ast) as [p'|].
    - destruct Hs as (Ha' & Hsub & Hleast').
      now rewrite (precedes_antisym p p' (Hleast _ Ha') (Hleast' _ Ha)).
    - rewrite Hs in Ha. discriminate. }
  destruct Hsub as [jsx Hj]. exists jsx. split; [exact Hj|].
  unfold wrapAt. rewrite Hj. unfold wrapAndSkip, wrapJsxInProvider.
  cbn [program initial].
  destruct (insertNamedImport (children_of ast) RELAY_ENV "")
    as [envId program1].
  cbn [fst snd].
  destruct (insertNamedImport program1 RELAY_ENV_PROVIDER REACT_RELAY_PACKAGE)
    as [envProvider program2].
  cbn [fst snd].
  destruct (isJSXIdentifier (tagName_of jsx)
            && String.eqb (name_of (tagName_of jsx))
                 (name_of (jsxIdentifier (name_of envProvider))));
    cbn [fst snd providerWrapped program]; auto.
Qed.

End Matcher.




(** *** No anchor *)

(** Both modes of AddRelayEnvironmentProviderTask throw when the file has
    no anchor, and write nothing. *)
Lemma provider_task_without_anchor (context : ProjectContext)
    (parseAst : string -> option node) (printAst : node -> string -> string)
    (w : world) (code : string) (ast : node) :
  files w !! abs (mainFile context) = Some code ->
  parseAst code = Some ast ->
  ((forall q, anchorAt isReturned null ast q = false) ->
   configureNext context parseAst printAst w = (Throw CouldNotFindJsx, w))
  /\ ((forall q, anchorAt isRenderCall null ast q = false) ->
      configureViteOrCra context parseAst printAst w
      = (Throw CouldNotFindJsxInRender, w)).
Proof.
  intros Hc Hp. split; intros Hnone;
    now apply (configure_without_anchor _ _ _ _ _ _ code ast).
Qed.

(** C2 at [ReactDOM.hydrate(<App />, root)], a main file without anchor
    in render-call mode: [configureViteOrCra] of
    AddRelayEnvironmentProviderTask throws and writes nothing, while
    [configureVite] of AddRelayEnvironmentTask, which looks for the same
    anchor, returns normally and writes the main file. *)
Theorem configureVite_writes_without_anchor
    (printAst : node -> string -> string) :
  (forall q, anchorAt isRenderCall null Examples.hydrateMain q = false)
  /\ configureViteOrCra Examples.viteMainContext
       (fun _ => Some Examples.hydrateMain) printAst Examples.viteProject
     = (Throw CouldNotFindJsxInRender, Examples.viteProject)
  /\ fst (AddRelayEnvironmentTask.configureVite Examples.viteMainSettings
            "src/main" "src/RelayEnvironment"
            (fun _ => Some Examples.hydrateMain) printAst Examples.viteProject)
     = Ok tt
  /\ calls (snd (AddRelayEnvironmentTask.configureVite Examples.viteMainSettings
                   "src/main" "src/RelayEnvironment"
                   (fun _ => Some Examples.hydrateMain) printAst
                   Examples.viteProject))
     = [ CopyFile "/pkg/assets/env" "/app/src/RelayEnvironment.js";
         WriteFile "/app/src/main.jsx" (printAst Examples.hydrateMain "main") ].
Proof.
  assert (Hnone : forall q, anchorAt isRenderCall null Examples.hydrateMain q = false).
  { exact (firstAnchor_spec isRenderCall Examples.hydrateMain null). }
  split; [exact Hnone|]. split.
  - now apply (configure_without_anchor isRenderCall _ _ _ _ _ "main"%string
                 Examples.hydrateMain).
  - split; reflexivity.
Qed.

End JsxHostFacts.

(** ** tasks/AddRelayEnvironmentProviderTask.ts: wrapJsxInProvider *)

Module WrapFacts.

Import Babel Utils AddRelayEnvironmentProviderTask.

Lemma ensure_found (body : list node) (X M : string) :
  getNamedImport X M (snd (insertNamedImport body X M))
  = Some (name_of (fst (insertNamedImport body X M))).
Proof.
  unfold insertNamedImport.
  destruct (getNamedImport X M body) as [l|] eqn:E; simpl; [exact E|].
  unfold importedAs. simpl. now rewrite !String.eqb_refl.
Qed.

Lemma ensure_kept (body : list node) (X M X' M' l : string) :
  String.eqb M' M = false ->
  getNamedImport X M body = Some l ->
  getNamedImport X M (snd (insertNamedImport body X' M')) = Some l.
Proof.
  intros Hne H. unfold insertNamedImport.
  destruct (getNamedImport X' M' body); simpl; [exact H|].
  unfold importedAs. simpl. now rewrite Hne.
Qed.

Lemma ensure_idle (body : list node) (X M l : string) :
  getNamedImport X M body = Some l ->
  insertNamedImport body X M = (identifier l, body).
Proof. unfold insertNamedImport. now intros ->. Qed.

Lemma wrapJsxInProvider_eq (jsxPath : node) (st : state)
    (envId : node) (program1 : list node)
    (envProvider : node) (program2 : list node) :
  insertNamedImport (program st) RELAY_ENV "" = (envId, program1) ->
  insertNamedImport program1 RELAY_ENV_PROVIDER REACT_RELAY_PACKAGE
  = (envProvider, program2) ->
  wrapJsxInProvider jsxPath st =
  let envProviderId := jsxIdentifier (name_of envProvider) in
  if isJSXIdentifier (tagName_of jsxPath)
     && String.eqb (name_of (tagName_of jsxPath)) (name_of envProviderId)
  then
    (None,
     {| providerWrapped := providerWrapped st;
        program := program2;
        skipReason := Some "JSX already wrapped with RelayEnvironmentProvider"%string |})
  else
    (Some (Node JSXElement
             [ Node JSXOpeningElement
                 [ envProviderId;
                   Node JSXAttribute
                     [ jsxIdentifier "environment";
                       Node JSXExpressionContainer [envId] ] ];
               Node JSXClosingElement [envProviderId];
               jsxPath ]),
     {| providerWrapped := providerWrapped st;
        program := program2;
        skipReason := skipReason st |}).
Proof. intros H1 H2. unfold wrapJsxInProvider. now rewrite H1, H2. Qed.

(** C5: with [envId] and the provider name as import-ensure returns them,
    [wrapJsxInProvider] either finds the tag of the anchor to be the
    provider name, replaces nothing and calls [this.skip], or replaces
    the anchor by an element with the provider as tag, the one attribute
    [environment={envId}], and the anchor as its one child; handed that
    element, it replaces nothing. *)
Theorem wrapJsxInProvider_spec (jsxPath : node) (st : state) :
  let ensuredEnv := insertNamedImport (program st) RELAY_ENV "" in
  let ensuredProvider :=
    insertNamedImport (snd ensuredEnv) RELAY_ENV_PROVIDER REACT_RELAY_PACKAGE in
  let envId := fst ensuredEnv in
  let envProviderId := jsxIdentifier (name_of (fst ensuredProvider)) in
  let result := wrapJsxInProvider jsxPath st in
  program (snd result) = snd ensuredProvider
  /\ if isJSXIdentifier (tagName_of jsxPath)
        && String.eqb (name_of (tagName_of jsxPath)) (name_of envProviderId)
     then
       fst result = None
       /\ skipReason (snd result)
          = Some "JSX already wrapped with RelayEnvironmentProvider"%string
     else
       fst result
       = Some (Node JSXElement
                 [ Node JSXOpeningElement
                     [ envProviderId;
                       Node JSXAttribute
                         [ jsxIdentifier "environment";
                           Node JSXExpressionContainer [envId] ] ];
                   Node JSXClosingElement [envProviderId];
                   jsxPath ])
       /\ skipReason (snd result) = skipReason st
       /\ forall replacement,
            fst result = Some replacement ->
            fst (wrapJsxInProvider replacement (snd result)) = None.
Proof.
  intros ensuredEnv ensuredProvider envId envProviderId result.
  pose proof (ensure_found (program st) RELAY_ENV "") as He.
  pose proof (ensure_found (snd ensuredEnv) RELAY_ENV_PROVIDER
                REACT_RELAY_PACKAGE) as Hp.
  pose proof (ensure_kept _ RELAY_ENV ""%string RELAY_ENV_PROVIDER
                REACT_RELAY_PACKAGE _ eq_refl He) as He'.
  fold ensuredEnv in He, He'. fold ensuredProvider in Hp, He'.
  assert (Hr : result = wrapJsxInProvider jsxPath st) by reflexivity.
  rewrite (wrapJsxInProvider_eq jsxPath st (fst ensuredEnv) (snd ensuredEnv)
             (fst ensuredProvider) (snd ensuredProvider)) in Hr
    by (subst ensuredProvider; apply surjective_pairing).
  fold envId envProviderId in Hr. cbv zeta in Hr.
  rewrite Hr. clear Hr result.
  destruct (isJSXIdentifier (tagName_of jsxPath) && _); simpl.
  - auto.
  - repeat split. intros replacement [= <-].
    rewrite (wrapJsxInProvider_eq _ _ (identifier (name_of envId))
               (snd ensuredProvider)
               (identifier (name_of (fst ensuredProvider)))
               (snd ensuredProvider)).
    + unfold tagName_of, openingElement_of, child, envProviderId. simpl.
      now rewrite String.eqb_refl.
    + simpl. now apply ensure_idle.
    + now apply ensure_idle.
Qed.

End WrapFacts.

(** ** tasks/AddRelayEnvironmentProviderTask.ts: the task on files *)

Module ProviderTaskFacts.

Import Babel Task Utils ProjectContext AddRelayEnvironmentProviderTask.
Import ListFacts TreeFacts JsxHostFacts.

Section Mode.

Variable accepts : node -> bool.

(** What [configure] does once the file is read and parsed. *)
Lemma configure_parsed (context : ProjectContext)
    (parseAst : string -> option node) (printAst : node -> string -> string)
    (notFound : error) (w : world) (code : string) (ast : node) :
  files w !! abs (mainFile context) = Some code ->
  parseAst code = Some ast ->
  configure context parseAst printAst accepts notFound w =
  let st := snd (transform accepts ast) in
  let w' := match skipReason st with
            | Some reason => snd (skip reason w)
            | None => w
            end in
  if providerWrapped st
  then writeFile (abs (mainFile context))
         (printAst (fst (transform accepts ast)) code) w'
  else (Throw notFound, w').
Proof.
  intros Hc Hp. unfold configure, seq, readFile. rewrite Hc, Hp.
  destruct (transform accepts ast) as [ast' st]. simpl.
  destruct (skipReason st); simpl; now destruct (providerWrapped st).
Qed.

Lemma transform_parts (ast : node) :
  let traversed := traverse (visitJSXElement accepts) null ast (initial ast) in
  transform accepts ast
  = (Node (type_of (fst traversed))
       (unshifted ast (snd traversed) ++ children_of (fst traversed)),
     snd traversed).
Proof.
  unfold transform.
  now destruct (traverse (visitJSXElement accepts) null ast (initial ast)).
Qed.

End Mode.

(** The mode and the error of each toolchain, as [run] dispatches. *)
Lemma run_dispatch (context : ProjectContext)
    (parseAst : string -> option node) (printAst : node -> string -> string)
    (w : world) :
  run context parseAst printAst w =
  configure context parseAst printAst
    (match toolchain context with next => isReturned | _ => isRenderCall end)
    (match toolchain context with
     | next => CouldNotFindJsx
     | _ => CouldNotFindJsxInRender
     end)
    (snd (updateMessage
            (message ++ " to " ++ h (rel (mainFile context)))%string w)).
Proof. unfold run, seq. simpl. now destruct (toolchain context). Qed.

(** X1: [configureViteOrCra] wraps the first JSX element the traversal
    visits that is an argument of a call of a [render] member, and only
    that one.  The task then returns normally after one write, of the
    printed tree, to the main file.  In the traversed tree the anchor is
    as it was when it bears the provider's tag, and otherwise the one
    child of the provider that stands in its place; every node that is
    visited later and does not lie below the anchor is as it was. *)
Theorem configureViteOrCra_first_render_call (context : ProjectContext)
    (parseAst : string -> option node) (printAst : node -> string -> string)
    (w : world) (code : string) (ast : node) (p : position) :
  files w !! abs (mainFile context) = Some code ->
  parseAst code = Some ast ->
  anchorAt isRenderCall null ast p = true ->
  (forall q, anchorAt isRenderCall null ast q = true -> precedes p q) ->
  let traversed :=
    traverse (visitJSXElement isRenderCall) null ast (initial ast) in
  let printed :=
    Node (type_of (fst traversed))
      (unshifted ast (snd traversed) ++ children_of (fst traversed)) in
  let ensuredEnv := insertNamedImport (children_of ast) RELAY_ENV "" in
  let ensuredProvider :=
    insertNamedImport (snd ensuredEnv) RELAY_ENV_PROVIDER REACT_RELAY_PACKAGE in
  let envProviderId := jsxIdentifier (name_of (fst ensuredProvider)) in
  let done := configureViteOrCra context parseAst printAst w in
  fst done = Ok tt
  /\ calls (snd done)
     = calls w ++ [WriteFile (abs (mainFile context)) (printAst printed code)]
  /\ (forall q, precedes p q -> ~ above p q ->
                subtree q (fst traversed) = subtree q ast)
  /\ (exists jsx,
         subtree p ast = Some jsx
         /\ fst traversed
            = (if isJSXIdentifier (tagName_of jsx)
                  && String.eqb (name_of (tagName_of jsx)) (name_of envProviderId)
               then ast
               else replace_at p
                      (Node JSXElement
                       [ Node JSXOpeningElement
                           [ envProviderId;
                             Node JSXAttribute
                               [ jsxIdentifier "environment";
                                 Node JSXExpressionContainer [fst ensuredEnv] ] ];
                         Node JSXClosingElement [envProviderId];
                         jsx ])
                      ast)).
Proof.
  intros Hc Hp Ha Hleast traversed printed ensuredEnv ensuredProvider
    envProviderId done.
  destruct (traverse_first_exact isRenderCall ast p Ha Hleast)
    as (jsx & Hj & Hw & _ & Hr).
  fold traversed ensuredEnv ensuredProvider envProviderId in Hw, Hr.
  assert (Hd : done
               = configure context parseAst printAst isRenderCall
                   CouldNotFindJsxInRender w) by reflexivity.
  rewrite (configure_parsed isRenderCall _ _ _ _ _ code ast Hc Hp) in Hd.
  rewrite (transform_parts isRenderCall ast) in Hd. simpl in Hd.
  fold traversed in Hd. rewrite Hw in Hd. fold printed in Hd.
  split; [|split; [|split]].
  - rewrite Hd. now destruct (skipReason (snd traversed)).
  - rewrite Hd. now destruct (skipReason (snd traversed)).
  - intros q Hq Hab. rewrite Hr.
    destruct (isJSXIdentifier (tagName_of jsx) && _); [reflexivity|].
    now apply subtree_replace_at.
  - exists jsx. split; [exact Hj | exact Hr].
Qed.

(** X2: when the main file holds no anchor of the toolchain's mode, no
    returned JSX element for Next.js and no JSX argument of a [render]
    call for Vite and Create React App, [run] throws the mode's error.
    Only the message of the task has changed by then: nothing is
    written. *)
Theorem provider_run_without_anchor (context : ProjectContext)
    (parseAst : string -> option node) (printAst : node -> string -> string)
    (w : world) (code : string) (ast : node) :
  files w !! abs (mainFile context) = Some code ->
  parseAst code = Some ast ->
  (forall q,
      anchorAt
        (match toolchain context with next => isReturned | _ => isRenderCall end)
        null ast q = false) ->
  run context parseAst printAst w
  = (Throw (match toolchain context with
            | next => CouldNotFindJsx
            | _ => CouldNotFindJsxInRender
            end),
     snd (updateMessage
            (message ++ " to " ++ h (rel (mainFile context)))%string w)).
Proof.
  intros Hc Hp Hnone. rewrite run_dispatch.
  now apply (configure_without_anchor _ _ _ _ _ _ code ast).
Qed.

(** X3: the effects of [run] on the file system, whatever the main file
    holds.  When [run] returns normally it has made one call, a write of
    the printed tree to the main file; when it throws it has made none
    and the files are as they were. *)
Theorem provider_run_effects (context : ProjectContext)
    (parseAst : string -> option node) (printAst : node -> string -> string)
    (w : world) :
  let done := run context parseAst printAst w in
  let accepts :=
    match toolchain context with next => isReturned | _ => isRenderCall end in
  match fst done with
  | Ok _ =>
      exists code ast,
        files w !! abs (mainFile context) = Some code
        /\ parseAst code = Some ast
        /\ providerWrapped (snd (transform accepts ast)) = true
        /\ calls (snd done)
           = calls w ++ [WriteFile (abs (mainFile context))
                           (printAst (fst (transform accepts ast)) code)]
        /\ files (snd done)
           = <[abs (mainFile context) :=
                 printAst (fst (transform accepts ast)) code]> (files w)
  | Throw _ => calls (snd done) = calls w /\ files (snd done) = files w
  end
  /\ directories (snd done) = directories w.
Proof.
  intros done accepts. unfold done. rewrite run_dispatch. fold accepts.
  set (w1 := snd (updateMessage _ w)).
  assert (H1 : files w1 = files w /\ calls w1 = calls w
               /\ directories w1 = directories w) by (split; [|split]; reflexivity).
  destruct H1 as (Hf & Hcs & Hd). rewrite <- Hf, <- Hcs, <- Hd.
  clearbody w1. clear Hf Hcs Hd.
  destruct (files w1 !! abs (mainFile context)) as [code|] eqn:Hc.
  - destruct (parseAst code) as [ast|] eqn:Hp.
    + rewrite (configure_parsed accepts _ _ _ _ _ code ast Hc Hp). simpl.
      destruct (providerWrapped (snd (transform accepts ast))) eqn:Hw.
      * split; [|now destruct (skipReason (snd (transform accepts ast)))].
        exists code, ast.
        destruct (skipReason (snd (transform accepts ast))); simpl; auto.
      * now destruct (skipReason (snd (transform accepts ast))).
    + unfold configure, seq, readFile. rewrite Hc, Hp. now simpl.
  - unfold configure, seq, readFile. rewrite Hc. now simpl.
Qed.

(** An instance of [configureViteOrCra_first_render_call]: of the two
    [render] calls of [twoRenders] the first gets the provider. *)
Lemma configureViteOrCra_first_render_call_witness :
  let ast := Scenarios.twoRenders in
  let p := [0; 0; 1] in
  let w := Examples.viteProject in
  let printAst := fun (_ : node) (text : string) => text in
  let traversed :=
    traverse (visitJSXElement isRenderCall) null ast (initial ast) in
  let printed :=
    Node (type_of (fst traversed))
      (unshifted ast (snd traversed) ++ children_of (fst traversed)) in
  let ensuredEnv := insertNamedImport (children_of ast) RELAY_ENV "" in
  let ensuredProvider :=
    insertNamedImport (snd ensuredEnv) RELAY_ENV_PROVIDER REACT_RELAY_PACKAGE in
  let envProviderId := jsxIdentifier (name_of (fst ensuredProvider)) in
  let done :=
    configureViteOrCra Examples.viteMainContext (fun _ => Some ast) printAst w in
  fst done = Ok tt
  /\ calls (snd done)
     = calls w ++ [WriteFile "/app/src/main.jsx" (printAst printed "main"%string)]
  /\ (forall q, precedes p q -> ~ above p q ->
                subtree q (fst traversed) = subtree q ast)
  /\ (exists jsx,
         subtree p ast = Some jsx
         /\ fst traversed
            = (if isJSXIdentifier (tagName_of jsx)
                  && String.eqb (name_of (tagName_of jsx)) (name_of envProviderId)
               then ast
               else replace_at p
                      (Node JSXElement
                       [ Node JSXOpeningElement
                           [ envProviderId;
                             Node JSXAttribute
                               [ jsxIdentifier "environment";
                                 Node JSXExpressionContainer [fst ensuredEnv] ] ];
                         Node JSXClosingElement [envProviderId];
                         jsx ])
                      ast)).
Proof.
  apply (configureViteOrCra_first_render_call Examples.viteMainContext
           (fun _ => Some Scenarios.twoRenders) (fun _ text => text)
           Examples.viteProject "main" Scenarios.twoRenders [0; 0; 1]);
    [reflexivity | reflexivity | reflexivity |].
  exact (proj2 (proj2 (firstAnchor_spec isRenderCall Scenarios.twoRenders null))).
Defined.

(** An instance of [provider_run_without_anchor]: a Vite main file that
    calls [hydrate]. *)
Lemma provider_run_without_anchor_witness :
  run Examples.viteMainContext (fun _ => Some Examples.hydrateMain)
    (fun _ text => text) Examples.viteProject
  = (Throw CouldNotFindJsxInRender,
     snd (updateMessage "Add RelayEnvironmentProvider to ./src/main.jsx"
            Examples.viteProject)).
Proof.
  apply (provider_run_without_anchor Examples.viteMainContext
           (fun _ => Some Examples.hydrateMain) (fun _ text => text)
           Examples.viteProject "main" Examples.hydrateMain);
    [reflexivity | reflexivity |].
  exact (firstAnchor_spec isRenderCall Examples.hydrateMain null).
Defined.

End ProviderTaskFacts.

(** ** tasks/AddRelayPluginConfigurationTask.ts: more on [configureNext] *)

Module NextConfigFacts.

Import Babel Task AddRelayPluginConfigurationTask ListFacts ConfigureNextFacts.

(** *** Children of a node *)

Lemma child_present (i : nat) (n : node) :
  type_of (child i n) <> Null -> i < length (children_of n).
Proof.
  intros H. destruct (Nat.lt_ge_cases i (length (children_of n))) as [|Hge];
    [assumption|].
  unfold child in H. rewrite nth_overflow in H by exact Hge. now destruct H.
Qed.

Lemma child_set_same (i : nat) (v n : node) :
  i < length (children_of n) -> child i (set_child i v n) = v.
Proof.
  intros H. destruct n as [ty cs]. unfold child. simpl in *.
  now rewrite nth_lookup, list_lookup_insert_eq.
Qed.

Lemma child_set_other (i j : nat) (v n : node) :
  i <> j -> child j (set_child i v n) = child j n.
Proof.
  intros H. destruct n as [ty cs]. unfold child. simpl.
  now rewrite !nth_lookup, list_lookup_insert_ne.
Qed.

Lemma type_set_child (i : nat) (v n : node) :
  type_of (set_child i v n) = type_of n.
Proof. now destruct n. Qed.

Lemma set_child_twice (i : nat) (v n : node) :
  set_child i v (set_child i v n) = set_child i v n.
Proof. destruct n as [ty cs]. simpl. now rewrite list_insert_insert_eq. Qed.

Lemma object_present (i : nat) (n : node) :
  isObjectExpression (child i n) = true -> i < length (children_of n).
Proof.
  intros H. apply child_present. unfold isObjectExpression in H.
  now destruct (type_of (child i n)).
Qed.

Lemma named_set_value (key : string) (v p : node) :
  isPropertyNamed key (set_child 1 v p) = isPropertyNamed key p.
Proof.
  unfold isPropertyNamed, isObjectProperty, key_of.
  now rewrite type_set_child, child_set_other.
Qed.

Section WithSettings.

Variable settings : ProjectSettings.

Lemma relayProperty_named :
  isPropertyNamed "relay" (relayProperty settings) = true.
Proof. reflexivity. Qed.

(** After [upsertRelay] the first [compiler] property holds an object
    literal with a [relay] property. *)
Lemma upsertRelay_post (properties properties' : list node) :
  upsertRelay settings properties = Ok properties' ->
  exists compiler,
    find (isPropertyNamed "compiler") properties' = Some compiler
    /\ isObjectExpression (value_of compiler) = true
    /\ is_Some (find (isPropertyNamed "relay") (children_of (value_of compiler))).
Proof.
  destruct (find (isPropertyNamed "compiler") properties) as [c|] eqn:E.
  - rewrite (upsertRelay_present _ _ _ E).
    destruct (isObjectExpression (value_of c)) eqn:Eo; [|discriminate]. simpl.
    destruct (find (isPropertyNamed "relay") _) as [r|] eqn:Er.
    + intros [= <-]. exists c. rewrite Er. eauto.
    + intros [= <-].
      destruct (find_split _ _ _ E) as (before & after & -> & Hb & Hc).
      rewrite update_first_here by assumption.
      eexists. split; [|split].
      * apply find_here; [assumption|]. now rewrite named_set_value.
      * unfold value_of.
        rewrite child_set_same by now apply object_present.
        now rewrite push_object.
      * unfold value_of at 1.
        rewrite child_set_same by now apply object_present.
        rewrite push_object by assumption. simpl.
        rewrite (find_here _ _ [] _ Er relayProperty_named). eauto.
  - rewrite (upsertRelay_absent _ _ E). intros [= <-].
    eexists. split; [|split].
    + now apply find_here.
    + reflexivity.
    + simpl. eauto.
Qed.

(** X4: [upsertRelay] is idempotent.  The property list it returns has a
    [compiler] property whose value is an object literal with a [relay]
    property, and a second call returns that list as it is. *)
Theorem upsertRelay_idempotent (properties properties' : list node) :
  upsertRelay settings properties = Ok properties' ->
  upsertRelay settings properties' = Ok properties'
  /\ exists compiler,
       find (isPropertyNamed "compiler") properties' = Some compiler
       /\ isObjectExpression (value_of compiler) = true
       /\ is_Some (find (isPropertyNamed "relay")
                     (children_of (value_of compiler))).
Proof.
  intros H. destruct (upsertRelay_post _ _ H) as (c & Hc & Ho & [r Hr]).
  split; [|exists c; rewrite Hr; eauto].
  now rewrite (upsertRelay_present _ _ _ Hc), Ho, Hr.
Qed.


(** *** A second run on a module with one assignment *)

Lemma lookup_middle_ne {A} (l1 l2 : list A) (x y : A) (i : nat) :
  i <> length l1 -> (l1 ++ y :: l2) !! i = (l1 ++ x :: l2) !! i.
Proof.
  revert i. induction l1 as [|a l1 IH]; intros [|i] H; simpl in *;
    try reflexivity; try (now destruct H).
  apply IH. lia.
Qed.

Lemma alter_again {A} (f : A -> A) (i : nat) (l : list A) :
  (forall x, f (f x) = f x) -> alter f i (alter f i l) = alter f i l.
Proof.
  intros Hf. revert i. induction l as [|a l IH]; intros [|i]; simpl;
    try reflexivity.
  - now rewrite Hf.
  - f_equal. apply IH.
Qed.

Lemma replace_at_again (p : position) (r n : node) :
  replace_at p r (replace_at p r n) = replace_at p r n.
Proof.
  revert n. induction p as [|i p IH]; intros [ty cs]; simpl; [reflexivity|].
  f_equal. now apply alter_again.
Qed.

(** A replacement leaves alone what lies neither below nor above it. *)
Lemma subtree_replace_at_apart (p q : position) (r n : node) :
  ~ above p q -> ~ above q p ->
  subtree q (replace_at p r n) = subtree q n.
Proof.
  revert q n. induction p as [|i p IH]; intros q n Hpq Hqp; simpl in *;
    [tauto|].
  destruct q as [|j q]; simpl in *; [tauto|]. destruct n as [ty cs]. simpl.
  destruct (Nat.eq_dec i j) as [->|Hne].
  - rewrite list_lookup_alter_eq. destruct (cs !! j) as [c|]; [|reflexivity].
    simpl. apply IH; tauto.
  - now rewrite list_lookup_alter_ne.
Qed.

Lemma upsertRelay_again (properties properties' : list node) :
  upsertRelay settings properties = Ok properties' ->
  upsertRelay settings properties' = Ok properties'.
Proof.
  intros H. destruct (upsertRelay_post _ _ H) as (c & Hc & Ho & [r Hr]).
  now rewrite (upsertRelay_present _ _ _ Hc), Ho, Hr.
Qed.

(** A second call of the visitor at the same assignment changes
    nothing, when the name resolves as it did and the declarator it
    resolves to lies neither in the assignment nor around it. *)
Lemma visitAssignmentExpression_again
    (scope scope1 : position -> string -> option position)
    (ast ast1 e : node) (pos : position) :
  subtree pos ast = Some e ->
  (forall name b, scope pos name = Some b -> ~ above pos b /\ ~ above b pos) ->
  (forall name, scope1 pos name = scope pos name) ->
  visitAssignmentExpression settings scope pos e ast = Ok ast1 ->
  visitAt settings scope1 pos ast1 = Ok ast1.
Proof.
  intros Hsub Hapart Hsame.
  unfold visitAssignmentExpression at 1.
  destruct (negb (String.eqb (operator_of e) "=") || negb (isModuleExports (left_of e)))
    eqn:Etest; [discriminate|].
  destruct (isIdentifier (right_of e)) eqn:Eid.
  - destruct (scope pos _) as [b|] eqn:Eb; [|discriminate]. cbv zeta.
    set (binding := default null (subtree b ast)).
    destruct (isVariableDeclarator binding) eqn:Ev; [|discriminate].
    destruct (isObjectExpression (init_of binding)) eqn:Eo; [|discriminate].
    cbn [negb orb].
    destruct (upsertRelay settings _) as [properties|] eqn:Eu; [|discriminate].
    unfold bind. intros Hast.
    set (g := set_child 1 (Node ObjectExpression properties) binding) in *.
    assert (Hast1 : ast1 = replace_at b g ast) by congruence.
    subst ast1. clear Hast.
    assert (Hfound : subtree b ast = Some binding) by now apply declarator_found.
    destruct (Hapart _ _ Eb) as [Hpb Hbp].
    assert (Hlen : 1 < length (children_of binding)) by now apply object_present.
    unfold visitAt. rewrite subtree_replace_at_apart, Hsub by assumption.
    unfold visitAssignmentExpression. rewrite Etest, Eid, Hsame, Eb. cbv zeta.
    rewrite JsxHostFacts.subtree_replace_at_self by (rewrite Hfound; eauto).
    change (default null (Some g)) with g.
    assert (Hv : isVariableDeclarator g = true)
      by (unfold isVariableDeclarator, g; rewrite type_set_child; exact Ev).
    assert (Hi : init_of g = Node ObjectExpression properties)
      by (unfold init_of, g; now rewrite child_set_same).
    rewrite Hv, Hi.
    cbn [isObjectExpression type_of children_of negb orb].
    rewrite (upsertRelay_again _ _ Eu). unfold bind.
    unfold g at 1. rewrite set_child_twice. fold g.
    f_equal. apply replace_at_again.
  - destruct (isObjectExpression (right_of e)) eqn:Eo; [|discriminate].
    destruct (upsertRelay settings _) as [properties|] eqn:Eu; [|discriminate].
    unfold bind. intros Hast.
    assert (Hast1 : ast1 = replace_at pos
                             (set_child 1 (Node ObjectExpression properties) e) ast)
      by congruence.
    subst ast1. clear Hast.
    set (e' := set_child 1 (Node ObjectExpression properties) e).
    assert (Hlen : 1 < length (children_of e)) by now apply object_present.
    unfold visitAt.
    rewrite JsxHostFacts.subtree_replace_at_self by (rewrite Hsub; eauto).
    unfold visitAssignmentExpression.
    assert (Hop : operator_of e' = operator_of e)
      by (unfold operator_of, e'; now rewrite type_set_child).
    assert (Hl : left_of e' = left_of e)
      by (unfold left_of, e'; now rewrite child_set_other).
    assert (Hr : right_of e' = Node ObjectExpression properties)
      by (unfold right_of, e'; now rewrite child_set_same).
    rewrite Hop, Hl, Etest, Hr.
    cbn [isIdentifier isObjectExpression type_of children_of].
    rewrite (upsertRelay_again _ _ Eu). unfold bind.
    unfold e' at 1. rewrite set_child_twice. fold e'.
    f_equal. apply replace_at_again.
Qed.

Variable getBinding : node -> position -> string -> option position.

(** X6: [configureNext] is idempotent on a file with one assignment
    expression, whether [module.exports] is given an object literal or
    the name of one, wherever the declarator of the name stands apart
    from the assignment: the tree the first traversal returns has its
    assignment at the same place, and a second traversal, in which the
    name resolves to the same declarator, returns it as it is. *)
Theorem configureNextAst_idempotent (ast ast1 : node) (pos : position) :
  assignmentPositions ast = [pos] ->
  (forall name b,
      getBinding ast pos name = Some b -> ~ above pos b /\ ~ above b pos) ->
  (forall name, getBinding ast1 pos name = getBinding ast pos name) ->
  configureNextAst settings getBinding ast = Ok ast1 ->
  assignmentPositions ast1 = [pos]
  /\ configureNextAst settings getBinding ast1 = Ok ast1.
Proof.
  intros Hpos Hapart Hsame. unfold configureNextAst. rewrite Hpos.
  cbn [visitAll].
  destruct (visitAt settings (getBinding ast) pos ast) as [ast'|] eqn:Ev;
    [|discriminate].
  unfold bind. intros Hast. assert (ast' = ast1) by congruence. subst ast'.
  clear Hast.
  assert (Hk : assignmentPositions ast1 = [pos]).
  { rewrite <- Hpos. symmetry. exact (visitAt_keeps settings _ _ _ _ Ev). }
  split; [exact Hk|]. rewrite Hk. cbn [visitAll].
  assert (Hagain : visitAt settings (getBinding ast1) pos ast1 = Ok ast1).
  { unfold visitAt in Ev. destruct (subtree pos ast) as [e|] eqn:Hsub.
    - exact (visitAssignmentExpression_again (getBinding ast) (getBinding ast1)
               ast ast1 e pos Hsub Hapart Hsame Ev).
    - assert (ast1 = ast) by congruence. subst ast1.
      unfold visitAt. now rewrite Hsub. }
  now rewrite Hagain.
Qed.

End WithSettings.

(** An instance of [upsertRelay_idempotent]. *)
Lemma upsertRelay_idempotent_witness :
  upsertRelay Examples.nextSettings Scenarios.strictWithRelay
  = Ok Scenarios.strictWithRelay
  /\ exists compiler,
       find (isPropertyNamed "compiler") Scenarios.strictWithRelay = Some compiler
       /\ isObjectExpression (value_of compiler) = true
       /\ is_Some (find (isPropertyNamed "relay")
                     (children_of (value_of compiler))).
Proof.
  apply (upsertRelay_idempotent Examples.nextSettings Scenarios.strictOnly).
  reflexivity.
Defined.

(** An instance of [configureNextAst_idempotent]: [Examples.nextConfig],
    whose declarator is the first statement and whose assignment is the
    second. *)
Lemma configureNextAst_idempotent_witness :
  assignmentPositions Scenarios.nextConfigDone = [[1; 0]]
  /\ configureNextAst Examples.nextSettings Scenarios.nextConfigScope
       Scenarios.nextConfigDone
     = Ok Scenarios.nextConfigDone.
Proof.
  apply (configureNextAst_idempotent Examples.nextSettings
           Scenarios.nextConfigScope Examples.nextConfig
           Scenarios.nextConfigDone [1; 0]);
    try reflexivity.
  intros name b. unfold Scenarios.nextConfigScope.
  destruct (String.eqb name "nextConfig"); [|discriminate].
  intros [= <-]. simpl. split; intros [H _]; discriminate H.
Defined.

End NextConfigFacts.

(** ** tasks/AddRelayPluginConfigurationTask.ts: the task on files *)

Module PluginTaskFacts.

Import Babel Task AddRelayPluginConfigurationTask Shapes.
Import ListFacts ConfigureNextFacts ConfigureViteFacts NextConfigFacts.

Section WithSettings.

Variable settings : ProjectSettings.
Variable getBinding : node -> position -> string -> option position.
Variable parseAst : string -> option node.
Variable printAst : node -> string -> string.

Lemma configureNext_parsed (w : world) (path code : string) (ast : node) :
  Helpers.findFileInDirectory (readdir w) (projectRootDirectory settings)
    NEXTJS_CONFIG_FILE = Some path ->
  files w !! path = Some code ->
  parseAst code = Some ast ->
  configureNext settings getBinding parseAst printAst w =
  match configureNextAst settings getBinding ast with
  | Ok ast1 => writeFile path (printAst ast1 code) w
  | Throw e => (Throw e, w)
  end.
Proof.
  intros Hf Hc Hp. unfold configureNext, seq, findFileInDirectory. rewrite Hf.
  rewrite (ConfigureNextFacts.found_truthy _ _ _ _ Hf). simpl.
  unfold readFile. rewrite Hc, Hp. unfold lift.
  now destruct (configureNextAst settings getBinding ast).
Qed.

Lemma configureVite_parsed (w : world) (path code : string) (ast : node) :
  Helpers.findFileInDirectory (readdir w) (projectRootDirectory settings)
    (configFilename settings) = Some path ->
  files w !! path = Some code ->
  parseAst code = Some ast ->
  configureVite settings parseAst printAst w =
  match configureViteAst ast with
  | Ok ast1 => writeFile path (printAst ast1 code) w
  | Throw e => (Throw e, w)
  end.
Proof.
  intros Hf Hc Hp. unfold configureVite, seq, findFileInDirectory. rewrite Hf.
  rewrite (ConfigureNextFacts.found_truthy _ _ _ _ Hf). simpl.
  unfold readFile. rewrite Hc, Hp. unfold lift.
  now destruct (configureViteAst ast).
Qed.

(** X7: [configureNext] on a module whose one assignment expression is
    the statement [module.exports = { ... }]: the object literal itself
    is handed to [upsertRelay] and is changed in place; the file is
    written once, with the printed tree, and not at all when
    [upsertRelay] throws. *)
Theorem configureNext_object_literal (w : world) (path code : string)
    (ast : node) (i : nat) (s : node) :
  Helpers.findFileInDirectory (readdir w) (projectRootDirectory settings)
    NEXTJS_CONFIG_FILE = Some path ->
  files w !! path = Some code ->
  parseAst code = Some ast ->
  children_of ast !! i = Some s ->
  isAssignmentStatement s = true ->
  assignmentPositions ast = [[i; 0]] ->
  operator_of (expression_of s) = "="%string ->
  isModuleExports (left_of (expression_of s)) = true ->
  isObjectExpression (right_of (expression_of s)) = true ->
  configureNext settings getBinding parseAst printAst w =
  match upsertRelay settings (children_of (right_of (expression_of s))) with
  | Ok properties =>
      writeFile path
        (printAst
           (replace_at [i; 0]
              (set_child 1 (Node ObjectExpression properties) (expression_of s))
              ast)
           code)
        w
  | Throw e => (Throw e, w)
  end.
Proof.
  intros Hf Hc Hp Hi Hs Hpos Hop Hl Hr.
  rewrite (configureNext_parsed w path code ast Hf Hc Hp).
  unfold configureNextAst. rewrite Hpos.
  unfold visitAll, visitAt. cbn [subtree]. rewrite Hi.
  rewrite expression_lookup
    by (unfold isAssignmentStatement in Hs; now destruct (andb_prop _ _ Hs)).
  unfold visitAssignmentExpression. rewrite Hop, Hl, Hr. cbn [String.eqb negb orb].
  replace (isIdentifier (right_of (expression_of s))) with false.
  - cbn [String.eqb Ascii.eqb Bool.eqb negb orb].
    now destruct (upsertRelay settings _).
  - unfold isObjectExpression in Hr. unfold isIdentifier.
    now destruct (type_of (right_of (expression_of s))).
Qed.

(** X8: two edges of [configureNext].  A config file without any
    assignment expression is no error: the visitor is never called, and
    the task writes the print of the tree as parsed and returns.  When
    the first assignment expression of the file, in visiting order, is
    not [module.exports = <name>] or [module.exports = { ... }], the
    task throws the error about [module.exports] and the world is as it
    was: nothing is written. *)
Theorem configureNext_edges (w : world) (path code : string) (ast : node) :
  Helpers.findFileInDirectory (readdir w) (projectRootDirectory settings)
    NEXTJS_CONFIG_FILE = Some path ->
  files w !! path = Some code ->
  parseAst code = Some ast ->
  (assignmentPositions ast = [] ->
   configureNext settings getBinding parseAst printAst w
   = writeFile path (printAst ast code) w)
  /\ (forall pos rest e,
        assignmentPositions ast = pos :: rest ->
        subtree pos ast = Some e ->
        handled e = false ->
        configureNext settings getBinding parseAst printAst w
        = (Throw ExpectedModuleExports, w)).
Proof.
  intros Hf Hc Hp.
  rewrite (configureNext_parsed w path code ast Hf Hc Hp).
  unfold configureNextAst. split.
  - now intros ->.
  - intros pos rest e -> He Hh. cbn [visitAll]. unfold visitAt.
    rewrite He. unfold visitAssignmentExpression. unfold handled in Hh.
    destruct (String.eqb (operator_of e) "="); [|reflexivity].
    destruct (isModuleExports (left_of e)); [|reflexivity].
    simpl in Hh. apply orb_false_elim in Hh as [-> ->]. reflexivity.
Qed.

(** X9: the effects of [run], whatever the project holds.  When [run]
    returns normally the toolchain is Vite or Next.js and one call was
    made, a write to the config file found in the project root; when it
    throws the world is as it was.  Create React App is refused, and a
    config file that is not found is reported under its name. *)
Theorem plugin_run_effects (w : world) :
  let done := run settings getBinding parseAst printAst w in
  let filename :=
    match toolchain settings with
    | vite => configFilename settings
    | _ => NEXTJS_CONFIG_FILE
    end in
  let found :=
    Helpers.findFileInDirectory (readdir w) (projectRootDirectory settings)
      filename in
  match fst done with
  | Ok _ =>
      toolchain settings <> cra
      /\ exists path code text,
           found = Some path
           /\ files w !! path = Some code
           /\ snd done = snd (writeFile path text w)
  | Throw e =>
      snd done = w
      /\ (toolchain settings = cra -> e = UnsupportedToolchain)
      /\ (toolchain settings <> cra -> found = None -> e = FileNotFound filename)
  end.
Proof.
  unfold run. destruct (toolchain settings) eqn:Et; cbv zeta.
  - destruct (Helpers.findFileInDirectory _ _ (configFilename settings))
      as [path|] eqn:Hf.
    + destruct (files w !! path) as [code|] eqn:Hc.
      * destruct (parseAst code) as [ast|] eqn:Hp.
        -- rewrite (configureVite_parsed w path code ast Hf Hc Hp).
           destruct (configureViteAst ast) as [ast1|e]; simpl.
           ++ split; [discriminate|]. now exists path, code, (printAst ast1 code).
           ++ repeat split; discriminate.
        -- unfold configureVite, seq, findFileInDirectory. rewrite Hf.
           rewrite (ConfigureNextFacts.found_truthy _ _ _ _ Hf). simpl.
           unfold readFile. rewrite Hc, Hp. simpl. repeat split; discriminate.
      * unfold configureVite, seq, findFileInDirectory. rewrite Hf.
        rewrite (ConfigureNextFacts.found_truthy _ _ _ _ Hf). simpl.
        unfold readFile. rewrite Hc. simpl. repeat split; discriminate.
    + unfold configureVite, seq, findFileInDirectory. rewrite Hf. simpl.
      repeat split; discriminate.
  - destruct (Helpers.findFileInDirectory _ _ NEXTJS_CONFIG_FILE)
      as [path|] eqn:Hf.
    + destruct (files w !! path) as [code|] eqn:Hc.
      * destruct (parseAst code) as [ast|] eqn:Hp.
        -- rewrite (configureNext_parsed w path code ast Hf Hc Hp).
           destruct (configureNextAst settings getBinding ast) as [ast1|e]; simpl.
           ++ split; [discriminate|]. now exists path, code, (printAst ast1 code).
           ++ repeat split; discriminate.
        -- unfold configureNext, seq, findFileInDirectory. rewrite Hf.
           rewrite (ConfigureNextFacts.found_truthy _ _ _ _ Hf). simpl.
           unfold readFile. rewrite Hc, Hp. simpl. repeat split; discriminate.
      * unfold configureNext, seq, findFileInDirectory. rewrite Hf.
        rewrite (ConfigureNextFacts.found_truthy _ _ _ _ Hf). simpl.
        unfold readFile. rewrite Hc. simpl. repeat split; discriminate.
    + unfold configureNext, seq, findFileInDirectory. rewrite Hf. simpl.
      repeat split; discriminate.
  - simpl. repeat split; try reflexivity. now intros H.
Qed.

End WithSettings.

(** *** configureVite *)






Lemma mapM_each {A B} (f : A -> result B) (l : list A) (l' : list B) :
  mapM f l = Ok l' -> Forall2 (fun x y => f x = Ok y) l l'.
Proof.
  revert l'. induction l as [|x l IH]; intros l'; simpl.
  - intros [= <-]. constructor.
  - destruct (f x) as [y|] eqn:Ex; [|discriminate]. simpl.
    destruct (mapM f l) as [ys|]; [|discriminate]. simpl. intros [= <-].
    constructor; auto.
Qed.





Lemma visitStatement_keeps (s s' : node) :
  visitStatement s = Ok s' ->
  type_of s' = type_of s /\ (isExportDefaultDeclaration s = false -> s' = s).
Proof.
  unfold visitStatement.
  destruct (isExportDefaultDeclaration s) eqn:E.
  - intros H. destruct (visitExportDefaultDeclaration_idem _ _ H) as (_ & Ht & _).
    split; [exact Ht | discriminate].
  - now intros [= <-].
Qed.

(** X12: what [configureVite] leaves alone.  The root keeps its type, the
    statements of the module keep their number, order and types, and
    every statement that is not a default export is as it was; in front
    of them comes at most one new statement, the default import of
    [relay] from [vite-plugin-relay], and only when no import
    declaration of the module has a default specifier named [relay]. *)
Theorem configureViteAst_keeps (ast ast1 : node) :
  configureViteAst ast = Ok ast1 ->
  type_of ast1 = type_of ast
  /\ exists body',
       children_of ast1
       = (if isProgram ast && negb (hasRelayImport (children_of ast))
          then [importDeclaration [importDefaultSpecifier (identifier "relay")]
                  (stringLiteral "vite-plugin-relay")]
          else [])
         ++ body'
       /\ Forall2 (fun s s' =>
                     type_of s' = type_of s
                     /\ (isExportDefaultDeclaration s = false -> s' = s))
            (children_of ast) body'.
Proof.
  unfold configureViteAst. cbv zeta.
  destruct (mapM visitStatement _) as [body1|] eqn:E; [|discriminate].
  simpl. intros [= <-]. split; [reflexivity|]. simpl.
  apply mapM_each in E.
  assert (Hk : forall l l',
             Forall2 (fun s s' => visitStatement s = Ok s') l l' ->
             Forall2 (fun s s' =>
                        type_of s' = type_of s
                        /\ (isExportDefaultDeclaration s = false -> s' = s)) l l').
  { induction 1; constructor; auto using visitStatement_keeps. }
  destruct (isProgram ast); simpl.
  - unfold visitProgram in E. destruct (hasRelayImport (children_of ast)); simpl.
    + exists body1. auto.
    + inversion E as [|s s' l l' Hs Hl]; subst.
      injection Hs as <-. exists l'. auto.
  - exists body1. auto.
Qed.

(** *** Instances *)

(** An instance of [configureNext_object_literal]. *)
Lemma configureNext_object_literal_witness :
  configureNext Examples.nextSettings (fun _ _ _ => None)
    (fun _ => Some Scenarios.nextLiteral)
    (fun _ text => text) (Examples.world_with "next.config.js" "module")
  = match
      upsertRelay Examples.nextSettings
        (children_of
           (right_of
              (expression_of
                 (Scenarios.exportsAssignment
                    (objectExpression Scenarios.strictOnly)))))
    with
    | Ok properties =>
        writeFile "/app/next.config.js"
          ((fun (_ : node) (text : string) => text)
             (replace_at [0; 0]
                (set_child 1 (Node ObjectExpression properties)
                   (expression_of
                      (Scenarios.exportsAssignment
                         (objectExpression Scenarios.strictOnly))))
                Scenarios.nextLiteral)
             "module"%string)
          (Examples.world_with "next.config.js" "module")
    | Throw e => (Throw e, Examples.world_with "next.config.js" "module")
    end.
Proof.
  apply (configureNext_object_literal Examples.nextSettings
           (fun _ _ _ => None) (fun _ => Some Scenarios.nextLiteral) (fun _ text => text)
           (Examples.world_with "next.config.js" "module")
           "/app/next.config.js" "module" Scenarios.nextLiteral 0
           (Scenarios.exportsAssignment (objectExpression Scenarios.strictOnly)));
    reflexivity.
Defined.

(** An instance of [configureNext_edges]: a config that is wrapped in a
    call. *)
Lemma configureNext_edges_witness :
  let w := Examples.world_with "next.config.js" "module" in
  let done :=
    configureNext Examples.nextSettings (fun _ _ _ => None)
      (fun _ => Some Scenarios.nextWrapped)
      (fun _ text => text) w in
  (assignmentPositions Scenarios.nextWrapped = [] ->
   done = writeFile "/app/next.config.js" "module" w)
  /\ (forall pos rest e,
        assignmentPositions Scenarios.nextWrapped = pos :: rest ->
        subtree pos Scenarios.nextWrapped = Some e ->
        handled e = false ->
        done = (Throw ExpectedModuleExports, w)).
Proof.
  apply (configureNext_edges Examples.nextSettings
           (fun _ _ _ => None) (fun _ => Some Scenarios.nextWrapped) (fun _ text => text)
           (Examples.world_with "next.config.js" "module")
           "/app/next.config.js" "module" Scenarios.nextWrapped);
    reflexivity.
Defined.


(** An instance of [configureViteAst_keeps]. *)
Lemma configureViteAst_keeps_witness :
  type_of Scenarios.viteConfigDone = type_of Examples.viteConfig
  /\ exists body',
       children_of Scenarios.viteConfigDone
       = (if isProgram Examples.viteConfig
             && negb (hasRelayImport (children_of Examples.viteConfig))
          then [importDeclaration [importDefaultSpecifier (identifier "relay")]
                  (stringLiteral "vite-plugin-relay")]
          else [])
         ++ body'
       /\ Forall2 (fun s s' =>
                     type_of s' = type_of s
                     /\ (isExportDefaultDeclaration s = false -> s' = s))
            (children_of Examples.viteConfig) body'.
Proof.
  apply (configureViteAst_keeps Examples.viteConfig Scenarios.viteConfigDone).
  reflexivity.
Defined.

End PluginTaskFacts.

(** ** tasks/AddRelayEnvironmentTask.ts *)

Module EnvTaskFacts.

Import Babel Task Utils AddRelayEnvironmentTask.
Import ListFacts TreeFacts.

(** Children the traversal returns as they are stay where they are. *)
Lemma visitChildren_idle {S : Type} (visit : node -> node -> S -> action * S)
    (ty : ntype) (remaining visited : list node) (s : S) :
  Forall (fun c =>
            traverse visit (Node ty (visited ++ remaining)) c s = (c, s))
         remaining ->
  visitChildren visit ty visited remaining s = (visited ++ remaining, s).
Proof.
  revert visited. induction remaining as [|c rest IH]; intros visited H.
  - now rewrite app_nil_r.
  - rewrite visitChildren_cons. inversion H as [|? ? Hc Hrest]; subst.
    rewrite Hc. cbv beta iota. rewrite IH; rewrite <- app_assoc; [reflexivity|].
    exact Hrest.
Qed.

(** Where no JSX element is an argument of a [render] call the visitor
    of [configureVite] changes neither the tree nor the imports. *)
Lemma traverse_without_render (n parent : node) (program : list node) :
  (forall q,
      AddRelayEnvironmentProviderTask.anchorAt
        AddRelayEnvironmentProviderTask.isRenderCall parent n q = false) ->
  traverse visitJSXElement parent n program = (n, program).
Proof.
  revert parent. induction n as [ty cs IH] using node_ind. intros parent Hnone.
  rewrite traverse_unfold.
  assert (Hv : (if isJSXElement (Node ty cs)
                then visitJSXElement parent (Node ty cs) program
                else (Continue, program)) = (Continue, program)).
  { destruct (isJSXElement (Node ty cs)) eqn:Ej; [|reflexivity].
    specialize (Hnone []). simpl in Hnone. rewrite Ej in Hnone.
    unfold visitJSXElement. simpl in Hnone. now rewrite Hnone. }
  rewrite Hv. cbv beta iota.
  rewrite visitChildren_idle; [reflexivity|]. simpl.
  rewrite List.Forall_forall in IH. apply List.Forall_forall. intros c Hc.
  assert (Hc' := Hc).
  apply IH; [exact Hc|]. intros q. apply list_elem_of_In, list_elem_of_lookup in Hc' as [i Hi].
  specialize (Hnone (i :: q)). simpl in Hnone. now rewrite Hi in Hnone.
Qed.

Section WithSettings.

Variable settings : ProjectSettings.
Variable VITE_MAIN_FILE_NO_EXT : string.
Variable VITE_RELAY_ENV_FILE_NO_EXT : string.
Variable parseAst : string -> option node.
Variable printAst : node -> string -> string.

Lemma transform_without_render (ast : node) :
  (forall q,
      AddRelayEnvironmentProviderTask.anchorAt
        AddRelayEnvironmentProviderTask.isRenderCall null ast q = false) ->
  transform ast = ast.
Proof.
  intros Hnone. unfold transform.
  rewrite (traverse_without_render ast null (children_of ast) Hnone).
  rewrite Nat.sub_diag. now destruct ast.
Qed.

(** X13: [configureVite] copies the environment file before it looks
    for the main file.  When the asset to copy is missing, or the
    directory the copy is to lie in does not exist, the task throws with
    the world as it was; when the copy can be made and the main file is
    not found, the task throws the not-found error after the copy: the
    environment file stays in the project and it is the only call
    made. *)
Theorem configureVite_copies_first (w : world) :
  let source :=
    NodePath.join (ownPackageDirectory settings)
      (if useTypescript settings then "./assets/env_ts" else "./assets/env") in
  let destination :=
    NodePath.join (projectRootDirectory settings)
      (VITE_RELAY_ENV_FILE_NO_EXT
       ++ (if useTypescript settings then ".ts" else ".js")) in
  let relativeMainFilepath :=
    (VITE_MAIN_FILE_NO_EXT
     ++ (if useTypescript settings then ".tsx" else ".jsx"))%string in
  let searchDirectory :=
    NodePath.dirname
      (NodePath.join (projectRootDirectory settings) relativeMainFilepath) in
  let done :=
    configureVite settings VITE_MAIN_FILE_NO_EXT VITE_RELAY_ENV_FILE_NO_EXT
      parseAst printAst w in
  (files w !! source = None -> done = (Throw (IOError source), w))
  /\ (forall text,
        files w !! source = Some text ->
        isDirectory w (NodePath.dirname destination) = false ->
        done = (Throw (IOError destination), w))
  /\ (forall text,
        files w !! source = Some text ->
        isDirectory w (NodePath.dirname destination) = true ->
        Helpers.listed (readdir w) searchDirectory
          (NodePath.basename relativeMainFilepath) = false ->
        fst done = Throw (FileNotFound relativeMainFilepath)
        /\ calls (snd done) = calls w ++ [CopyFile source destination]
        /\ files (snd done) = <[destination := text]> (files w)).
Proof.
  intros source destination relativeMainFilepath searchDirectory done.
  unfold done, configureVite, seq, addRelayEnvironmentFile, copyFile.
  fold source. fold destination. split; [|split].
  - now intros ->.
  - now intros text -> ->.
  - intros text -> -> Hl. fold relativeMainFilepath. fold searchDirectory.
    unfold findFileInDirectory, Helpers.findFileInDirectory. simpl.
    unfold Helpers.listed in Hl.
    destruct (readdir w searchDirectory) as [filenames|]; [|now simpl].
    rewrite Hl. now simpl.
Qed.

(** X14: [configureVite] has no check that something was wrapped.  On a
    main file in which no JSX element is an argument of a [render] call
    the traversal returns the tree as parsed, without a new import, and
    the task still writes the main file, with the print of that tree,
    after the copy of the environment file into its existing directory,
    and returns normally. *)
Theorem configureVite_without_render (w : world) (text path code : string)
    (ast : node) :
  let source :=
    NodePath.join (ownPackageDirectory settings)
      (if useTypescript settings then "./assets/env_ts" else "./assets/env") in
  let destination :=
    NodePath.join (projectRootDirectory settings)
      (VITE_RELAY_ENV_FILE_NO_EXT
       ++ (if useTypescript settings then ".ts" else ".js")) in
  let relativeMainFilepath :=
    (VITE_MAIN_FILE_NO_EXT
     ++ (if useTypescript settings then ".tsx" else ".jsx"))%string in
  let searchDirectory :=
    NodePath.dirname
      (NodePath.join (projectRootDirectory settings) relativeMainFilepath) in
  files w !! source = Some text ->
  isDirectory w (NodePath.dirname destination) = true ->
  Helpers.findFileInDirectory (readdir w) searchDirectory
    (NodePath.basename relativeMainFilepath) = Some path ->
  <[destination := text]> (files w) !! path = Some code ->
  parseAst code = Some ast ->
  (forall q,
      AddRelayEnvironmentProviderTask.anchorAt
        AddRelayEnvironmentProviderTask.isRenderCall null ast q = false) ->
  transform ast = ast
  /\ configureVite settings VITE_MAIN_FILE_NO_EXT VITE_RELAY_ENV_FILE_NO_EXT
       parseAst printAst w
     = writeFile path (printAst ast code) (snd (copyFile source destination w)).
Proof.
  intros source destination relativeMainFilepath searchDirectory
    Hs Hd Hf Hc Hp Hnone.
  split; [now apply transform_without_render|].
  unfold configureVite, seq, addRelayEnvironmentFile, copyFile.
  fold source. fold destination. rewrite Hs, Hd.
  fold relativeMainFilepath. fold searchDirectory.
  unfold findFileInDirectory. cbn [readdir]. rewrite Hf.
  rewrite (ConfigureNextFacts.found_truthy _ _ _ _ Hf). cbn [negb].
  unfold readFile. cbn [files]. rewrite Hc, Hp.
  now rewrite (transform_without_render ast Hnone).
Qed.

End WithSettings.

(** Two instances of [configureVite_copies_first]: a project whose
    [src] directory holds no main file, and a project without [src]
    directory. *)
Lemma configureVite_copies_first_witness :
  (let done :=
     configureVite Examples.viteMainSettings "src/main" "src/RelayEnvironment"
       (fun _ => None) (fun _ text => text) Scenarios.assetOnly in
   fst done = Throw (FileNotFound "src/main.jsx")
   /\ calls (snd done)
      = calls Scenarios.assetOnly
        ++ [CopyFile "/pkg/assets/env" "/app/src/RelayEnvironment.js"]
   /\ files (snd done)
      = <["/app/src/RelayEnvironment.js"%string := "env"%string]>
          (files Scenarios.assetOnly))
  /\ configureVite Examples.viteMainSettings "src/main" "src/RelayEnvironment"
       (fun _ => None) (fun _ text => text) Scenarios.withoutSrc
     = (Throw (IOError "/app/src/RelayEnvironment.js"), Scenarios.withoutSrc).
Proof.
  split.
  - apply (proj2 (proj2 (configureVite_copies_first Examples.viteMainSettings
                           "src/main" "src/RelayEnvironment" (fun _ => None)
                           (fun _ text => text) Scenarios.assetOnly))
             "env"%string);
      reflexivity.
  - apply (proj1 (proj2 (configureVite_copies_first Examples.viteMainSettings
                           "src/main" "src/RelayEnvironment" (fun _ => None)
                           (fun _ text => text) Scenarios.withoutSrc))
             "env"%string);
      reflexivity.
Defined.

(** An instance of [configureVite_without_render]: a main file that
    calls [hydrate]. *)
Lemma configureVite_without_render_witness :
  transform Examples.hydrateMain = Examples.hydrateMain
  /\ configureVite Examples.viteMainSettings "src/main" "src/RelayEnvironment"
       (fun _ => Some Examples.hydrateMain) (fun _ text => text)
       Examples.viteProject
     = writeFile "/app/src/main.jsx" "main"
         (snd (copyFile "/pkg/assets/env" "/app/src/RelayEnvironment.js"
                 Examples.viteProject)).
Proof.
  apply (configureVite_without_render Examples.viteMainSettings
           "src/main" "src/RelayEnvironment"
           (fun _ => Some Examples.hydrateMain) (fun _ text => text)
           Examples.viteProject "env" "/app/src/main.jsx" "main"
           Examples.hydrateMain);
    [reflexivity | reflexivity | reflexivity | reflexivity | reflexivity |].
  exact (JsxHostFacts.firstAnchor_spec
           AddRelayEnvironmentProviderTask.isRenderCall Examples.hydrateMain null).
Defined.

End EnvTaskFacts.

(** ** helpers.ts: file names and argument objects *)

Module HelpersMoreFacts.

Import NodePath NodePathMore HelpersMore.

(** *** removeExtension *)

Lemma lastIndexOf_lower (c : ascii) (s : string) :
  (-1 <= JsString.lastIndexOf c s)%Z.
Proof.
  induction s as [|a r IH]; simpl; [lia|].
  destruct (0 <=? JsString.lastIndexOf c r)%Z eqn:E.
  - apply Z.leb_le in E. lia.
  - destruct (Ascii.eqb a c); lia.
Qed.

Lemma lastIndexOf_none (c : ascii) (s : string) :
  JsString.occurs c s = false -> JsString.lastIndexOf c s = (-1)%Z.
Proof.
  induction s as [|a r IH]; simpl; [reflexivity|].
  intros H. apply orb_false_elim in H as [Ha Hr].
  rewrite (IH Hr), Ha. reflexivity.
Qed.

Lemma lastIndexOf_last (c : ascii) (a b : string) :
  JsString.occurs c b = false ->
  JsString.lastIndexOf c (a ++ String c b) = Z.of_nat (String.length a).
Proof.
  intros Hb. induction a as [|x a IH].
  - simpl. rewrite (lastIndexOf_none _ _ Hb). simpl.
    now rewrite Ascii.eqb_refl.
  - change ((String x a ++ String c b)%string)
      with (String x (a ++ String c b)).
    cbn [JsString.lastIndexOf]. rewrite IH.
    replace (0 <=? Z.of_nat (String.length a))%Z with true
      by (symmetry; apply Z.leb_le; lia).
    cbn [String.length]. lia.
Qed.

Lemma substring_whole_prefix (a b : string) :
  String.substring 0 (String.length a) (a ++ b) = a.
Proof.
  induction a as [|x a IH]; simpl.
  - now destruct b.
  - now rewrite IH.
Qed.

Lemma substring_to (a b : string) :
  JsString.substring 0 (Z.of_nat (String.length a)) (a ++ b) = a.
Proof.
  unfold JsString.substring. rewrite TraverseUpFacts.length_append.
  replace (Z.max 0 (Z.min 0 (Z.of_nat (String.length a + String.length b))))
    with 0%Z by lia.
  replace (Z.max 0 (Z.min (Z.of_nat (String.length a))
                      (Z.of_nat (String.length a + String.length b))))
    with (Z.of_nat (String.length a)) by lia.
  replace (Z.min 0 (Z.of_nat (String.length a))) with 0%Z by lia.
  replace (Z.max 0 (Z.of_nat (String.length a)))
    with (Z.of_nat (String.length a)) by lia.
  rewrite Z.sub_0_r, Nat2Z.id. apply substring_whole_prefix.
Qed.

Lemma substring_to_negative (s : string) :
  JsString.substring 0 (-1) s = ""%string.
Proof.
  unfold JsString.substring.
  replace (Z.max 0 (Z.min 0 (Z.of_nat (String.length s)))) with 0%Z by lia.
  replace (Z.max 0 (Z.min (-1) (Z.of_nat (String.length s)))) with 0%Z by lia.
  simpl. now destruct s.
Qed.

(** X15: [removeExtension] takes off the last extension and nothing
    more: for a name [stem.ext] whose [ext] holds no dot and whose [stem]
    is not empty the result is [stem], dots of the stem included. *)
Theorem removeExtension_strips (stem ext : string) :
  Js.truthy stem = true ->
  JsString.occurs "." ext = false ->
  removeExtension (stem ++ "." ++ ext) = stem.
Proof.
  intros Hs He. unfold removeExtension.
  change (stem ++ "." ++ ext)%string with (stem ++ String "."%char ext)%string.
  rewrite (lastIndexOf_last _ _ _ He), substring_to.
  now rewrite Hs.
Qed.

(** X16: the names [removeExtension] returns as they are: a name
    without a dot, and a name whose only dot is its first character, for
    which the part before the dot is empty. *)
Theorem removeExtension_unchanged (filename : string) :
  JsString.occurs "." filename = false ->
  removeExtension filename = filename
  /\ removeExtension ("." ++ filename) = ("." ++ filename)%string.
Proof.
  intros H. unfold removeExtension. split.
  - rewrite (lastIndexOf_none _ _ H), substring_to_negative. reflexivity.
  - change ("." ++ filename)%string with ("" ++ String "."%char filename)%string.
    rewrite (lastIndexOf_last _ _ _ H), substring_to. reflexivity.
Qed.

(** Instances of the two theorems. *)
Lemma removeExtension_strips_witness :
  removeExtension "vite.config.ts" = "vite.config"%string.
Proof.
  apply (removeExtension_strips "vite.config" "ts"); reflexivity.
Defined.

Lemma removeExtension_unchanged_witness :
  removeExtension "gitignore" = "gitignore"%string
  /\ removeExtension ".gitignore" = ".gitignore"%string.
Proof. apply (removeExtension_unchanged "gitignore"). reflexivity. Defined.

(** *** getSpecifiedProperties *)

Lemma specified_fold (obj : gmap string jsvalue) (keys : list string)
    (acc : gmap string jsvalue) (k : string) :
  fold_left
    (fun newObj key =>
       match obj !! key with
       | Some VNull => newObj
       | Some v => <[key := v]> newObj
       | None => <[key := VUndefined]> newObj
       end)
    keys acc !! k
  = if decide (k ∈ keys) then
      match obj !! k with
      | Some VNull => acc !! k
      | Some v => Some v
      | None => Some VUndefined
      end
    else acc !! k.
Proof.
  revert acc. induction keys as [|key keys IH]; intros acc.
  - simpl. destruct (decide (k ∈ [])) as [H|H]; [|reflexivity].
    now apply elem_of_nil in H.
  - cbn [fold_left]. rewrite IH.
    destruct (decide (k = key)) as [->|Hne].
    + destruct (decide (key ∈ key :: keys)) as [_|H];
        [|destruct H; apply list_elem_of_here].
      destruct (obj !! key) as [[]|];
        destruct (decide (key ∈ keys)); try reflexivity;
        now rewrite lookup_insert_eq.
    + assert (Hk : forall v, <[key := v]> acc !! k = acc !! k)
        by (intros v; now apply lookup_insert_ne).
      assert (Ha : match obj !! key with
                   | Some VNull => acc
                   | Some v => <[key := v]> acc
                   | None => <[key := VUndefined]> acc
                   end !! k = acc !! k)
        by (destruct (obj !! key) as [[]|]; auto).
      rewrite Ha.
      destruct (decide (k ∈ keys)) as [Hin|Hin];
        destruct (decide (k ∈ key :: keys)) as [Hin'|Hin']; try reflexivity.
      * destruct Hin'. now apply list_elem_of_further.
      * apply elem_of_cons in Hin' as [?|?]; [congruence | contradiction].
Qed.

(** X17: [getSpecifiedProperties] drops the keys whose value is [null]
    and nothing else: a key that holds [undefined] or a value is in the
    result with what it held, a key that was absent stays absent.  A
    second call returns its argument. *)
Theorem getSpecifiedProperties_lookup (obj : gmap string jsvalue) :
  (forall key,
      getSpecifiedProperties obj !! key
      = match obj !! key with
        | Some VNull => None
        | held => held
        end)
  /\ getSpecifiedProperties (getSpecifiedProperties obj)
     = getSpecifiedProperties obj.
Proof.
  assert (H : forall (o : gmap string jsvalue) key,
             getSpecifiedProperties o !! key
             = match o !! key with
               | Some VNull => None
               | held => held
               end).
  { intros o key. unfold getSpecifiedProperties. rewrite specified_fold.
    rewrite lookup_empty.
    destruct (decide (key ∈ (map_to_list o).*1)) as [Hin|Hin].
    - apply list_elem_of_fmap in Hin as ([key' v] & -> & Hin).
      apply elem_of_map_to_list in Hin. simpl. rewrite Hin. now destruct v.
    - destruct (o !! key) as [v|] eqn:E; [|reflexivity].
      destruct Hin. apply list_elem_of_fmap. exists (key, v).
      split; [reflexivity|]. now apply elem_of_map_to_list. }
  split; [apply H|].
  apply map_eq. intros key. rewrite !H.
  now destruct (obj !! key) as [[]|].
Qed.

(** *** Resolved paths *)

Lemma split_trailing (d : string) :
  Js.split "/" (d ++ "/") = Js.split "/" d ++ [""%string].
Proof. exact (PathFacts.split_app_sep "/" d ""). Qed.

Lemma resolved_render (cwd : string) (segs : list string) :
  clean segs -> resolved cwd (render segs) = (true, segs).
Proof.
  intros Hc. unfold resolved.
  pose proof (TraverseUpFacts.render_truthy segs) as Ht.
  unfold Js.truthy in Ht. apply negb_true_iff in Ht. rewrite Ht.
  rewrite PathFacts.render_absolute. cbv iota beta. f_equal.
  unfold normalizeString. rewrite split_trailing, fold_left_app.
  cbn [negb]. fold (names (render segs)).
  rewrite (PathFacts.names_render _ Hc). cbn [fold_left normalize_step String.eqb].
  apply rev_involutive.
Qed.

Lemma resolve_render (cwd : string) (segs : list string) :
  clean segs -> resolve cwd (render segs) = render segs.
Proof.
  intros Hc. unfold resolve. rewrite (resolved_render cwd segs Hc).
  now destruct segs.
Qed.

Lemma render_inj (a b : list string) :
  clean a -> clean b -> render a = render b -> a = b.
Proof.
  intros Ha Hb H. apply (f_equal names) in H.
  rewrite !PathFacts.names_render in H by assumption.
  rewrite <- (rev_involutive a), <- (rev_involutive b). now f_equal.
Qed.

Lemma drop_common_same (p a b : list string) :
  drop_common (p ++ a) (p ++ b) = drop_common a b.
Proof.
  induction p as [|x p IH]; simpl; [reflexivity|].
  now rewrite String.eqb_refl.
Qed.

Lemma drop_common_split (a b : list string) :
  exists c, a = c ++ fst (drop_common a b) /\ b = c ++ snd (drop_common a b).
Proof.
  revert b. induction a as [|x a IH]; intros b.
  - exists []. now destruct b.
  - destruct b as [|y b]; [now exists []|]. simpl.
    destruct (String.eqb x y) eqn:E.
    + apply String.eqb_eq in E as ->.
      destruct (IH b) as (c & Ha & Hb). exists (y :: c). simpl.
      split; f_equal; assumption.
    + now exists [].
Qed.

(** [path.relative] between two normalised absolute paths. *)
Lemma relative_render (cwd : string) (from to : list string) :
  clean from -> clean to ->
  relative cwd (render from) (render to)
  = Js.join "/" (repeat ".."%string (length (fst (drop_common from to)))
                 ++ snd (drop_common from to)).
Proof.
  intros Hf Ht. unfold relative.
  rewrite !resolve_render, !resolved_render by assumption.
  destruct (String.eqb (render from) (render to)) eqn:E.
  - apply String.eqb_eq in E. apply render_inj in E; try assumption. subst to.
    rewrite <- (app_nil_r from) at 1 2 3 4.
    rewrite drop_common_same. reflexivity.
  - cbn [snd]. now destruct (drop_common from to).
Qed.

(** *** The first name of a relative path *)

Lemma whole_no_sep (x : string) :
  whole x -> JsString.occurs "/" x = false.
Proof.
  unfold whole. induction x as [|a r IH]; [reflexivity|].
  cbn [Js.split JsString.occurs].
  destruct (Ascii.eqb a "/") eqn:E; [discriminate|].
  destruct (Js.split "/" r) as [|h t] eqn:Er.
  - now destruct (JsFacts.split_not_nil "/" r).
  - intros [= -> ->]. now apply IH.
Qed.

Lemma append_nil_r (x : string) : (x ++ "")%string = x.
Proof.
  induction x as [|a x IH]; [reflexivity|].
  change (String a (x ++ "") = String a x). now rewrite IH.
Qed.

Lemma join_head (x : string) (rest : list string) :
  exists tail,
    Js.join "/" (x :: rest) = (x ++ tail)%string
    /\ (tail = ""%string \/ exists t, tail = String "/"%char t).
Proof.
  destruct rest as [|y rest].
  - exists ""%string. split; [|now left]. now rewrite append_nil_r.
  - exists ("/" ++ Js.join "/" (y :: rest))%string.
    split; [reflexivity|]. right. eauto.
Qed.

Lemma relative_head (x tail : string) :
  proper x -> whole x ->
  (tail = ""%string \/ exists t, tail = String "/"%char t) ->
  Js.truthy (x ++ tail) = true
  /\ Js.startsWith (x ++ tail) ".." = Js.startsWith x ".."
  /\ Js.startsWith (x ++ tail) "./" = false
  /\ isAbsolute (x ++ tail) = false.
Proof.
  intros (Hne & Hdot & _) Hw Ht. apply whole_no_sep in Hw.
  unfold Js.truthy, Js.startsWith, isAbsolute, Js.startsWith.
  destruct x as [|a [|b r]]; [discriminate | |].
  - (* one character, not a dot and not a slash *)
    cbn [JsString.occurs] in Hw. apply orb_false_elim in Hw as [Hs _].
    change (String a "" ++ tail)%string with (String a tail).
    cbn [String.prefix String.eqb]. split; [reflexivity|].
    destruct (ascii_dec "." a) as [<-|_]; [discriminate Hdot|].
    destruct (ascii_dec "/" a) as [<-|_]; [discriminate Hs|]. auto.
  - cbn [JsString.occurs] in Hw. apply orb_false_elim in Hw as [Hs Hw].
    apply orb_false_elim in Hw as [Hs' _].
    change (String a (String b r) ++ tail)%string
      with (String a (String b (r ++ tail))).
    cbn [String.prefix String.eqb]. split; [reflexivity|].
    destruct (ascii_dec "/" a) as [<-|_]; [discriminate Hs|].
    destruct (ascii_dec "." a) as [<-|_]; [|auto].
    destruct (ascii_dec "/" b) as [<-|_]; [discriminate Hs'|].
    destruct (ascii_dec "." b); [rewrite !JsFacts.prefix_nil|]; auto.
Qed.

(** *** isSubDirectory and getRelativePath *)

Lemma startsWith_up (tail : string) : Js.startsWith (".." ++ tail) ".." = true.
Proof.
  unfold Js.startsWith.
  change (".." ++ tail)%string with (String "."%char (String "."%char tail)).
  cbn [String.prefix].
  destruct (ascii_dec "." ".") as [_|H]; [apply JsFacts.prefix_nil | now destruct H].
Qed.

Lemma clean_app_inv (a b : list string) : clean (a ++ b) -> clean a /\ clean b.
Proof. exact (proj1 (List.Forall_app _ a b)). Qed.

Lemma relative_below (cwd : string) (parent : list string) (name : string)
    (rest : list string) :
  clean parent -> clean (parent ++ name :: rest) ->
  relative cwd (render parent) (render (parent ++ name :: rest))
  = Js.join "/" (name :: rest).
Proof.
  intros Hp Hd. rewrite relative_render by assumption.
  rewrite <- (app_nil_r parent) at 1 3.
  now rewrite drop_common_same.
Qed.

(** X18: [isSubDirectory] between two normalised absolute paths.  [dir]
    counts as below [parent] exactly when its directory names are those
    of [parent] followed by at least one more, and the first of these
    does not begin with two dots: a directory is not below itself, and a
    directory whose name begins with [..] is not recognised below its
    parent. *)
Theorem isSubDirectory_clean (cwd : string) (parent dir : list string) :
  clean parent -> clean dir ->
  (isSubDirectory cwd (render parent) (render dir) = true
   <-> exists name rest,
         dir = parent ++ name :: rest /\ Js.startsWith name ".." = false).
Proof.
  intros Hp Hd. split.
  - unfold isSubDirectory. rewrite relative_render by assumption.
    destruct (drop_common_split parent dir) as (c & Hpc & Hdc).
    destruct (drop_common parent dir) as [up down]. cbn [fst snd] in *.
    intros H. apply andb_prop in H as [H Habs]. apply andb_prop in H as [Ht Hs].
    destruct up as [|u up].
    + rewrite app_nil_r in Hpc. subst c.
      destruct down as [|name rest]; [vm_compute in Ht; discriminate Ht|].
      exists name, rest. split; [exact Hdc|].
      destruct (join_head name rest) as (tail & Hj & Htail).
      cbn [length repeat app] in Hs. rewrite Hj in Hs.
      rewrite Hdc in Hd. apply clean_app_inv in Hd as [_ Hn].
      inversion Hn as [|? ? [Hproper Hwhole] _]; subst.
      destruct (relative_head name tail Hproper Hwhole Htail) as (_ & Hdd & _).
      rewrite Hdd in Hs. now apply negb_true_iff in Hs.
    + cbn [length repeat app] in Hs.
      destruct (join_head ".." (repeat ".."%string (length up) ++ down))
        as (tail & Hj & _).
      rewrite Hj in Hs.
      rewrite startsWith_up in Hs. discriminate Hs.
  - intros (name & rest & -> & Hn). unfold isSubDirectory.
    rewrite relative_below by assumption.
    destruct (join_head name rest) as (tail & -> & Htail).
    apply clean_app_inv in Hd as [_ Hd].
    inversion Hd as [|? ? [Hproper Hwhole] _]; subst.
    destruct (relative_head name tail Hproper Hwhole Htail)
      as (-> & -> & _ & ->).
    now rewrite Hn.
Qed.

Lemma replace_char_same (c : ascii) (s : string) : Js.replace_char c c s = s.
Proof.
  induction s as [|a s IH]; simpl; [reflexivity|]. rewrite IH.
  destruct (Ascii.eqb a c) eqn:E; [|reflexivity].
  apply Ascii.eqb_eq in E. now subst.
Qed.

(** X19: [getRelativePath] from a directory to a path below it, both
    normalised and absolute, is [./] followed by the names that lead
    down, whatever the working directory; from a directory to itself it
    is [./]. *)
Theorem getRelativePath_below (cwd : string) (root : list string)
    (name : string) (rest : list string) :
  clean root -> clean (root ++ name :: rest) ->
  Js.startsWith name ".." = false ->
  getRelativePath cwd (render root) (render (root ++ name :: rest))
  = ("./" ++ Js.join "/" (name :: rest))%string
  /\ getRelativePath cwd (render root) (render root) = "./"%string.
Proof.
  intros Hr Hd Hn. unfold getRelativePath. split.
  - rewrite relative_below by assumption.
    rewrite NormalizePathFacts.normalizePath_unfold. cbv zeta.
    change (sep posix) with "/"%char. rewrite replace_char_same.
    destruct (join_head name rest) as (tail & -> & Htail).
    apply clean_app_inv in Hd as [_ Hd].
    inversion Hd as [|? ? [Hproper Hwhole] _]; subst.
    destruct (relative_head name tail Hproper Hwhole Htail)
      as (_ & -> & -> & _).
    now rewrite Hn.
  - unfold relative. now rewrite String.eqb_refl.
Qed.

(** Instances of the two theorems: [/app] and [/app/src/components]. *)
Lemma isSubDirectory_clean_witness :
  isSubDirectory "/" (render ["app"%string])
    (render ["app"; "src"; "components"]%string) = true
  <-> exists name rest,
        ["app"; "src"; "components"]%string = ["app"%string] ++ name :: rest
        /\ Js.startsWith name ".." = false.
Proof.
  apply (isSubDirectory_clean "/" ["app"%string]
           ["app"; "src"; "components"]%string);
    repeat constructor.
Defined.

Lemma getRelativePath_below_witness :
  getRelativePath "/" (render ["app"%string])
    (render (["app"%string] ++ "src"%string :: ["components"%string]))
  = ("./" ++ Js.join "/" ["src"; "components"])%string
  /\ getRelativePath "/" (render ["app"%string]) (render ["app"%string])
     = "./"%string.
Proof.
  apply (getRelativePath_below "/" ["app"%string] "src" ["components"%string]);
    [repeat constructor | repeat constructor | reflexivity].
Defined.

(** *** Files of the project *)

(** [path.join] of a normalised absolute directory and a file name. *)
Lemma join_render_name (segs : list string) (name : string) :
  clean segs -> proper name -> whole name ->
  join (render segs) name = render (segs ++ [name]).
Proof.
  intros Hc Hp Hw. unfold join.
  pose proof (TraverseUpFacts.render_truthy segs) as Ht.
  unfold Js.truthy in Ht. apply negb_true_iff in Ht. rewrite Ht.
  destruct Hp as (Hne & Hdot & Hup). rewrite Hne.
  assert (Hsplit : Js.split "/" (render segs ++ "/" ++ name)
                   = Js.split "/" (render segs) ++ [name]).
  { change (render segs ++ "/" ++ name)%string
      with (render segs ++ String "/"%char name)%string.
    rewrite PathFacts.split_app_sep. now rewrite Hw. }
  unfold normalize.
  rewrite (PathFacts.append_empty _ _ Ht).
  assert (Habs : isAbsolute (render segs ++ "/" ++ name) = true).
  { destruct segs as [|s segs']; [reflexivity|].
    exact (PathFacts.isAbsolute_slash (Js.join "/" (s :: segs') ++ "/" ++ name)). }
  rewrite Habs. cbv zeta. cbn [negb].
  assert (Hend : endsWithSlash (render segs ++ "/" ++ name) = false).
  { unfold endsWithSlash. rewrite Hsplit, rev_app_distr. simpl.
    destruct (rev (Js.split "/" (render segs))); [reflexivity | exact Hne]. }
  rewrite Hend. unfold normalizeString. rewrite Hsplit, fold_left_app.
  fold (names (render segs)). rewrite (PathFacts.names_render _ Hc).
  cbn [fold_left]. rewrite PathFacts.step_proper by (repeat split; assumption).
  change (rev (name :: rev segs)) with (rev (rev segs) ++ [name]).
  rewrite rev_involutive.
  assert (Hcl : clean (segs ++ [name])).
  { apply Forall_app. split; [exact Hc|]. repeat constructor; assumption. }
  rewrite (PathFacts.join_clean_empty _ Hcl).
  destruct segs; reflexivity.
Qed.

Lemma isSubDirectory_below (cwd : string) (parent : list string)
    (name : string) (rest : list string) :
  clean parent -> clean (parent ++ name :: rest) ->
  Js.startsWith name ".." = false ->
  isSubDirectory cwd (render parent) (render (parent ++ name :: rest)) = true.
Proof.
  intros Hp Hd Hn. unfold isSubDirectory.
  rewrite relative_below by assumption.
  destruct (join_head name rest) as (tail & -> & Htail).
  apply clean_app_inv in Hd as [_ Hd].
  inversion Hd as [|? ? [Hproper Hwhole] _]; subst.
  destruct (relative_head name tail Hproper Hwhole Htail) as (-> & -> & _ & ->).
  now rewrite Hn.
Qed.

Lemma getRelativePath_down (cwd : string) (root : list string)
    (name : string) (rest : list string) :
  clean root -> clean (root ++ name :: rest) ->
  Js.startsWith name ".." = false ->
  getRelativePath cwd (render root) (render (root ++ name :: rest))
  = ("./" ++ Js.join "/" (name :: rest))%string.
Proof.
  intros Hr Hd Hn. unfold getRelativePath.
  rewrite relative_below by assumption.
  rewrite NormalizePathFacts.normalizePath_unfold. cbv zeta.
  change (sep posix) with "/"%char. rewrite replace_char_same.
  destruct (join_head name rest) as (tail & -> & Htail).
  apply clean_app_inv in Hd as [_ Hd].
  inversion Hd as [|? ? [Hproper Hwhole] _]; subst.
  destruct (relative_head name tail Hproper Hwhole Htail) as (_ & -> & -> & _).
  now rewrite Hn.
Qed.

Lemma clean_snoc (segs : list string) (name : string) :
  clean segs -> proper name -> whole name -> clean (segs ++ [name]).
Proof.
  intros Hc Hp Hw. apply Forall_app. split; [exact Hc|].
  constructor; [split; assumption | constructor].
Qed.

(** The path of the file [name] in the directory [directory] of a
    project rooted at a normalised absolute path. *)
Lemma project_file (cwd : string) (root : list string) (directory name : string) :
  clean root -> proper directory -> whole directory ->
  proper name -> whole name ->
  Js.startsWith directory ".." = false ->
  join (join (render root) directory) name = render (root ++ [directory; name])
  /\ isSubDirectory cwd (render root) (render (root ++ [directory; name])) = true
  /\ getRelativePath cwd (render root) (render (root ++ [directory; name]))
     = ("./" ++ directory ++ "/" ++ name)%string.
Proof.
  intros Hc Hpd Hwd Hpn Hwn Hs.
  assert (Hcl : clean (root ++ [directory; name])).
  { change [directory; name] with ([directory] ++ [name]). rewrite app_assoc.
    apply clean_snoc; [apply clean_snoc|..]; assumption. }
  split; [|split].
  - rewrite join_render_name by assumption.
    rewrite join_render_name by (try apply clean_snoc; assumption).
    now rewrite <- app_assoc.
  - now apply isSubDirectory_below.
  - now apply getRelativePath_down.
Qed.

Lemma project_root_file (cwd : string) (root : list string) (name : string) :
  clean root -> proper name -> whole name ->
  Js.startsWith name ".." = false ->
  join (render root) name = render (root ++ [name])
  /\ isSubDirectory cwd (render root) (render (root ++ [name])) = true
  /\ getRelativePath cwd (render root) (render (root ++ [name]))
     = ("./" ++ name)%string.
Proof.
  intros Hc Hpn Hwn Hs.
  assert (Hcl : clean (root ++ [name])) by now apply clean_snoc.
  split; [|split].
  - now apply join_render_name.
  - now apply isSubDirectory_below.
  - now apply getRelativePath_down.
Qed.

(** X20: [getRelayEnvFilepath] for a project rooted at a normalised
    absolute path: the file is [src/RelayEnvironment.ts], or [.js], of
    the project; [isSubDirectory] places it below the root, its
    [getRelativePath] from the root is [./src/RelayEnvironment] with the
    extension, and [removeExtension] of that is
    [./src/RelayEnvironment]. *)
Theorem getRelayEnvFilepath_below (cwd : string) (root : list string)
    (env : EnvArguments) (args : CliArguments) :
  clean root ->
  projectRootDirectory env = render root ->
  let filename :=
    ("RelayEnvironment" ++ (if typescript args then ".ts" else ".js"))%string in
  let filepath := getRelayEnvFilepath env args in
  filepath = render (root ++ ["src"%string; filename])
  /\ isSubDirectory cwd (projectRootDirectory env) filepath = true
  /\ getRelativePath cwd (projectRootDirectory env) filepath
     = ("./src/" ++ filename)%string
  /\ removeExtension (getRelativePath cwd (projectRootDirectory env) filepath)
     = "./src/RelayEnvironment"%string.
Proof.
  intros Hc Hroot filename filepath. unfold filepath, getRelayEnvFilepath.
  rewrite Hroot. fold filename.
  assert (Hn : proper filename /\ whole filename)
    by (unfold filename; destruct (typescript args); repeat split; reflexivity).
  destruct Hn as [Hp Hw].
  destruct (project_file cwd root "src" filename Hc) as (-> & Hs & Hr);
    try assumption; try (repeat split; reflexivity).
  repeat split; try assumption. rewrite Hr.
  unfold filename. now destruct (typescript args).
Qed.

(** *** getToolchainSettings *)

Lemma findOrThrow_listed (readdir : string -> option (list string))
    (directory filename : string) :
  findOrThrow readdir directory filename
  = if Helpers.listed readdir directory filename
    then inr (join directory filename)
    else inl (NotFound filename).
Proof.
  unfold findOrThrow, Helpers.findFileInDirectory, Helpers.listed.
  destruct (readdir directory) as [filenames|]; [|reflexivity].
  destruct (existsb _ filenames); [|reflexivity].
  now rewrite PathFacts.join_truthy.
Qed.

Lemma getToolchainSettings_cases (readdir : string -> option (list string))
    (env : EnvArguments) (args : CliArguments) :
  getToolchainSettings readdir env args
  = match toolchain args with
    | cra => inl (Unsupported cra)
    | _ =>
        if Helpers.listed readdir (projectRootDirectory env) (Shapes.configName args)
        then
          if Helpers.listed readdir
               (join (projectRootDirectory env) (Shapes.mainDirectory args))
               (Shapes.mainName args)
          then inr {| configFilepath :=
                        join (projectRootDirectory env) (Shapes.configName args);
                      mainFilepath :=
                        join (join (projectRootDirectory env)
                                (Shapes.mainDirectory args))
                          (Shapes.mainName args) |}
          else inl (NotFound (Shapes.mainName args))
        else inl (NotFound (Shapes.configName args))
    end.
Proof.
  unfold getToolchainSettings, Shapes.configName, Shapes.mainDirectory,
    Shapes.mainName.
  destruct (toolchain args) eqn:Et; [reflexivity|..];
    rewrite !findOrThrow_listed;
    destruct (Helpers.listed readdir (projectRootDirectory env) _);
    try reflexivity;
    now destruct (Helpers.listed readdir (join (projectRootDirectory env) _) _).
Qed.

(** X21: what [getToolchainSettings] returns for a project rooted at a
    normalised absolute path.  The toolchain is Vite or Next.js, both
    files are listed where they were looked for, the config file in the
    root and the main file in [src] or [pages]; the paths returned are
    those of the two files, and [getRelativePath] gives them back as
    [./<config>] and [./<directory>/<main>]. *)
Theorem getToolchainSettings_files (cwd : string)
    (readdir : string -> option (list string)) (root : list string)
    (env : EnvArguments) (args : CliArguments) (settings : ToolchainSettings) :
  clean root ->
  projectRootDirectory env = render root ->
  getToolchainSettings readdir env args = inr settings ->
  toolchain args <> cra
  /\ Helpers.listed readdir (render root) (Shapes.configName args) = true
  /\ Helpers.listed readdir (render (root ++ [Shapes.mainDirectory args]))
       (Shapes.mainName args) = true
  /\ configFilepath settings = render (root ++ [Shapes.configName args])
  /\ mainFilepath settings
     = render (root ++ [Shapes.mainDirectory args; Shapes.mainName args])
  /\ getRelativePath cwd (render root) (configFilepath settings)
     = ("./" ++ Shapes.configName args)%string
  /\ getRelativePath cwd (render root) (mainFilepath settings)
     = ("./" ++ Shapes.mainDirectory args ++ "/" ++ Shapes.mainName args)%string.
Proof.
  intros Hc Hroot. rewrite getToolchainSettings_cases, Hroot.
  assert (Hnames :
            (proper (Shapes.configName args) /\ whole (Shapes.configName args)
             /\ Js.startsWith (Shapes.configName args) ".." = false)
            /\ (proper (Shapes.mainDirectory args)
                /\ whole (Shapes.mainDirectory args)
                /\ Js.startsWith (Shapes.mainDirectory args) ".." = false)
            /\ proper (Shapes.mainName args) /\ whole (Shapes.mainName args)).
  { unfold Shapes.configName, Shapes.mainDirectory, Shapes.mainName.
    destruct (toolchain args), (typescript args); repeat split; reflexivity. }
  destruct Hnames as ((Hpc & Hwc & Hsc) & (Hpd & Hwd & Hsd) & Hpm & Hwm).
  destruct (project_root_file cwd root _ Hc Hpc Hwc Hsc) as (Hjc & _ & Hrc).
  destruct (project_file cwd root _ _ Hc Hpd Hwd Hpm Hwm Hsd) as (Hjm & _ & Hrm).
  rewrite (join_render_name root _ Hc Hpd Hwd) in Hjm |- *.
  destruct (toolchain args) eqn:Et; [discriminate|..];
    (destruct (Helpers.listed readdir (render root) _) eqn:El1; [|discriminate]);
    (destruct (Helpers.listed readdir (render (root ++ _)) _) eqn:El2;
     [|discriminate]);
    intros [= <-]; cbn [configFilepath mainFilepath];
    rewrite Hjc, Hjm, Hrc, Hrm; repeat split; discriminate.
Qed.

(** X22: the errors of [getToolchainSettings].  Create React App is
    refused as unsupported; for Vite and Next.js the function throws
    exactly when the config file is not listed in the project root, or
    it is and the main file is not listed in its directory, and the
    error names the config file in the first case, also when both files
    are missing, and the main file in the second. *)
Theorem getToolchainSettings_errors (readdir : string -> option (list string))
    (env : EnvArguments) (args : CliArguments) (e : settingsError) :
  getToolchainSettings readdir env args = inl e
  <-> (toolchain args = cra /\ e = Unsupported cra)
      \/ (toolchain args <> cra
          /\ Helpers.listed readdir (projectRootDirectory env)
               (Shapes.configName args) = false
          /\ e = NotFound (Shapes.configName args))
      \/ (toolchain args <> cra
          /\ Helpers.listed readdir (projectRootDirectory env)
               (Shapes.configName args) = true
          /\ Helpers.listed readdir
               (join (projectRootDirectory env) (Shapes.mainDirectory args))
               (Shapes.mainName args) = false
          /\ e = NotFound (Shapes.mainName args)).
Proof.
  rewrite getToolchainSettings_cases.
  destruct (toolchain args) eqn:Et.
  - split.
    + intros [= <-]. now left.
    + intros [(_ & ->)|[(H & _)|(H & _)]]; [reflexivity | now destruct H..].
  - destruct (Helpers.listed readdir (projectRootDirectory env) _);
      [destruct (Helpers.listed readdir (join _ _) _)|]; split;
      try discriminate;
      try (intros [= <-]; right; (left + right); repeat split; discriminate);
      intros [(H & _)|[(_ & H & He)|(_ & H1 & H2 & He)]];
      try discriminate; now subst.
  - destruct (Helpers.listed readdir (projectRootDirectory env) _);
      [destruct (Helpers.listed readdir (join _ _) _)|]; split;
      try discriminate;
      try (intros [= <-]; right; (left + right); repeat split; discriminate);
      intros [(H & _)|[(_ & H & He)|(_ & H1 & H2 & He)]];
      try discriminate; now subst.
Qed.

(** *** Instances for the project [/app] *)

Lemma getRelayEnvFilepath_below_witness :
  let filename := "RelayEnvironment.ts"%string in
  let filepath := getRelayEnvFilepath Scenarios.appEnv Scenarios.viteTypescript in
  filepath = render (["app"%string] ++ ["src"%string; filename])
  /\ isSubDirectory "/" "/app" filepath = true
  /\ getRelativePath "/" "/app" filepath = ("./src/" ++ filename)%string
  /\ removeExtension (getRelativePath "/" "/app" filepath)
     = "./src/RelayEnvironment"%string.
Proof.
  apply (getRelayEnvFilepath_below "/" ["app"%string] Scenarios.appEnv
           Scenarios.viteTypescript);
    [repeat constructor | reflexivity].
Defined.

Lemma getToolchainSettings_files_witness :
  let settings :=
    {| configFilepath := "/app/vite.config.ts";
       mainFilepath := "/app/src/main.tsx" |} in
  toolchain Scenarios.viteTypescript <> cra
  /\ Helpers.listed Scenarios.viteListing (render ["app"%string])
       (Shapes.configName Scenarios.viteTypescript) = true
  /\ Helpers.listed Scenarios.viteListing
       (render (["app"%string] ++ [Shapes.mainDirectory Scenarios.viteTypescript]))
       (Shapes.mainName Scenarios.viteTypescript) = true
  /\ configFilepath settings
     = render (["app"%string] ++ [Shapes.configName Scenarios.viteTypescript])
  /\ mainFilepath settings
     = render (["app"%string]
               ++ [Shapes.mainDirectory Scenarios.viteTypescript;
                   Shapes.mainName Scenarios.viteTypescript])
  /\ getRelativePath "/" (render ["app"%string]) (configFilepath settings)
     = ("./" ++ Shapes.configName Scenarios.viteTypescript)%string
  /\ getRelativePath "/" (render ["app"%string]) (mainFilepath settings)
     = ("./" ++ Shapes.mainDirectory Scenarios.viteTypescript ++ "/"
        ++ Shapes.mainName Scenarios.viteTypescript)%string.
Proof.
  apply (getToolchainSettings_files "/" Scenarios.viteListing ["app"%string]
           Scenarios.appEnv Scenarios.viteTypescript
           {| configFilepath := "/app/vite.config.ts";
              mainFilepath := "/app/src/main.tsx" |});
    [repeat constructor | reflexivity | reflexivity].
Defined.

End HelpersMoreFacts.

(** ** helpers.ts: a search that finds the file *)

Module TraverseUpMoreFacts.

Import Js NodePath Helpers.

Lemma loop_finds (readdir : string -> option (list string)) (filename : string)
    (k : nat) (d : string) :
  truthy d = true ->
  listed readdir (ancestor k d) filename = true ->
  exists filepath,
    traverseUpToFindFile (S k) readdir d filename = Some (Some filepath).
Proof.
  revert d. induction k as [|k IH]; intros d Ht Hl.
  - cbn [traverseUpToFindFile]. rewrite Ht.
    rewrite TraverseUpFacts.findFile_truthy.
    change (ancestor 0 d) with d in Hl. rewrite Hl.
    rewrite (TraverseUpFacts.findFile_listed _ _ _ Hl). eauto.
  - cbn [traverseUpToFindFile]. rewrite Ht.
    rewrite TraverseUpFacts.findFile_truthy.
    destruct (listed readdir d filename) eqn:E.
    + rewrite (TraverseUpFacts.findFile_listed _ _ _ E). eauto.
    + cbv zeta. destruct (String.eqb d (NodePath.join d "..")) eqn:Eq.
      * apply String.eqb_eq in Eq. symmetry in Eq.
        rewrite (TraverseUpFacts.ancestor_fixed _ _ Eq) in Hl. congruence.
      * apply IH; [apply PathFacts.join_truthy|].
        now rewrite <- TraverseUpFacts.ancestor_S.
Qed.

(** X23: [traverseUpToFindFile] from any non-empty starting directory,
    relative ones included.  When the directory reached after [k] steps
    up lists the file, the loop returns within [k + 1] iterations, and
    what it returns is the path of the file in the first directory of
    the upward path that lists it. *)
Theorem traverseUpToFindFile_finds (readdir : string -> option (list string))
    (directory filename : string) (k : nat) :
  truthy directory = true ->
  listed readdir (ancestor k directory) filename = true ->
  exists filepath,
    traverseUpToFindFile (S k) readdir directory filename = Some (Some filepath)
    /\ first_hit readdir directory filename (Some filepath).
Proof.
  intros Ht Hl.
  destruct (loop_finds readdir filename k directory Ht Hl) as [filepath Hf].
  exists filepath. split; [exact Hf|].
  exact (TraverseUpFacts.loop_sound readdir filename _ _ _ Ht Hf).
Qed.

(** An instance of [traverseUpToFindFile_finds]: a search that starts
    in the relative directory [a/b]. *)
Lemma traverseUpToFindFile_finds_witness :
  exists filepath,
    traverseUpToFindFile 2
      (fun d => if String.eqb d "a" then Some ["package.json"%string] else Some [])
      "a/b" "package.json" = Some (Some filepath)
    /\ first_hit
         (fun d => if String.eqb d "a" then Some ["package.json"%string] else Some [])
         "a/b" "package.json" (Some filepath).
Proof.
  apply (traverseUpToFindFile_finds
           (fun d => if String.eqb d "a" then Some ["package.json"%string] else Some [])
           "a/b" "package.json" 1); reflexivity.
Defined.

End TraverseUpMoreFacts.

(** ** tasks/GenerateRelayEnvironmentTask.ts *)

Module GenerateRelayEnvironmentFacts.

Import Task GenerateRelayEnvironmentTask.

(** X24: [GenerateRelayEnvironmentTask] never touches an existing
    environment file.  When something exists at the path the task is
    skipped with the reason ["File exists"] and makes no call; otherwise
    it returns normally, not skipped, after two calls: it creates the
    parent directory of the file and then writes the prettified code to
    the file. *)
Theorem relay_environment_task (context : ProjectContext)
    (platform : NodePath.platform) (prettifyCode : string -> string)
    (w : world) :
  let done := run context platform prettifyCode w in
  if present w (abs (relayEnvFile context)) then
    outcome_of done = Skipped "File exists"
    /\ calls (snd done) = calls w
    /\ files (snd done) = files w
    /\ directories (snd done) = directories w
  else
    fst done = Ok tt
    /\ skipped (snd done) = skipped w
    /\ calls (snd done)
       = calls w
         ++ [ CreateDirectory (parentDirectory (relayEnvFile context));
              WriteFile (abs (relayEnvFile context))
                (prettifyCode (code context platform)) ]
    /\ files (snd done) !! abs (relayEnvFile context)
       = Some (prettifyCode (code context platform)).
Proof.
  unfold run, addRelayEnvironmentFile, seq, updateMessage, exists_. simpl.
  change (present _ (abs (relayEnvFile context)))
    with (present w (abs (relayEnvFile context))).
  destruct (present w (abs (relayEnvFile context))); simpl.
  - auto.
  - repeat split.
    + now rewrite <- app_assoc.
    + apply lookup_insert_eq.
Qed.

(** X25: for a JavaScript project the generated module holds no
    TypeScript: whatever the toolchain, the subscriptions flag and the
    line ending, the code has no type import, none of the type names
    [FetchFunction], [SubscribeFunction] and [RecordMap], no annotation
    with [Environment] and no type argument [<any>]. *)
Theorem javascript_code_untyped (context : ProjectContext)
    (platform : NodePath.platform) :
  typescript context = false ->
  Forall (fun fragment => includes fragment (code context platform) = false)
    [ "import type"; "FetchFunction"; "SubscribeFunction"; "RecordMap";
      ": Environment"; "<any>" ]%string.
Proof.
  destruct context as [t ts sub file]. cbn [typescript]. intros ->.
  destruct t, sub, platform; repeat constructor; vm_compute; reflexivity.
Qed.

(** X26: the imports of the generated module agree with its code,
    whatever the arguments.  [Observable], [FetchFunction] and
    [SubscribeFunction] are among the names imported from
    [relay-runtime] exactly when the code uses them, [RecordMap] and
    [createClient] are imported exactly when they are used, and the
    network is created with [subscribeFn] exactly when [subscribeFn] is
    defined. *)
Theorem imports_match_code (context : ProjectContext)
    (platform : NodePath.platform) :
  let code := code context platform in
  let imported := fun name =>
    existsb (String.eqb name) (relayRuntimeImports context) in
  imported "Observable"%string = includes "Observable.create" code
  /\ imported "FetchFunction"%string = includes "fetchFn: FetchFunction" code
  /\ imported "SubscribeFunction"%string
     = includes "subscribeFn: SubscribeFunction" code
  /\ includes "import type { RecordMap }" code
     = includes "initialRecords?: RecordMap" code
  /\ includes "import { createClient }" code = includes "createClient(" code
  /\ includes "const subscribeFn" code
     = includes "Network.create(fetchFn, subscribeFn)" code
  /\ includes "Network.create(fetchFn)" code = negb (subscriptions context).
Proof.
  destruct context as [t ts sub file].
  destruct t, ts, sub, platform; vm_compute; repeat split.
Qed.

(** An instance of [javascript_code_untyped]: Next.js with
    subscriptions. *)
Lemma javascript_code_untyped_witness :
  Forall
    (fun fragment =>
       includes fragment
         (code
            {| toolchain := ProjectContext.next;
               typescript := false;
               subscriptions := true;
               relayEnvFile :=
                 {| abs := "/app/src/RelayEnvironment.js";
                    rel := "./src/RelayEnvironment.js";
                    parentDirectory := "/app/src" |} |}
            NodePath.posix)
       = false)
    [ "import type"; "FetchFunction"; "SubscribeFunction"; "RecordMap";
      ": Environment"; "<any>" ]%string.
Proof.
  apply (javascript_code_untyped
           {| toolchain := ProjectContext.next;
              typescript := false;
              subscriptions := true;
              relayEnvFile :=
                {| abs := "/app/src/RelayEnvironment.js";
                   rel := "./src/RelayEnvironment.js";
                   parentDirectory := "/app/src" |} |}
           NodePath.posix).
  reflexivity.
Defined.

End GenerateRelayEnvironmentFacts.

(** ** arguments/ArgumentHandler.ts *)

Module ArgumentHandlerFacts.

Import HelpersMore ArgumentHandler Shapes.

Lemma get_insert_ne (args : arguments) (key key' : string) (v : jsvalue) :
  key' <> key -> get (<[key' := v]> args) key = get args key.
Proof. intros H. unfold get. now rewrite lookup_insert_ne. Qed.

Lemma fillMissing_supplied (parsedArgs : arguments)
    (argumentDefinitions : list ArgumentBase) (allArgs : arguments)
    (key : string) :
  isUndefined (get parsedArgs key) = false ->
  get (fillMissing parsedArgs argumentDefinitions allArgs) key = get allArgs key.
Proof.
  intros Hk. revert allArgs.
  induction argumentDefinitions as [|d rest IH]; intros allArgs;
    [reflexivity|].
  cbn [fillMissing].
  destruct (isUndefined (get parsedArgs (name d))) eqn:E; cbn [negb];
    [|apply IH].
  assert (Hne : name d <> key) by (intros Heq; rewrite Heq in E; congruence).
  destruct (negb (truthy (get parsedArgs "yes")));
    rewrite IH; now apply get_insert_ne.
Qed.

Lemma fillMissing_other (parsedArgs : arguments)
    (argumentDefinitions : list ArgumentBase) (allArgs : arguments)
    (key : string) :
  (forall d, In d argumentDefinitions -> name d <> key) ->
  fillMissing parsedArgs argumentDefinitions allArgs !! key = allArgs !! key.
Proof.
  revert allArgs.
  induction argumentDefinitions as [|d rest IH]; intros allArgs Hk;
    [reflexivity|].
  cbn [fillMissing].
  assert (Hne : name d <> key) by (apply Hk; now left).
  assert (Hrest : forall d', In d' rest -> name d' <> key)
    by (intros d' Hd'; apply Hk; now right).
  destruct (negb (isUndefined (get parsedArgs (name d)))); [now apply IH|].
  destruct (negb (truthy (get parsedArgs "yes")));
    rewrite IH by assumption; now apply lookup_insert_ne.
Qed.

Lemma validateArgs_result (argumentDefinitions : list ArgumentBase)
    (args : arguments) :
  match validateArgs argumentDefinitions args with
  | inr _ => Forall (accepted args) argumentDefinitions
  | inl e =>
      exists before d after validationMsg,
        argumentDefinitions = before ++ d :: after
        /\ Forall (accepted args) before
        /\ isUndefined (get args (name d)) = false
        /\ isValid d (get args (name d)) args = Some validationMsg
        /\ e = InvalidArg (name d) (get args (name d)) validationMsg
  end.
Proof.
  induction argumentDefinitions as [|d rest IH]; cbn [validateArgs];
    [constructor|].
  destruct (isUndefined (get args (name d))) eqn:Eu.
  - destruct (validateArgs rest args) as [e|].
    + destruct IH as (before & d' & after & msg & -> & Hb & H).
      exists (d :: before), d', after, msg. split; [reflexivity|].
      split; [|exact H]. constructor; [now left | exact Hb].
    + constructor; [now left | exact IH].
  - destruct (isValid d (get args (name d)) args) as [msg|] eqn:Ev.
    + exists [], d, rest, msg. repeat split; auto.
    + destruct (validateArgs rest args) as [e|].
      * destruct IH as (before & d' & after & msg & -> & Hb & H).
        exists (d :: before), d', after, msg. split; [reflexivity|].
        split; [|exact H]. constructor; [now right | exact Hb].
      * constructor; [now right | exact IH].
Qed.

(** X27: what [promptForMissing] returns.  A value given on the command
    line is never changed, a key that no definition names is as it was,
    and every definition's value in the result, if there is one, is
    valid against the result. *)
Theorem promptForMissing_keeps (argumentDefinitions : list ArgumentBase)
    (parsedArgs allArgs : arguments) :
  promptForMissing argumentDefinitions parsedArgs = inr allArgs ->
  (forall key,
      isUndefined (get parsedArgs key) = false ->
      get allArgs key = get parsedArgs key)
  /\ (forall key,
        (forall d, In d argumentDefinitions -> name d <> key) ->
        allArgs !! key = parsedArgs !! key)
  /\ Forall (accepted allArgs) argumentDefinitions.
Proof.
  unfold promptForMissing.
  pose proof (validateArgs_result argumentDefinitions
                (fillMissing parsedArgs argumentDefinitions parsedArgs)) as Hv.
  destruct (validateArgs _ _) as [e|[]]; [discriminate|].
  intros [= <-]. split; [|split].
  - intros key Hk. now apply fillMissing_supplied.
  - intros key Hk. now apply fillMissing_other.
  - exact Hv.
Qed.

(** X28: [validateArgs] goes through the definitions in order and throws
    at the first whose value in [args] is there and not valid, with the
    error for that name, value and message; it returns when every value
    is [undefined] or valid.  Definitions after the first invalid one
    are not looked at. *)
Theorem validateArgs_first_invalid (argumentDefinitions : list ArgumentBase)
    (args : arguments) :
  (validateArgs argumentDefinitions args = inr tt
   <-> Forall (accepted args) argumentDefinitions)
  /\ (forall e,
        validateArgs argumentDefinitions args = inl e
        <-> exists before d after validationMsg,
              argumentDefinitions = before ++ d :: after
              /\ Forall (accepted args) before
              /\ isUndefined (get args (name d)) = false
              /\ isValid d (get args (name d)) args = Some validationMsg
              /\ e = InvalidArg (name d) (get args (name d)) validationMsg).
Proof.
  assert (Hfirst : forall before d after validationMsg,
             Forall (accepted args) before ->
             isUndefined (get args (name d)) = false ->
             isValid d (get args (name d)) args = Some validationMsg ->
             validateArgs (before ++ d :: after) args
             = inl (InvalidArg (name d) (get args (name d)) validationMsg)).
  { intros before d after msg Hb Hu Hv.
    induction Hb as [|d' before [Hd'|Hd'] _ IH]; cbn [validateArgs app].
    - now rewrite Hu, Hv.
    - now rewrite Hd'.
    - destruct (isUndefined (get args (name d'))); [exact IH|].
      now rewrite Hd'. }
  pose proof (validateArgs_result argumentDefinitions args) as Hr.
  split; [split|intros e; split].
  - intros H. now rewrite H in Hr.
  - intros Hall. destruct (validateArgs argumentDefinitions args) as [e|[]];
      [|reflexivity].
    destruct Hr as (before & d & after & msg & -> & _ & Hu & Hv & _).
    apply Forall_app in Hall as [_ Hall].
    inversion Hall as [|? ? [Hd|Hd] _]; subst; congruence.
  - intros H. now rewrite H in Hr.
  - intros (before & d & after & msg & -> & Hb & Hu & Hv & ->).
    now apply Hfirst.
Qed.

Lemma fillMissing_yes (answer : arguments -> jsvalue) (parsedArgs : arguments)
    (argumentDefinitions : list ArgumentBase) (allArgs : arguments) :
  truthy (get parsedArgs "yes") = true ->
  fillMissing parsedArgs (map (answering answer) argumentDefinitions) allArgs
  = fillMissing parsedArgs argumentDefinitions allArgs.
Proof.
  intros Hy. revert allArgs.
  induction argumentDefinitions as [|d rest IH]; intros allArgs;
    [reflexivity|].
  cbn [map fillMissing answering name getDefaultValue]. rewrite Hy. cbn [negb].
  now rewrite !IH.
Qed.

Lemma validateArgs_answering (answer : arguments -> jsvalue)
    (argumentDefinitions : list ArgumentBase) (args : arguments) :
  validateArgs (map (answering answer) argumentDefinitions) args
  = validateArgs argumentDefinitions args.
Proof.
  induction argumentDefinitions as [|d rest IH]; [reflexivity|].
  cbn [map validateArgs answering name isValid]. now rewrite IH.
Qed.

(** X29: with [--yes] nobody is asked.  Whatever the answers at the
    prompts would be, [promptForMissing] returns the same: each missing
    value is the default of its definition, computed from the arguments
    as filled so far. *)
Theorem promptForMissing_yes (answer : arguments -> jsvalue)
    (argumentDefinitions : list ArgumentBase) (parsedArgs : arguments) :
  truthy (get parsedArgs "yes") = true ->
  promptForMissing (map (answering answer) argumentDefinitions) parsedArgs
  = promptForMissing argumentDefinitions parsedArgs.
Proof.
  intros Hy. unfold promptForMissing.
  now rewrite (fillMissing_yes answer _ _ _ Hy), validateArgs_answering.
Qed.

(** An instance of [promptForMissing_keeps]: the toolchain is asked
    for. *)
Lemma promptForMissing_keeps_witness :
  let allArgs :=
    <[ "toolchain"%string := VString "vite" ]> Scenarios.typescriptOnly in
  (forall key,
      isUndefined (get Scenarios.typescriptOnly key) = false ->
      get allArgs key = get Scenarios.typescriptOnly key)
  /\ (forall key,
        (forall d, In d [Scenarios.toolchainArgument] -> name d <> key) ->
        allArgs !! key = Scenarios.typescriptOnly !! key)
  /\ Forall (accepted allArgs) [Scenarios.toolchainArgument].
Proof.
  apply (promptForMissing_keeps [Scenarios.toolchainArgument]
           Scenarios.typescriptOnly
           (<[ "toolchain"%string := VString "vite" ]> Scenarios.typescriptOnly)).
  vm_compute. reflexivity.
Defined.

(** An instance of [promptForMissing_yes]. *)
Lemma promptForMissing_yes_witness :
  promptForMissing
    (map (answering (fun _ => VString "next")) [Scenarios.toolchainArgument])
    Scenarios.typescriptYes
  = promptForMissing [Scenarios.toolchainArgument] Scenarios.typescriptYes.
Proof.
  apply (promptForMissing_yes (fun _ => VString "next")
           [Scenarios.toolchainArgument] Scenarios.typescriptYes).
  reflexivity.
Defined.

End ArgumentHandlerFacts.

(** ** tasks/AddRelayEnvironmentProviderTask.ts: a second run *)

Module ProviderAgainFacts.

Import Babel Task Utils ProjectContext AddRelayEnvironmentProviderTask.
Import ListFacts TreeFacts JsxHostFacts WrapFacts.

Lemma firstAmong_here (search : node -> option position) (i : nat)
    (before after : list node) (c : node) (q : position) :
  Forall (fun c' => search c' = None) before ->
  search c = Some q ->
  firstAmong search i (before ++ c :: after) = Some ((i + length before) :: q).
Proof.
  intros Hb Hc. revert i. induction Hb as [|b before Hn _ IH]; intros i; simpl.
  - rewrite Hc. now rewrite Nat.add_0_r.
  - rewrite Hn, IH. do 2 f_equal. lia.
Qed.

Lemma type_replace_at (i : nat) (q : position) (r n : node) :
  type_of (replace_at (i :: q) r n) = type_of n.
Proof. now destruct n. Qed.

Section Mode.

Variable accepts : node -> bool.

(** The parent test looks at the parent's type, and for a call at its
    callee: a replacement of the first anchor below the parent by a JSX
    element does not change it. *)
Hypothesis accepts_stable :
  forall ty before c after q r,
    firstAnchor accepts (Node ty (before ++ c :: after)) c = Some q ->
    isJSXElement r = true ->
    accepts (Node ty (before ++ replace_at q r c :: after))
    = accepts (Node ty (before ++ c :: after)).

Lemma firstAnchor_parent (parent parent' n : node) :
  accepts parent' = accepts parent ->
  firstAnchor accepts parent' n = firstAnchor accepts parent n.
Proof.
  intros H. destruct n as [ty cs]. rewrite !(firstAnchor_unfold accepts).
  now rewrite H.
Qed.

(** The first anchor is still the first anchor once it is replaced by
    a JSX element. *)
Lemma firstAnchor_replace (n parent parent' : node) (p : position) (r : node) :
  firstAnchor accepts parent n = Some p ->
  isJSXElement r = true ->
  accepts parent' = accepts parent ->
  firstAnchor accepts parent' (replace_at p r n) = Some p.
Proof.
  revert parent parent' p. induction n as [ty cs IH] using node_ind.
  intros parent parent' p Hp Hr Ha.
  rewrite (firstAnchor_unfold accepts) in Hp.
  destruct (isJSXElement (Node ty cs) && accepts parent) eqn:E.
  - injection Hp as <-. cbn [replace_at]. destruct r as [rty rcs].
    rewrite (firstAnchor_unfold accepts), Hr, Ha.
    apply andb_prop in E as [_ ->]. reflexivity.
  - pose proof (firstAmong_spec (firstAnchor accepts (Node ty cs)) 0 cs) as Hs.
    rewrite Hp in Hs.
    destruct Hs as (before & c & after & q & -> & -> & Hc & Hb).
    cbn [replace_at Nat.add]. rewrite alter_middle.
    rewrite (firstAnchor_unfold accepts).
    change (isJSXElement (Node ty (before ++ replace_at q r c :: after)))
      with (isJSXElement (Node ty (before ++ c :: after))).
    rewrite Ha, E.
    pose proof (accepts_stable ty before c after q r Hc Hr) as Hst.
    apply firstAmong_here.
    + apply List.Forall_forall. intros b Hin.
      rewrite (firstAnchor_parent _ _ b Hst).
      rewrite List.Forall_forall in Hb. now apply Hb.
    + rewrite List.Forall_forall in IH.
      exact (IH c (in_elt c before after) (Node ty (before ++ c :: after)) _ q
               Hc Hr Hst).
Qed.

End Mode.

(** *** The parent tests of the two modes under a replacement *)

Lemma isReturned_stable (ty : ntype) (before : list node) (c : node)
    (after : list node) (q : position) (r : node) :
  firstAnchor isReturned (Node ty (before ++ c :: after)) c = Some q ->
  isJSXElement r = true ->
  isReturned (Node ty (before ++ replace_at q r c :: after))
  = isReturned (Node ty (before ++ c :: after)).
Proof. reflexivity. Qed.

(** [isRenderCall] reads the types of the parent, of its callee and of
    the property of the callee. *)
Lemma isRenderCall_types (n n' : node) :
  type_of n' = type_of n ->
  type_of (callee_of n') = type_of (callee_of n) ->
  type_of (property_of (callee_of n')) = type_of (property_of (callee_of n)) ->
  isRenderCall n' = isRenderCall n.
Proof.
  intros H1 H2 H3.
  unfold isRenderCall, isCallExpression, isMemberExpression, isIdentifier, name_of.
  now rewrite H1, H2, H3.
Qed.

Lemma jsx_type (n : node) : isJSXElement n = true -> type_of n = JSXElement.
Proof. unfold isJSXElement. now destruct (type_of n). Qed.

Lemma anchor_below (accepts : node -> bool) (parent n : node) (i : nat)
    (q : position) :
  firstAnchor accepts parent n = Some (i :: q) ->
  exists c, children_of n !! i = Some c
            /\ firstAnchor accepts n c = Some q.
Proof.
  destruct n as [ty cs]. rewrite (firstAnchor_unfold accepts).
  destruct (isJSXElement (Node ty cs) && accepts parent); [discriminate|].
  intros H.
  pose proof (firstAmong_spec (firstAnchor accepts (Node ty cs)) 0 cs) as Hs.
  rewrite H in Hs. destruct Hs as (before & c & after & p & -> & [= -> ->] & Hc & _).
  exists c. split; [apply lookup_middle | exact Hc].
Qed.

Lemma anchor_here (accepts : node -> bool) (parent n : node) :
  firstAnchor accepts parent n = Some [] ->
  isJSXElement n = true /\ accepts parent = true.
Proof.
  destruct n as [ty cs]. rewrite (firstAnchor_unfold accepts).
  destruct (isJSXElement (Node ty cs) && accepts parent) eqn:E.
  - intros _. now apply andb_prop.
  - intros H.
    pose proof (firstAmong_spec (firstAnchor accepts (Node ty cs)) 0 cs) as Hs.
    rewrite H in Hs. now destruct Hs as (? & ? & ? & ? & _ & [=] & _).
Qed.

Lemma child_replace_other (i j : nat) (q : position) (r n : node) :
  i <> j -> child j (replace_at (i :: q) r n) = child j n.
Proof.
  intros H. destruct n as [ty cs]. unfold child. cbn [replace_at children_of].
  rewrite !nth_lookup. now rewrite list_lookup_alter_ne.
Qed.

Lemma child_replace_same (i : nat) (q : position) (r n c : node) :
  children_of n !! i = Some c ->
  child i (replace_at (i :: q) r n) = replace_at q r c.
Proof.
  intros H. destruct n as [ty cs]. unfold child. cbn [replace_at children_of] in *.
  rewrite nth_lookup, list_lookup_alter_eq, H. reflexivity.
Qed.

Lemma isRenderCall_stable (ty : ntype) (before : list node) (c : node)
    (after : list node) (q : position) (r : node) :
  firstAnchor isRenderCall (Node ty (before ++ c :: after)) c = Some q ->
  isJSXElement r = true ->
  isRenderCall (Node ty (before ++ replace_at q r c :: after))
  = isRenderCall (Node ty (before ++ c :: after)).
Proof.
  intros Hq Hr. destruct before as [|b before]; [|reflexivity].
  cbn [app] in *. set (P := Node ty (c :: after)) in *.
  destruct q as [|j q].
  - (* the callee itself would be the anchor *)
    apply anchor_here in Hq as [Hj Ha].
    unfold isRenderCall in Ha. apply andb_prop in Ha as [Ha _].
    apply andb_prop in Ha as [Ha _]. apply andb_prop in Ha as [_ Hm].
    unfold isJSXElement in Hj. unfold isMemberExpression in Hm.
    change (callee_of P) with c in Hm. now destruct (type_of c).
  - apply isRenderCall_types; [reflexivity | apply type_replace_at |].
    change (callee_of (Node ty (replace_at (j :: q) r c :: after)))
      with (replace_at (j :: q) r c).
    change (callee_of P) with c.
    destruct (Nat.eq_dec j 1) as [->|Hne];
      [|unfold property_of; now rewrite child_replace_other].
    apply anchor_below in Hq as (c2 & Hc2 & Hq).
    unfold property_of. rewrite (child_replace_same 1 q r c c2 Hc2).
    replace (child 1 c) with c2
      by (unfold child; now rewrite nth_lookup, Hc2).
    destruct q as [|k q]; [|apply type_replace_at].
    (* the property itself is the anchor: one JSX element for another *)
    apply anchor_here in Hq as [Hj _]. cbn [replace_at].
    now rewrite (jsx_type _ Hr), (jsx_type _ Hj).
Qed.

(** *** Import declarations under a replacement *)

Lemma type_replace_anchor (accepts : node -> bool) (parent n : node)
    (q : position) (r : node) :
  firstAnchor accepts parent n = Some q ->
  isJSXElement r = true ->
  type_of (replace_at q r n) = type_of n.
Proof.
  intros Hq Hr. destruct q as [|j q]; [|apply type_replace_at].
  apply anchor_here in Hq as [Hj _]. cbn [replace_at].
  now rewrite (jsx_type _ Hr), (jsx_type _ Hj).
Qed.

Lemma children_types_replace (accepts : node -> bool) (parent n : node)
    (j : nat) (q : position) (r : node) :
  firstAnchor accepts parent n = Some (j :: q) ->
  isJSXElement r = true ->
  map type_of (children_of (replace_at (j :: q) r n))
  = map type_of (children_of n).
Proof.
  destruct n as [ty cs]. rewrite (firstAnchor_unfold accepts).
  destruct (isJSXElement (Node ty cs) && accepts parent); [discriminate|].
  intros H Hr.
  pose proof (firstAmong_spec (firstAnchor accepts (Node ty cs)) 0 cs) as Hs.
  rewrite H in Hs.
  destruct Hs as (before & c & after & p & -> & [= -> ->] & Hc & _).
  cbn [replace_at children_of Nat.add]. rewrite alter_middle, !map_app.
  cbn [map]. now rewrite (type_replace_anchor accepts _ c p r Hc Hr).
Qed.

Lemma find_specifier_types (importName : string) (l l' : list node) :
  map type_of l' = map type_of l ->
  match
    find (fun sp => match type_of sp with
                    | ImportSpecifier imported _ => String.eqb imported importName
                    | _ => false
                    end) l'
  with
  | Some (Node (ImportSpecifier _ local) _) => Some local
  | _ => None
  end
  = match
      find (fun sp => match type_of sp with
                      | ImportSpecifier imported _ => String.eqb imported importName
                      | _ => false
                      end) l
    with
    | Some (Node (ImportSpecifier _ local) _) => Some local
    | _ => None
    end.
Proof.
  revert l'. induction l as [|x l IH]; intros [|x' l'] H; try discriminate;
    [reflexivity|].
  cbn [map] in H. injection H as Hx Hl. cbn [find]. rewrite Hx.
  destruct (match type_of x with
            | ImportSpecifier imported _ => String.eqb imported importName
            | _ => false
            end); [|now apply IH].
  destruct x as [ty cs], x' as [ty' cs']. cbn [type_of] in Hx. now subst.
Qed.

Lemma importedAs_types (importName packageName : string) (c c' : node) :
  type_of c' = type_of c ->
  map type_of (children_of c') = map type_of (children_of c) ->
  importedAs importName packageName c' = importedAs importName packageName c.
Proof.
  intros Ht Hc. unfold importedAs. rewrite Ht.
  destruct (type_of c); try reflexivity.
  destruct (String.eqb source packageName); [|reflexivity].
  now apply find_specifier_types.
Qed.

Lemma importedAs_replace (accepts : node -> bool) (parent c : node)
    (q : position) (r : node) (importName packageName : string) :
  firstAnchor accepts parent c = Some q ->
  isJSXElement r = true ->
  importedAs importName packageName (replace_at q r c)
  = importedAs importName packageName c.
Proof.
  intros Hq Hr. destruct q as [|j q].
  - apply anchor_here in Hq as [Hj _]. cbn [replace_at]. unfold importedAs.
    now rewrite (jsx_type _ Hr), (jsx_type _ Hj).
  - apply importedAs_types; [apply type_replace_at|].
    exact (children_types_replace accepts parent c j q r Hq Hr).
Qed.

Lemma getNamedImport_middle (importName packageName : string)
    (before after : list node) (c c' : node) :
  importedAs importName packageName c' = importedAs importName packageName c ->
  getNamedImport importName packageName (before ++ c' :: after)
  = getNamedImport importName packageName (before ++ c :: after).
Proof.
  intros H. induction before as [|b before IH]; cbn [app getNamedImport].
  - now rewrite H.
  - now rewrite IH.
Qed.

Lemma getNamedImport_after (importName packageName : string)
    (ins l l' : list node) :
  getNamedImport importName packageName l'
  = getNamedImport importName packageName l ->
  getNamedImport importName packageName (ins ++ l')
  = getNamedImport importName packageName (ins ++ l).
Proof.
  intros H. induction ins as [|b ins IH]; cbn [app getNamedImport];
    [exact H | now rewrite IH].
Qed.

(** What [insertNamedImport] puts in front of the module: nothing or one
    import declaration, which holds no anchor. *)
Lemma insertNamedImport_front (body : list node) (importName packageName : string) :
  exists ins,
    snd (insertNamedImport body importName packageName) = ins ++ body
    /\ Forall (fun s => forall accepts parent, firstAnchor accepts parent s = None)
         ins.
Proof.
  unfold insertNamedImport.
  destruct (getNamedImport importName packageName body).
  - exists []. split; [reflexivity | constructor].
  - eexists [_]. split; [reflexivity|].
    constructor; [|constructor]. intros accepts parent. reflexivity.
Qed.

(** *** The first run, seen from the element it leaves at the anchor *)

Lemma replace_at_id (p : position) (n x : node) :
  subtree p n = Some x -> replace_at p x n = n.
Proof.
  revert n. induction p as [|i p IH]; intros [ty cs]; cbn [subtree replace_at].
  - now intros [= ->].
  - cbn [children_of]. destruct (cs !! i) as [c|] eqn:E; [|discriminate].
    intros H. apply list_elem_of_split_length in E as (l1 & l2 & -> & ->).
    rewrite alter_middle. now rewrite (IH c H).
Qed.

Lemma anchorAt_jsx (accepts : node -> bool) (parent n : node) (p : position) :
  anchorAt accepts parent n p = true ->
  exists jsx, subtree p n = Some jsx /\ isJSXElement jsx = true.
Proof.
  revert parent n. induction p as [|i p IH]; intros parent n; cbn [anchorAt subtree].
  - intros H. apply andb_prop in H as [H _]. eauto.
  - destruct (children_of n !! i) as [c|]; [apply IH | discriminate].
Qed.

(** The element [wrapAndSkip] leaves in the place of [jsx]: a JSX
    element with the tag of the provider, [jsx] itself or the wrap of
    it. *)
Lemma wrapAndSkip_leaves (jsx : node) (st : state) :
  isJSXElement jsx = true ->
  let ensuredEnv := insertNamedImport (program st) RELAY_ENV "" in
  let ensuredProvider :=
    insertNamedImport (snd ensuredEnv) RELAY_ENV_PROVIDER REACT_RELAY_PACKAGE in
  exists left,
    isJSXElement left = true
    /\ isJSXIdentifier (tagName_of left)
       && String.eqb (name_of (tagName_of left)) (name_of (fst ensuredProvider))
       = true
    /\ program (snd (wrapAndSkip jsx st)) = snd ensuredProvider
    /\ providerWrapped (snd (wrapAndSkip jsx st)) = true
    /\ ((fst (wrapAndSkip jsx st) = Skip /\ left = jsx)
        \/ fst (wrapAndSkip jsx st) = ReplaceWith left).
Proof.
  intros Hj ensuredEnv ensuredProvider. unfold wrapAndSkip.
  rewrite (wrapJsxInProvider_eq jsx st (fst ensuredEnv) (snd ensuredEnv)
             (fst ensuredProvider) (snd ensuredProvider))
    by (unfold ensuredProvider, ensuredEnv;
        now repeat match goal with
                   | |- context [insertNamedImport ?b ?x ?m] =>
                       destruct (insertNamedImport b x m)
                   end).
  cbv zeta.
  change (name_of (jsxIdentifier (name_of (fst ensuredProvider))))
    with (name_of (fst ensuredProvider)).
  destruct (isJSXIdentifier (tagName_of jsx)
            && String.eqb (name_of (tagName_of jsx))
                 (name_of (fst ensuredProvider))) eqn:E.
  - exists jsx. cbn [fst snd program providerWrapped]. auto 10.
  - eexists. cbn [fst snd program providerWrapped].
    split; [|split; [|split; [reflexivity|split; [reflexivity|right; reflexivity]]]].
    + reflexivity.
    + unfold tagName_of, openingElement_of, child. cbn.
      now rewrite String.eqb_refl.
Qed.

(** *** The second run *)

Section Again.

Variable accepts : node -> bool.

Hypothesis accepts_stable :
  forall ty before c after q r,
    firstAnchor accepts (Node ty (before ++ c :: after)) c = Some q ->
    isJSXElement r = true ->
    accepts (Node ty (before ++ replace_at q r c :: after))
    = accepts (Node ty (before ++ c :: after)).

Hypothesis accepts_program : forall n, isProgram n = true -> accepts n = false.

Hypothesis accepts_null : accepts null = false.

Lemma unshifted_front (ast : node) (ins : list node) (st : state) :
  program st = ins ++ children_of ast -> unshifted ast st = ins.
Proof.
  intros H. unfold unshifted. rewrite H, length_app.
  replace (length ins + length (children_of ast) - length (children_of ast))
    with (length ins) by lia.
  apply take_app_length.
Qed.

Lemma transform_again (ast : node) (p : position) :
  isProgram ast = true ->
  firstAnchor accepts null ast = Some p ->
  let once := fst (transform accepts ast) in
  transform accepts once
  = (once,
     {| providerWrapped := true;
        program := children_of once;
        skipReason := Some "JSX already wrapped with RelayEnvironmentProvider"%string |}).
Proof.
  intros Hprog Hp. destruct ast as [aty cs].
  destruct p as [|i q];
    [apply anchor_here in Hp as [_ Ha]; rewrite accepts_null in Ha; discriminate|].
  pose proof Hp as Hsplit. rewrite (firstAnchor_unfold accepts) in Hsplit.
  rewrite accepts_null, andb_false_r in Hsplit.
  pose proof (firstAmong_spec (firstAnchor accepts (Node aty cs)) 0 cs) as Hs.
  rewrite Hsplit in Hs.
  destruct Hs as (before & c & after & q' & -> & [= -> <-] & Hc & Hb).
  cbn [Nat.add] in *. clear Hsplit.
  set (ast := Node aty (before ++ c :: after)) in *.
  pose proof (firstAnchor_spec accepts c ast) as Hspec. rewrite Hc in Hspec.
  destruct Hspec as (Hanchor & _ & _).
  apply anchorAt_jsx in Hanchor as (jsx & Hj & Hjsx).
  (* the first run *)
  destruct (wrapAndSkip_leaves jsx (initial ast) Hjsx)
    as (left & Hl & Htag & Hprogram & Hw & Hcase).
  set (ensuredEnv := insertNamedImport (program (initial ast)) RELAY_ENV "") in *.
  set (ensuredProvider :=
         insertNamedImport (snd ensuredEnv) RELAY_ENV_PROVIDER REACT_RELAY_PACKAGE)
    in *.
  assert (Hfirst : wrapAt q c (initial ast)
                   = (replace_at q left c, snd (wrapAndSkip jsx (initial ast)))).
  { unfold wrapAt. rewrite Hj.
    destruct (wrapAndSkip jsx (initial ast)) as [a st']. cbn [fst snd] in *.
    destruct Hcase as [[-> ->]| ->]; [|reflexivity].
    now rewrite (replace_at_id q c jsx Hj). }
  destruct (insertNamedImport_front (program (initial ast)) RELAY_ENV "")
    as (ins1 & Hins1 & Hnone1).
  destruct (insertNamedImport_front (snd ensuredEnv) RELAY_ENV_PROVIDER
              REACT_RELAY_PACKAGE) as (ins2 & Hins2 & Hnone2).
  fold ensuredEnv in Hins1. fold ensuredProvider in Hins2.
  assert (Hfront : snd ensuredProvider = (ins2 ++ ins1) ++ before ++ c :: after).
  { rewrite Hins2, Hins1. now rewrite app_assoc. }
  set (ins := ins2 ++ ins1) in *.
  set (c' := replace_at q left c) in *.
  assert (Honce : fst (transform accepts ast)
                  = Node aty ((ins ++ before) ++ c' :: after)).
  { unfold transform. rewrite (traverse_first accepts) by reflexivity.
    rewrite Hp. unfold ast at 1.
    rewrite wrapAt_cons by (rewrite Hj; eauto). fold ast. rewrite Hfirst.
    cbn [fst snd type_of children_of].
    rewrite (unshifted_front ast ins)
      by (rewrite Hprogram, Hfront; reflexivity).
    now rewrite <- app_assoc. }
  cbv zeta. rewrite Honce. clear Honce.
  set (once := Node aty ((ins ++ before) ++ c' :: after)).
  (* the second run *)
  assert (Hty : aty = Program).
  { unfold isProgram in Hprog. cbn in Hprog. now destruct aty. }
  assert (Hacc : accepts once = accepts ast).
  { rewrite !accepts_program; [reflexivity | |]; unfold isProgram; cbn;
      now rewrite Hty. }
  assert (Hfirst' : firstAnchor accepts null once = Some (length (ins ++ before) :: q)).
  { unfold once. rewrite (firstAnchor_unfold accepts). fold once.
    rewrite accepts_null, andb_false_r.
    apply (firstAmong_here _ 0).
    - apply Forall_app. split.
      + apply Forall_app. split.
        * eapply Forall_impl; [exact Hnone2|]. intros s Hs. apply Hs.
        * eapply Forall_impl; [exact Hnone1|]. intros s Hs. apply Hs.
      + apply List.Forall_forall. intros b Hin.
        rewrite (firstAnchor_parent accepts _ _ b Hacc).
        rewrite List.Forall_forall in Hb. now apply Hb.
    - exact (firstAnchor_replace accepts accepts_stable c ast once q left
               Hc Hl Hacc). }
  unfold transform. rewrite (traverse_first accepts) by reflexivity.
  rewrite Hfirst'. unfold once at 1.
  assert (Hsub : subtree q c' = Some left)
    by (apply subtree_replace_at_self; rewrite Hj; eauto).
  rewrite wrapAt_cons by (rewrite Hsub; eauto). fold once.
  unfold wrapAt. rewrite Hsub.
  (* both names are found among the imports *)
  assert (Hsame : forall X M,
             getNamedImport X M (children_of once)
             = getNamedImport X M (snd ensuredProvider)).
  { intros X M. unfold once. cbn [children_of]. rewrite Hfront.
    rewrite <- !app_assoc. apply getNamedImport_after, getNamedImport_after.
    apply (getNamedImport_middle X M [] after).
    exact (importedAs_replace accepts ast c q left X M Hc Hl). }
  assert (Henv : insertNamedImport (children_of once) RELAY_ENV ""
                 = (identifier (name_of (fst ensuredEnv)), children_of once)).
  { apply ensure_idle. rewrite Hsame.
    apply ensure_kept; [reflexivity | apply ensure_found]. }
  assert (Hprovider :
            insertNamedImport (children_of once) RELAY_ENV_PROVIDER
              REACT_RELAY_PACKAGE
            = (identifier (name_of (fst ensuredProvider)), children_of once)).
  { apply ensure_idle. rewrite Hsame. apply ensure_found. }
  unfold wrapAndSkip.
  rewrite (wrapJsxInProvider_eq left (initial once) _ _ _ _ Henv Hprovider).
  cbv zeta.
  change (name_of (jsxIdentifier (name_of (identifier (name_of (fst ensuredProvider))))))
    with (name_of (fst ensuredProvider)).
  rewrite Htag. cbn [fst snd program skipReason providerWrapped].
  cbn [type_of children_of]. unfold unshifted.
  cbn [program children_of]. rewrite Nat.sub_diag, take_0.
  reflexivity.
Qed.

End Again.

(** *** The task run twice *)

Lemma program_not_accepted (n : node) :
  isProgram n = true -> isReturned n = false /\ isRenderCall n = false.
Proof.
  unfold isProgram, isReturned, isReturnStatement, isRenderCall, isCallExpression.
  now destruct (type_of n).
Qed.

Lemma transform_again_mode (next : bool) (ast : node) (p : position) :
  let accepts := if next then isReturned else isRenderCall in
  isProgram ast = true ->
  anchorAt accepts null ast p = true ->
  let once := fst (transform accepts ast) in
  providerWrapped (snd (transform accepts ast)) = true
  /\ transform accepts once
     = (once,
        {| providerWrapped := true;
           program := children_of once;
           skipReason :=
             Some "JSX already wrapped with RelayEnvironmentProvider"%string |}).
Proof.
  intros accepts Hprog Ha.
  pose proof (firstAnchor_spec accepts ast null) as Hs.
  destruct (firstAnchor accepts null ast) as [p'|] eqn:Hp;
    [|rewrite Hs in Ha; discriminate].
  destruct Hs as (_ & Hsub & _). split.
  - rewrite (ProviderTaskFacts.transform_parts accepts ast). cbn [snd].
    rewrite (traverse_first accepts) by reflexivity. rewrite Hp.
    now apply wrapAt_wrapped.
  - unfold accepts in *. destruct next.
    + apply (transform_again isReturned isReturned_stable) with (p := p');
        try assumption; [|reflexivity].
      intros n Hn. now apply program_not_accepted.
    + apply (transform_again isRenderCall isRenderCall_stable) with (p := p');
        try assumption; [|reflexivity].
      intros n Hn. now apply program_not_accepted.
Qed.

(** X30: the task is idempotent.  When the main file is a module with
    an anchor of the toolchain's mode, a first [run] writes the file,
    and a second [run] on what was written finds the element at the
    anchor under the provider's tag: it changes nothing in the tree,
    adds no import, counts as skipped with the reason
    ["JSX already wrapped with RelayEnvironmentProvider"], and writes
    the print of the same tree once more.  [parseAst] is assumed to read
    back the tree that was printed. *)
Theorem provider_run_twice (context : ProjectContext)
    (parseAst : string -> option node) (printAst : node -> string -> string)
    (w : world) (code : string) (ast : node) (p : position) :
  let accepts :=
    match toolchain context with next => isReturned | _ => isRenderCall end in
  let once := fst (transform accepts ast) in
  files w !! abs (mainFile context) = Some code ->
  parseAst code = Some ast ->
  isProgram ast = true ->
  anchorAt accepts null ast p = true ->
  parseAst (printAst once code) = Some once ->
  let first := run context parseAst printAst w in
  let second := run context parseAst printAst (snd first) in
  fst first = Ok tt
  /\ fst (transform accepts once) = once
  /\ outcome_of second
     = Skipped "JSX already wrapped with RelayEnvironmentProvider"
  /\ calls (snd second)
     = calls w
       ++ [ WriteFile (abs (mainFile context)) (printAst once code);
            WriteFile (abs (mainFile context))
              (printAst once (printAst once code)) ].
Proof.
  intros accepts once Hc Hp Hprog Ha Hround first second.
  assert (Hmode : accepts
                  = if match toolchain context with next => true | _ => false end
                    then isReturned else isRenderCall)
    by (unfold accepts; now destruct (toolchain context)).
  pose proof (transform_again_mode
                (match toolchain context with next => true | _ => false end)
                ast p) as Hm.
  cbv zeta in Hm. rewrite <- Hmode in Hm.
  destruct (Hm Hprog Ha) as (Hw & Hagain). clear Hm. fold once in Hagain.
  assert (Hfirst : first
                   = writeFile (abs (mainFile context)) (printAst once code)
                       (let w1 := snd (updateMessage
                                         (message ++ " to "
                                          ++ h (rel (mainFile context)))%string w) in
                        match skipReason (snd (transform accepts ast)) with
                        | Some reason => snd (skip reason w1)
                        | None => w1
                        end)).
  { unfold first. rewrite ProviderTaskFacts.run_dispatch. fold accepts.
    rewrite (ProviderTaskFacts.configure_parsed accepts _ _ _ _ _ code ast)
      by assumption.
    cbv zeta. now rewrite Hw. }
  assert (Hfiles : files (snd first) !! abs (mainFile context)
                   = Some (printAst once code)).
  { rewrite Hfirst. cbn [writeFile snd files]. apply lookup_insert_eq. }
  assert (Hcalls : calls (snd first)
                   = calls w ++ [WriteFile (abs (mainFile context))
                                   (printAst once code)]).
  { rewrite Hfirst. cbn [writeFile snd calls]. f_equal.
    now destruct (skipReason (snd (transform accepts ast))). }
  assert (Hsecond : second
                    = writeFile (abs (mainFile context))
                        (printAst once (printAst once code))
                        (snd (skip "JSX already wrapped with RelayEnvironmentProvider"
                                (snd (updateMessage
                                        (message ++ " to "
                                         ++ h (rel (mainFile context)))%string
                                        (snd first)))))).
  { unfold second. rewrite ProviderTaskFacts.run_dispatch. fold accepts.
    rewrite (ProviderTaskFacts.configure_parsed accepts _ _ _ _ _
               (printAst once code) once) by assumption.
    cbv zeta. now rewrite Hagain. }
  split; [now rewrite Hfirst|]. split; [now rewrite Hagain|].
  rewrite Hsecond. split; [reflexivity|].
  cbn [writeFile skip updateMessage snd calls]. rewrite Hcalls.
  now rewrite <- app_assoc.
Qed.

(** An instance of [provider_run_twice]: the main file [twoRenders] of
    a Vite project. *)
Lemma provider_run_twice_witness :
  let once := fst (transform isRenderCall Scenarios.twoRenders) in
  let parseAst := fun text : string =>
    Some (if String.eqb text "main" then Scenarios.twoRenders else once) in
  let printAst := fun (_ : node) (_ : string) => "printed"%string in
  let first :=
    run Examples.viteMainContext parseAst printAst Examples.viteProject in
  let second := run Examples.viteMainContext parseAst printAst (snd first) in
  fst first = Ok tt
  /\ fst (transform isRenderCall once) = once
  /\ outcome_of second
     = Skipped "JSX already wrapped with RelayEnvironmentProvider"
  /\ calls (snd second)
     = calls Examples.viteProject
       ++ [ WriteFile "/app/src/main.jsx" "printed";
            WriteFile "/app/src/main.jsx" "printed" ].
Proof.
  apply (provider_run_twice Examples.viteMainContext
           (fun text : string =>
              Some (if String.eqb text "main" then Scenarios.twoRenders
                    else fst (transform isRenderCall Scenarios.twoRenders)))
           (fun (_ : node) (_ : string) => "printed"%string)
           Examples.viteProject "main" Scenarios.twoRenders [0; 0; 1]);
    reflexivity.
Defined.

End ProviderAgainFacts.
